(** * LogChirpy bird image fetcher: a shallow embedding

    Source: [dev/image_getters/bird_image_fetcher.py].

    Modelling conventions.
    - Python [str] values are [string]s of ASCII characters; [str.lower]
      is the ASCII case map and [a in b] on strings is the substring test
      [str_in a b].
    - Python [int] is [Z].  Python [float] values ([final_score], the
      [* 1.25] and [* 1.1] thresholds, Pillow's aspect ratio) are exact
      rationals [Q]: rounding to double is monotone and the quantities
      compared are integers below 2^50 or sums of a small integer and a
      fraction of a byte count, so the comparisons the code makes agree
      with the exact ones.
    - Dictionaries keyed by strings are [gmap string _]; [set()] is a
      [gset string].
    - Logging and [time.sleep] have no effect on any value modelled here
      and are left out. *)

From Stdlib Require Import ZArith QArith Qround Qabs Lqa Lia Bool List Ascii String.
From Stdlib Require Import Sorted Permutation.
From stdpp Require Import gmap strings list fin_maps.

Local Open Scope string_scope.
Local Open Scope list_scope.
Local Open Scope Z_scope.

(** ** Python strings *)

Module Py.

(** [c.lower()] for one ASCII character. *)
Definition lower_ascii (c : ascii) : ascii :=
  let n := N_of_ascii c in
  if ((65 <=? n) && (n <=? 90))%N then ascii_of_N (n + 32) else c.

(** [s.lower()] *)
Fixpoint lower (s : string) : string :=
  match s with
  | EmptyString => EmptyString
  | String c s' => String (lower_ascii c) (lower s')
  end.

(** [sub in s]: [sub] occurs in [s] as a contiguous substring. *)
Fixpoint str_in (sub s : string) : bool :=
  String.prefix sub s ||
  match s with
  | EmptyString => false
  | String _ s' => str_in sub s'
  end.

(** [any(p(x) for x in l)] and [sum(1 for x in l if p(x))] *)
Definition any {A} (p : A -> bool) (l : list A) : bool := existsb p l.
Definition count_if {A} (p : A -> bool) (l : list A) : Z :=
  Z.of_nat (length (List.filter p l)).

(** [min(a, b)] on numbers: the first argument unless the second is
    strictly smaller. *)
Definition Qltb (a b : Q) : bool := negb (Qle_bool b a).
Definition min (a b : Q) : Q := if Qltb b a then b else a.

End Py.

(** ** Candidate filter and scorer *)

Module Scorer.

(** One search hit: the dictionary built by [_search_commons_images], with
    the two keys that [_filter_bird_images] and
    [_deduplicate_and_score_results] add later. *)
Record result := mk_result {
  title : string;
  size : Z;
  timestamp : string;
  snippet : string;
  quality_score : option Z;
  final_score : option Q
}.

Definition set_quality_score (r : result) (v : Z) : result :=
  {| title := title r; size := size r; timestamp := timestamp r;
     snippet := snippet r; quality_score := Some v;
     final_score := final_score r |}.

Definition set_final_score (r : result) (v : Q) : result :=
  {| title := title r; size := size r; timestamp := timestamp r;
     snippet := snippet r; quality_score := quality_score r;
     final_score := Some v |}.

Definition bad_keywords : list string :=
  [ "egg"; "eggs"; "nest"; "nesting"; "map"; "distribution"; "range";
    "footprint"; "track"; "tracks"; "feather"; "feathers"; "skeleton";
    "diagram"; "chart"; "graph"; "illustration"; "drawing"; "painting";
    "museum"; "specimen"; "skull"; "bone"; "wing"; "tail"; "beak";
    "habitat"; "environment"; "landscape"; "migration"; "call"; "song";
    "sound"; "audio"; "spectrogram"; "analysis"; "study"; "research" ].

Definition good_keywords (scientific_name : string) : list string :=
  [ "male"; "female"; "adult"; "juvenile"; "breeding"; "plumage";
    "portrait"; "photo"; "photograph"; "bird"; "flying"; "perched";
    "sitting"; "standing"; "feeding"; "foraging";
    Py.lower scientific_name ].

(** The test of the [if any(bad_word in title or bad_word in snippet ...)]
    line, on the lowered title and snippet. *)
Definition has_bad_keyword (title snippet : string) : bool :=
  Py.any (fun bad_word => Py.str_in bad_word title || Py.str_in bad_word snippet)
         bad_keywords.

Definition good_score (scientific_name title snippet : string) : Z :=
  Py.count_if (fun good_word => Py.str_in good_word title || Py.str_in good_word snippet)
              (good_keywords scientific_name).

Fixpoint _filter_bird_images (results : list result) (scientific_name : string)
  : list result :=
  match results with
  | [] => []
  | r :: rest =>
      let title := Py.lower (title r) in
      let snippet := Py.lower (snippet r) in
      if has_bad_keyword title snippet
      then _filter_bird_images rest scientific_name
      else set_quality_score r (good_score scientific_name title snippet)
             :: _filter_bird_images rest scientific_name
  end.

(** The first loop of [_deduplicate_and_score_results]: keep a result
    when its title has not been seen yet. *)
Fixpoint unique_results (seen_titles : gset string) (results : list result)
  : list result :=
  match results with
  | [] => []
  | r :: rest =>
      if decide (title r ∈ seen_titles)
      then unique_results seen_titles rest
      else r :: unique_results ({[ title r ]} ∪ seen_titles) rest
  end.

(** The body of the second loop: the final score of one result. *)
Definition score_result (scientific_name : string) (r : result) : result :=
  let score := inject_Z (default 0 (quality_score r)) in
  let title := Py.lower (title r) in
  let score :=
    if Py.str_in (Py.lower scientific_name) title then (score + 10)%Q else score in
  let score :=
    if Py.any (fun pattern => Py.str_in pattern title)
              ["male"; "female"; "adult"; "portrait"]
    then (score + 5)%Q else score in
  let size_score := Py.min (inject_Z (size r) / 1000000)%Q 5%Q in
  set_final_score r (score + size_score)%Q.

(** The sort key [(x.get('final_score', 0), x.get('size', 0))] and the
    order Python uses on such pairs. *)
Definition sort_key (x : result) : Q * Z := (default 0%Q (final_score x), size x).

Definition key_lt (a b : Q * Z) : bool :=
  Py.Qltb (fst a) (fst b) || (Qeq_bool (fst a) (fst b) && (snd a <? snd b)).

(** [sorted(l, key=sort_key, reverse=True)]: descending, and stable (results
    with equal keys keep their relative order). *)
Fixpoint insert_desc (x : result) (l : list result) : list result :=
  match l with
  | [] => [x]
  | y :: l' =>
      if key_lt (sort_key x) (sort_key y) then y :: insert_desc x l'
      else x :: y :: l'
  end.

Definition sorted_reverse (l : list result) : list result :=
  foldr insert_desc [] l.

Definition _deduplicate_and_score_results (results : list result)
  (scientific_name : string) : list result :=
  sorted_reverse (map (score_result scientific_name) (unique_results ∅ results)).

(** The composition that [search_bird_images] applies to the hits it
    gathered: filter, then deduplicate, score and sort. *)
Definition filter_and_score (hits : list result) (scientific_name : string)
  : list result :=
  _deduplicate_and_score_results (_filter_bird_images hits scientific_name)
    scientific_name.

End Scorer.

(** ** Pillow images

    [PIL.Image] and [PIL.ImageOps] are an external library.  An image is
    modelled by what the fetcher observes of it: its pixel dimensions, its
    mode and its EXIF orientation tag.  [exif_transpose] and [thumbnail]
    transcribe Pillow's size computations ([ImageOps.exif_transpose] and
    [Image.thumbnail] as of Pillow 9.1, the first release with
    [Image.Resampling]). *)

Module Imaging.

Inductive mode := RGB | L | RGBA | P | CMYK | LA | Mode1.

Record image := mk_image {
  width : Z;
  height : Z;
  img_mode : mode;
  orientation : Z        (* EXIF tag 0x0112; 1 when absent *)
}.

(** Bytes per pixel in [Image.tobytes()] for the two modes an image has
    after the fetcher's conversion; the other modes are listed for
    completeness. *)
Definition bands (m : mode) : Z :=
  match m with
  | RGB => 3 | L => 1 | RGBA => 4 | P => 1 | CMYK => 4 | LA => 2 | Mode1 => 1
  end.

(** [len(img.tobytes())] *)
Definition len_tobytes (img : image) : Z :=
  width img * height img * bands (img_mode img).

(** [img.convert('RGB')] *)
Definition convert_RGB (img : image) : image :=
  {| width := width img; height := height img; img_mode := RGB;
     orientation := orientation img |}.

(** [ImageOps.exif_transpose]: orientations 5 to 8 are the transpositions
    that exchange the two axes; 2 to 4 are flips and a half turn.  The
    orientation tag is removed from the result. *)
Definition exif_transpose (img : image) : image :=
  if (5 <=? orientation img) && (orientation img <=? 8)
  then {| width := height img; height := width img; img_mode := img_mode img;
          orientation := 1 |}
  else {| width := width img; height := height img; img_mode := img_mode img;
          orientation := 1 |}.

(** [min(a, b, key=key)]: [a] unless [key(b)] is strictly smaller. *)
Definition min_by_key (a b : Z) (key : Z -> Q) : Z :=
  if Py.Qltb (key b) (key a) then b else a.

(** [round_aspect] of [Image.thumbnail]. *)
Definition round_aspect (number : Q) (key : Z -> Q) : Z :=
  Z.max (min_by_key (Qfloor number) (Qceiling number) key) 1.

(** [preserve_aspect_ratio] of [Image.thumbnail]: [None] when the image
    already fits the requested size. *)
Definition preserve_aspect_ratio (size : Z * Z) (img : image) : option (Z * Z) :=
  let '(x, y) := size in
  if (x >=? width img) && (y >=? height img) then None
  else
    let aspect := (inject_Z (width img) / inject_Z (height img))%Q in
    if Qle_bool aspect (inject_Z x / inject_Z y)%Q
    then Some (round_aspect (inject_Z y * aspect)%Q
                 (fun n => Qabs (aspect - inject_Z n / inject_Z y)%Q), y)
    else Some (x, round_aspect (inject_Z x / aspect)%Q
                 (fun n => if n =? 0 then 0%Q
                           else Qabs (aspect - inject_Z x / inject_Z n)%Q)).

(** [img.thumbnail(size, resample)]: resize in place to the preserved size. *)
Definition thumbnail (size : Z * Z) (img : image) : image :=
  match preserve_aspect_ratio size img with
  | None => img
  | Some (x, y) =>
      {| width := x; height := y; img_mode := img_mode img;
         orientation := orientation img |}
  end.

End Imaging.

(** ** The world the fetcher runs in *)

Module World.
Import Imaging.

(** A file under [OUTPUT_DIR]: its size on disk and what [Image.open]
    makes of it ([None] when it cannot be decoded). *)
Record file := mk_file {
  st_size : Z;
  decoded : option (Z * Z)
}.

(** The attributes of the one [WikimediaImageFetcher] instance.
    [overwrite_policy] is absent until [_should_overwrite_files] assigns it. *)
Record fetcher := mk_fetcher {
  download_count : Z;
  success_count : Z;
  error_count : Z;
  overwrite_policy : option string
}.

Inductive event :=
  | EvRequest (what : string)                 (* one HTTP request *)
  | EvPrompt (scientific_name : string)       (* one call of [input] *)
  | EvImageSaved (filename : string)          (* one [img.save] *)
  | EvFetch (scientific_name : string)        (* one call of [fetch_bird_image] *)
  | EvProgressSaved (progress : gmap string string)   (* one [save_progress] *)
  | EvManifest                                (* [create_manifest] *)
  | EvReport (scientific_name status : string).  (* one dry-run status line *)

Record world := mk_world {
  files : gmap string file;                       (* OUTPUT_DIR, by file name *)
  progress_file : option (gmap string string);    (* PROGRESS_PATH *)
  progress : gmap string string;                  (* the [progress] dict of [main] *)
  stdin : list string;                            (* lines still to be read *)
  self : fetcher;
  log : list event                                (* most recent first *)
}.

Definition set_files (f : gmap string file -> gmap string file) (w : world) : world :=
  mk_world (f (files w)) (progress_file w) (progress w) (stdin w) (self w) (log w).
Definition set_progress_file (v : option (gmap string string)) (w : world) : world :=
  mk_world (files w) v (progress w) (stdin w) (self w) (log w).
Definition set_progress (f : gmap string string -> gmap string string) (w : world) : world :=
  mk_world (files w) (progress_file w) (f (progress w)) (stdin w) (self w) (log w).
Definition set_stdin (v : list string) (w : world) : world :=
  mk_world (files w) (progress_file w) (progress w) v (self w) (log w).
Definition set_self (f : fetcher -> fetcher) (w : world) : world :=
  mk_world (files w) (progress_file w) (progress w) (stdin w) (f (self w)) (log w).
Definition emit (e : event) (w : world) : world :=
  mk_world (files w) (progress_file w) (progress w) (stdin w) (self w) (e :: log w).

(** Python exceptions, as far as the handlers of the source tell them
    apart: [except Exception] catches every [Exception]; a
    [KeyboardInterrupt] passes through it. *)
Inductive exn := KeyboardInterrupt | Exception.

Inductive outcome (A : Type) :=
  | Ok (a : A)
  | Raise (e : exn).
Arguments Ok {A} a.
Arguments Raise {A} e.

(** A computation: runs in a world, changes it, and returns or raises. *)
Definition M (A : Type) : Type := world -> outcome A * world.

Definition ret {A} (a : A) : M A := fun w => (Ok a, w).
Definition raise {A} (e : exn) : M A := fun w => (Raise e, w).
Definition bind {A B} (m : M A) (k : A -> M B) : M B := fun w =>
  match m w with
  | (Ok a, w') => k a w'
  | (Raise e, w') => (Raise e, w')
  end.
Definition get {A} (f : world -> A) : M A := fun w => (Ok (f w), w).
Definition modify (f : world -> world) : M unit := fun w => (Ok tt, f w).

(** [try: body  except Exception: handler] *)
Definition try_except {A} (body handler : M A) : M A := fun w =>
  match body w with
  | (Raise Exception, w') => handler w'
  | r => r
  end.

(** [try: body  except KeyboardInterrupt: pass  except Exception: pass
    finally: final] *)
Definition try_finally (body final : M unit) : M unit := fun w =>
  match body w with
  | (_, w') => final w'
  end.

(** [returns m P]: whenever [m] returns a value, the value satisfies [P]. *)
Definition returns {A} (m : M A) (P : A -> Prop) : Prop :=
  forall w a w', m w = (Ok a, w') -> P a.

(** [stable_under R m]: running [m] takes a world to one related to it by
    [R], whether [m] returns or raises. *)
Definition stable_under (R : world -> world -> Prop) {A} (m : M A) : Prop :=
  forall w, R w (snd (m w)).

(** Two relations between a world and a later one: the files are the
    same; the ledger, in memory and on disk, is the same. *)
Definition same_files (w w' : world) : Prop := files w' = files w.
Definition same_ledger (w w' : world) : Prop :=
  progress w' = progress w /\ progress_file w' = progress_file w.

(** The log of the later world extends the log of the earlier one. *)
Definition log_extends (w w' : world) : Prop :=
  exists l, log w' = l ++ log w.

(** What the fetcher cannot compute by itself: the replies of Wikimedia
    Commons, the images behind URLs and the size of an encoded file.  The
    [nat] is the length of the log at the time of the request, so that a
    reply may depend on everything that happened before. *)
Record item := mk_item {
  item_title : string;
  item_size : option Z;
  item_timestamp : option string;
  item_snippet : option string
}.

Record imageinfo := mk_imageinfo {
  info_url : option string;
  info_width : option Z;
  info_height : option Z;
  info_size : option Z
}.

Record environment := mk_environment {
  (* the [query.search] list of the reply, [None] when the keys are missing *)
  commons_search : nat -> string -> outcome (option (list item));
  (* [imageinfo[0]] of the first page that has one *)
  commons_imageinfo : nat -> string -> outcome (option imageinfo);
  (* the image decoded from the downloaded bytes *)
  http_image : nat -> string -> outcome image;
  (* bytes written by [img.save(path, format, quality=...)] *)
  encoded_size : string -> Z -> image -> Z
}.

End World.


(** ** WikimediaImageFetcher *)

Module Fetcher.
Import Imaging World.
Export Scorer.

Notation "'let*' x ':=' m 'in' k" := (bind m (fun x => k))
  (at level 10, x name, m at level 100, k at level 200, only parsing).

Definition MAX_IMAGE_SIZE : Z * Z := (512, 512).
Definition JPEG_QUALITY : Z := 85.
Definition WEBP_QUALITY : Z := 80.
Definition MIN_IMAGE_SIZE : Z * Z := (200, 200).

(** *** Primitive effects *)

(** One HTTP request: logged, then answered by the environment. *)
Definition request {A} (what : string) (reply : nat -> outcome A) : M A := fun w =>
  (reply (length (log w)), emit (EvRequest what) w).

(** [path.exists()], [Image.open(path).size], [path.stat().st_size] *)
Definition path_exists (path : string) : M bool :=
  get (fun w => bool_decide (is_Some (files w !! path))).

Definition image_open_size (path : string) : M (Z * Z) := fun w =>
  match files w !! path with
  | Some f =>
      match decoded f with
      | Some wh => (Ok wh, w)
      | None => (Raise Exception, w)
      end
  | None => (Raise Exception, w)
  end.

Definition stat_st_size (path : string) : M Z := fun w =>
  match files w !! path with
  | Some f => (Ok (st_size f), w)
  | None => (Raise Exception, w)
  end.

(** [img.save(path, format, quality=quality, optimize=True)] *)
Definition image_save (env : environment) (img : image) (path format : string)
  (quality : Z) : M unit :=
  modify (fun w =>
    emit (EvImageSaved path)
      (set_files (insert path
                    (mk_file (encoded_size env format quality img)
                             (Some (width img, height img)))) w)).

(** [input(prompt)]: the next line of standard input; [EOFError], an
    [Exception], when there is none. *)
Definition input (scientific_name : string) : M string := fun w =>
  match stdin w with
  | line :: rest => (Ok line, emit (EvPrompt scientific_name) (set_stdin rest w))
  | [] => (Raise Exception, emit (EvPrompt scientific_name) w)
  end.

(** *** search_bird_images *)

Definition search_terms (scientific_name common_name : string) : list string :=
  [ scientific_name ++ " bird photo";
    scientific_name ++ " male";
    scientific_name ++ " female";
    scientific_name ++ " adult";
    scientific_name ++ " portrait";
    scientific_name;
    scientific_name ++ " bird";
    if String.eqb common_name "" then "" else common_name ++ " bird";
    if String.eqb common_name "" then "" else common_name ]%string.

(** The loop of [_search_commons_images] over the items of a reply. *)
Fixpoint gate_items (search_term : string) (items : list item) : list result :=
  match items with
  | [] => []
  | it :: rest =>
      let title := Py.lower (item_title it) in
      if Py.any (fun word => Py.str_in word title)
                ["bird"; "aves"; Py.lower search_term]
      then mk_result (item_title it) (default 0 (item_size it))
             (default "" (item_timestamp it)) (default "" (item_snippet it))
             None None
           :: gate_items search_term rest
      else gate_items search_term rest
  end.

Definition _search_commons_images (env : environment) (search_term : string)
  : M (list result) :=
  try_except
    (let* data := request ("search:" ++ search_term)
                    (fun t => commons_search env t search_term) in
     match data with
     | None => ret []
     | Some items => ret (gate_items search_term items)
     end)
    (ret []).

(** The [for term in search_terms] loop, with [all_results] as accumulator. *)
Fixpoint search_loop (env : environment) (scientific_name : string)
  (terms : list string) (all_results : list result) : M (list result) :=
  match terms with
  | [] => ret all_results
  | term :: rest =>
      if String.eqb term "" then search_loop env scientific_name rest all_results
      else
        let* step :=
          try_except
            (let* results := _search_commons_images env term in
             let filtered_results := _filter_bird_images results scientific_name in
             let all_results := all_results ++ filtered_results in
             ret (all_results, (15 <=? Z.of_nat (length all_results))))
            (ret (all_results, false)) in
        let '(all_results, stop) := step in
        if stop then ret all_results
        else search_loop env scientific_name rest all_results
  end.

Definition search_bird_images (env : environment)
  (scientific_name common_name : string) : M (list result) :=
  let* all_results :=
    search_loop env scientific_name (search_terms scientific_name common_name) [] in
  ret (_deduplicate_and_score_results all_results scientific_name).

(** *** get_image_info *)

Definition get_image_info (env : environment) (filename : string)
  : M (option imageinfo) :=
  try_except
    (request ("imageinfo:" ++ filename) (fun t => commons_imageinfo env t filename))
    (ret None).

(** *** _sanitize_filename *)

Definition isalnum (c : ascii) : bool :=
  let n := N_of_ascii c in
  (((48 <=? n) && (n <=? 57)) || ((65 <=? n) && (n <=? 90))
   || ((97 <=? n) && (n <=? 122)))%N.

(** [s.replace(old, new)] for a one-character [old]. *)
Fixpoint replace_char (old : ascii) (new : string) (s : string) : string :=
  match s with
  | EmptyString => EmptyString
  | String c s' =>
      if Ascii.eqb c old then (new ++ replace_char old new s')%string
      else String c (replace_char old new s')
  end.

(** [''.join(c for c in s if keep(c))] *)
Fixpoint keep_chars (keep : ascii -> bool) (s : string) : string :=
  match s with
  | EmptyString => EmptyString
  | String c s' =>
      if keep c then String c (keep_chars keep s') else keep_chars keep s'
  end.

Definition alnum_or_dash (c : ascii) : bool :=
  isalnum c || Py.str_in (String c EmptyString) "_-".

Definition _sanitize_filename (name : string) : string :=
  let safe_name :=
    replace_char "," "" (replace_char "." "" (replace_char " " "_" name)) in
  let safe_name := keep_chars alnum_or_dash safe_name in
  Py.lower safe_name.

(** *** The overwrite arbiter *)

Definition _is_new_image_better (webp_path jpg_path : string) (new_img : image)
  : M bool :=
  try_except
    (let* webp_exists := path_exists webp_path in
     let existing_path := if webp_exists : bool then webp_path else jpg_path in
     let* existing_exists := path_exists existing_path in
     if negb existing_exists then ret true
     else
       let* existing_size := image_open_size existing_path in
       let new_pixels := width new_img * height new_img in
       let existing_pixels := fst existing_size * snd existing_size in
       if Py.Qltb (inject_Z existing_pixels * 1.25)%Q (inject_Z new_pixels)
       then ret true
       else
         let new_file_size := len_tobytes new_img in
         let* existing_file_size := stat_st_size existing_path in
         if Py.Qltb (inject_Z existing_file_size * 1.1)%Q (inject_Z new_file_size)
         then ret true
         else ret false)
    (ret false).

Definition set_overwrite_policy (p : string) (f : fetcher) : fetcher :=
  mk_fetcher (download_count f) (success_count f) (error_count f) (Some p).

Definition _should_overwrite_files (webp_path jpg_path : string) (new_img : image)
  (overwrite_policy scientific_name : string) : M bool :=
  let* webp_exists := path_exists webp_path in
  let* jpg_exists := path_exists jpg_path in
  if negb webp_exists && negb jpg_exists then ret true
  else if String.eqb overwrite_policy "never" then ret false
  else if String.eqb overwrite_policy "always" then ret true
  else if String.eqb overwrite_policy "ask" then
    let* line := input scientific_name in
    let response := Py.lower line in
    if String.eqb response "a" then
      let* _ := modify (set_self (set_overwrite_policy "always")) in ret true
    else if String.eqb response "n" then
      let* _ := modify (set_self (set_overwrite_policy "never")) in ret false
    else ret (String.prefix "y" response)
  else if String.eqb overwrite_policy "better" then
    _is_new_image_better webp_path jpg_path new_img
  else ret false.

(** *** download_and_process_image *)

Definition bump_success (f : fetcher) : fetcher :=
  mk_fetcher (download_count f) (success_count f + 1) (error_count f)
             (overwrite_policy f).
Definition bump_error (f : fetcher) : fetcher :=
  mk_fetcher (download_count f) (success_count f) (error_count f + 1)
             (overwrite_policy f).
Definition bump_download (f : fetcher) : fetcher :=
  mk_fetcher (download_count f + 1) (success_count f) (error_count f)
             (overwrite_policy f).

(** The image as it is handed to the arbiter and to [img.save]: converted
    to RGB if necessary, auto-oriented, then resized for mobile. *)
Definition convert_if_necessary (img : image) : image :=
  match img_mode img with
  | RGB | L => img
  | _ => convert_RGB img
  end.

Definition prepare (img : image) : image :=
  let img := convert_if_necessary img in
  let img := exif_transpose img in
  thumbnail MAX_IMAGE_SIZE img.

Definition too_small (img : image) : bool :=
  (width img <? fst MIN_IMAGE_SIZE) || (height img <? snd MIN_IMAGE_SIZE).

Definition download_and_process_image (env : environment)
  (scientific_name image_url overwrite_policy : string) : M (option string) :=
  try_except
    (let* img := request ("download:" ++ image_url)
                   (fun t => http_image env t image_url) in
     if too_small img then ret None
     else
       let img := prepare img in
       let safe_name := _sanitize_filename scientific_name in
       let webp_filename := (safe_name ++ ".webp")%string in
       let jpg_filename := (safe_name ++ ".jpg")%string in
       let* should_save :=
         _should_overwrite_files webp_filename jpg_filename img
           overwrite_policy scientific_name in
       if negb should_save then ret (Some webp_filename)
       else
         let* _ := image_save env img webp_filename "WEBP" WEBP_QUALITY in
         let* _ := image_save env img jpg_filename "JPEG" JPEG_QUALITY in
         let* _ := modify (set_self bump_success) in
         ret (Some webp_filename))
    (let* _ := modify (set_self bump_error) in ret None).

(** *** fetch_bird_image *)

(** Python truth value of an [Optional[str]]. *)
Definition truthy (s : option string) : bool :=
  match s with
  | Some s => negb (String.eqb s "")
  | None => false
  end.

(** The body of the loop over the top three results: [Some filename] when
    it returns from the function, [None] when it goes on to the next one. *)
Definition try_candidate (env : environment)
  (scientific_name overwrite_policy : string) (result : result)
  : M (option string) :=
  try_except
    (let* image_info := get_image_info env (title result) in
     match image_info with
     | None => ret None
     | Some image_info =>
         match info_url image_info with
         | None => ret None
         | Some image_url =>
             if String.eqb image_url "" then ret None
             else
               let width := default 0 (info_width image_info) in
               let height := default 0 (info_height image_info) in
               if (width <? fst MIN_IMAGE_SIZE) || (height <? snd MIN_IMAGE_SIZE)
               then ret None
               else
                 let file_size := default 0 (info_size image_info) in
                 if 50 * 1024 * 1024 <? file_size then ret None
                 else
                   let* filename :=
                     download_and_process_image env scientific_name image_url
                       overwrite_policy in
                   if truthy filename then ret filename else ret None
         end
     end)
    (ret None).

Fixpoint try_candidates (env : environment)
  (scientific_name overwrite_policy : string) (results : list result)
  : M (option string) :=
  match results with
  | [] => ret None
  | result :: rest =>
      let* returned := try_candidate env scientific_name overwrite_policy result in
      match returned with
      | Some filename => ret (Some filename)
      | None => try_candidates env scientific_name overwrite_policy rest
      end
  end.

Definition fetch_bird_image (env : environment)
  (scientific_name common_name overwrite_policy : string) : M (option string) :=
  let* _ := modify (fun w => emit (EvFetch scientific_name) (set_self bump_download w)) in
  let* search_results := search_bird_images env scientific_name common_name in
  match search_results with
  | [] => ret None
  | _ => try_candidates env scientific_name overwrite_policy
           (firstn 3 search_results)
  end.

End Fetcher.

(** ** main *)

Module Main.
Import Imaging World Fetcher.

Record bird := mk_bird {
  scientific_name : string;
  common_name : string;
  species_code : string;
  family : string
}.

(** The parsed command line. *)
Record args := mk_args {
  dry_run : bool;
  limit : option Z;
  no_resume : bool;
  species : option string;
  overwrite : string;
  force_redownload : bool
}.

Definition load_progress : M (gmap string string) :=
  get (fun w => default ∅ (progress_file w)).

(** [save_progress]: the write is taken to succeed (the source logs a
    failed write and goes on). *)
Definition save_progress : M unit :=
  modify (fun w =>
    emit (EvProgressSaved (progress w)) (set_progress_file (Some (progress w)) w)).

(** [create_manifest]: only the fact that the manifest is written is
    kept; its content is a function of [progress] and the catalogue. *)
Definition create_manifest : M unit := modify (emit EvManifest).

(** [birds[:limit]] *)
Definition slice_to {A} (limit : Z) (l : list A) : list A :=
  if 0 <=? limit then firstn (Z.to_nat limit) l
  else firstn (Z.to_nat (Z.of_nat (length l) + limit)) l.

(** The name computed inline by the dry-run report:
    [''.join(c.lower() for c in s if c.isalnum() or c in '_-')] applied to
    [scientific_name.replace(' ', '_')]. *)
Fixpoint join_lower_kept (s : string) : string :=
  match s with
  | EmptyString => EmptyString
  | String c s' =>
      if alnum_or_dash c then String (Py.lower_ascii c) (join_lower_kept s')
      else join_lower_kept s'
  end.

Definition dry_run_safe_name (scientific_name : string) : string :=
  join_lower_kept (replace_char " " "_" scientific_name).

Definition dry_run_status (a : args) (w : world) (scientific_name : string) : string :=
  let in_progress := truthy (progress w !! scientific_name) in
  let safe_name := dry_run_safe_name scientific_name in
  let file_exists :=
    bool_decide (is_Some (files w !! (safe_name ++ ".webp")%string))
    || bool_decide (is_Some (files w !! (safe_name ++ ".jpg")%string)) in
  if file_exists && in_progress
  then ("EXISTS+TRACKED (policy: " ++ overwrite a ++ ")")%string
  else if file_exists
  then ("EXISTS (not tracked, policy: " ++ overwrite a ++ ")")%string
  else if in_progress then "TRACKED (files missing)"
  else "MISSING".

Fixpoint dry_run_report (a : args) (birds : list bird) : M unit :=
  match birds with
  | [] => ret tt
  | b :: rest =>
      let* _ := modify (fun w =>
        emit (EvReport (scientific_name b) (dry_run_status a w (scientific_name b))) w) in
      dry_run_report a rest
  end.

(** The test that opens the loop body of [main]: is this species skipped? *)
Definition skip_species (a : args) (w : world) (scientific_name : string) : bool :=
  if negb (no_resume a)
     && bool_decide (is_Some (progress w !! scientific_name))
     && negb (force_redownload a)
  then
    let existing_filename := default "" (progress w !! scientific_name) in
    if negb (String.eqb existing_filename "") then
      let safe_name := _sanitize_filename scientific_name in
      bool_decide (is_Some (files w !! (safe_name ++ ".webp")%string))
      || bool_decide (is_Some (files w !! (safe_name ++ ".jpg")%string))
    else true
  else false.

(** One iteration of [for i, bird in enumerate(birds)]. *)
Definition process_bird (env : environment) (a : args) (i : Z) (b : bird) : M unit :=
  let* skip := get (fun w => skip_species a w (scientific_name b)) in
  if skip : bool then ret tt
  else
    let* filename :=
      fetch_bird_image env (scientific_name b) (common_name b) (overwrite a) in
    let* _ := modify (set_progress
                        (insert (scientific_name b) (default "" filename))) in
    if (i + 1) mod 10 =? 0 then save_progress else ret tt.

Fixpoint main_loop (env : environment) (a : args) (i : Z) (birds : list bird)
  : M unit :=
  match birds with
  | [] => ret tt
  | b :: rest =>
      let* _ := process_bird env a i b in
      main_loop env a (i + 1) rest
  end.

Definition fresh_fetcher : fetcher := mk_fetcher 0 0 0 None.

(** [main()], given the parsed arguments and the rows that
    [load_birds_from_csv] returned; the result is the exit status. *)
Definition main (env : environment) (a : args) (birds : list bird) : M Z :=
  match birds with
  | [] => ret 1
  | _ =>
      let* loaded := (if no_resume a then ret ∅ else load_progress) in
      let* _ := modify (set_progress (fun _ => loaded)) in
      let birds :=
        match species a with
        | Some sp =>
            if String.eqb sp "" then birds
            else List.filter
                   (fun b => Py.str_in (Py.lower sp) (Py.lower (scientific_name b)))
                   birds
        | None => birds
        end in
      match birds with
      | [] => ret 1
      | _ =>
          let birds :=
            match limit a with
            | Some n => if n =? 0 then birds else slice_to n birds
            | None => birds
            end in
          if dry_run a then
            let* _ := dry_run_report a (firstn 10 birds) in ret 0
          else
            let* _ := modify (set_self (fun _ => fresh_fetcher)) in
            let* _ := try_finally
                        (main_loop env a 0 birds)
                        (let* _ := save_progress in create_manifest) in
            ret 0
      end
  end.

End Main.

(** ** Predicates in which the properties are stated *)

Module Claims.
Import Imaging World Fetcher Main.

(** The scoring rule in the words of the specification: the number of
    allow-list terms found, plus 10 when the scientific name is in the
    title, plus 5 when the title has a strong quality indicator, plus up to
    5 for the declared byte size. *)
Definition indicator (b : bool) (v : Q) : Q := if b then v else 0%Q.

Definition spec_total_score (scientific_name : string) (r : result) : Q :=
  (inject_Z (default 0%Z (quality_score r))
   + indicator (Py.str_in (Py.lower scientific_name) (Py.lower (title r))) 10
   + indicator (Py.any (fun pattern => Py.str_in pattern (Py.lower (title r)))
                       ["male"; "female"; "adult"; "portrait"]) 5
   + Py.min (inject_Z (size r) / 1000000) 5)%Q.

(** A result is clean when its lowered title and snippet contain no
    disallowed term: the filter lets it through. *)
Definition clean (r : result) : Prop :=
  has_bad_keyword (Py.lower (title r)) (Py.lower (snippet r)) = false.

(** A hit mentions a disallowed term when its title or its snippet
    contains one, as written or in another letter case. *)
Definition mentions_disallowed (r : result) : Prop :=
  exists bad, In bad bad_keywords /\
    (Py.str_in bad (title r) = true \/ Py.str_in bad (snippet r) = true
     \/ Py.str_in bad (Py.lower (title r)) = true
     \/ Py.str_in bad (Py.lower (snippet r)) = true).

(** [key_ge a b]: [a] may stand before [b] in the ranked list. *)
Definition key_ge (a b : result) : Prop :=
  key_lt (sort_key a) (sort_key b) = false.

(** [first_in hits h]: [h] is the first hit of [hits] with its title, the
    one that deduplication keeps. *)
Definition first_in (hits : list result) (h : result) : Prop :=
  exists l1 l2, hits = l1 ++ h :: l2 /\
    forall x, In x l1 -> title x <> title h.

(** [adds_name sci h1 h2]: the two hits are identical except that the
    title of [h2] has text added around the title of [h1] and contains the
    scientific name verbatim, which the title of [h1] does not. *)
Definition adds_name (scientific_name : string) (h1 h2 : result) : Prop :=
  (exists a b, title h2 = (a ++ title h1 ++ b)%string)
  /\ Py.str_in scientific_name (title h2) = true
  /\ Py.str_in scientific_name (title h1) = false
  /\ size h2 = size h1 /\ timestamp h2 = timestamp h1
  /\ snippet h2 = snippet h1
  /\ quality_score h2 = quality_score h1 /\ final_score h2 = final_score h1.

(** Scoring monotonicity as the specification words it: wherever the hit
    without the name is ranked, the hit with the name is ranked too, with a
    total score that is not lower and at an earlier position. *)
Definition scoring_monotone (scientific_name : string) (hits : list result)
  (h1 h2 : result) : Prop :=
  let ranked := filter_and_score hits scientific_name in
  forall (i : nat) (r1 : result),
    ranked !! i = Some r1 -> title r1 = title h1 ->
    exists (j : nat) (r2 : result),
      ranked !! j = Some r2 /\ title r2 = title h2
      /\ (default 0 (final_score r1) <= default 0 (final_score r2))%Q
      /\ (j < i)%nat.

(** Normalization bounds: an image that passes the minimum-size check is
    stored within the maximum box and not below the minimum on either
    axis. *)
Definition normalization_bounds (img : image) : Prop :=
  too_small img = false ->
  let out := prepare img in
  width out <= fst MAX_IMAGE_SIZE /\ height out <= snd MAX_IMAGE_SIZE
  /\ fst MIN_IMAGE_SIZE <= width out /\ snd MIN_IMAGE_SIZE <= height out.

(** Checkpoint cadence: reading the events of a run in order, no species
    is fetched when [K] species have been fetched since the last
    [save_progress] (or since the start). *)
Fixpoint checkpointed_every (K since : nat) (events : list event) : bool :=
  match events with
  | [] => true
  | EvFetch _ :: rest =>
      if (K <=? since)%nat then false
      else checkpointed_every K (S since) rest
  | EvProgressSaved _ :: rest => checkpointed_every K 0 rest
  | _ :: rest => checkpointed_every K since rest
  end.

(** The number of prompts shown during a run. *)
Fixpoint prompts (events : list event) : nat :=
  match events with
  | [] => 0
  | EvPrompt _ :: rest => S (prompts rest)
  | _ :: rest => prompts rest
  end.

End Claims.

(** ** Concrete runs *)

Module Scenario.
Import Imaging World Fetcher Main.

(** Two hits for the kea, [Nestor notabilis]: the name contains the
    disallowed term [nest]. *)
Definition kea : result :=
  mk_result "File:Kea bird.jpg" 2500000 "2020-01-01T00:00:00Z" "" None None.
Definition kea_named : result :=
  mk_result "File:Kea bird.jpg Nestor notabilis" 2500000
    "2020-01-01T00:00:00Z" "" None None.

(** Two hits for the magpie, [Pica pica]: the first title has the name in
    capitals only. *)
Definition magpie : result :=
  mk_result "File:PICA PICA.jpg" 2500000 "2020-01-01T00:00:00Z" "" None None.
Definition magpie_named : result :=
  mk_result "File:PICA PICA.jpg Pica pica" 2500000
    "2020-01-01T00:00:00Z" "" None None.

(** Two hits for the robin, [Erithacus rubecula]. *)
Definition robin : result :=
  mk_result "File:Robin bird.jpg" 2500000 "2020-01-01T00:00:00Z" "" None None.
Definition robin_named : result :=
  mk_result "File:Robin bird.jpg Erithacus rubecula" 2500000
    "2020-01-01T00:00:00Z" "" None None.

Definition robin_items : list item :=
  [ mk_item "File:Robin bird egg.jpg" (Some 4000000)
      (Some "2019-05-01T00:00:00Z") (Some "adult male with egg");
    mk_item "File:Erithacus rubecula bird male.jpg" (Some 3000000)
      (Some "2020-04-11T00:00:00Z") (Some "adult male");
    mk_item "File:Robin bird.jpg" (Some 2500000)
      (Some "2021-03-02T00:00:00Z") (Some "") ].

(** Commons answers every search with the same three hits, describes
    every file as 1024 by 768 and 300 kB, and serves a 1024 by 768 RGB
    image; every encoded file takes 20000 bytes. *)
Definition commons : environment :=
  mk_environment
    (fun _ _ => Ok (Some robin_items))
    (fun _ title =>
       Ok (Some (mk_imageinfo (Some ("https://upload.wikimedia.org/" ++ title)%string)
                   (Some 1024) (Some 768) (Some 300000))))
    (fun _ _ => Ok (mk_image 1024 768 RGB 1))
    (fun _ _ _ => 20000).

(** Commons serves a panorama of 1024 by 200 pixels instead. *)
Definition commons_panorama : environment :=
  mk_environment (commons_search commons) (commons_imageinfo commons)
    (fun _ _ => Ok (mk_image 1024 200 RGB 1)) (encoded_size commons).

(** The network is down: every request raises. *)
Definition offline : environment :=
  mk_environment (fun _ _ => Raise Exception) (fun _ _ => Raise Exception)
    (fun _ _ => Raise Exception) (fun _ _ _ => 0).

(** The first of these hits as [_search_commons_images] hands it on: it
    mentions [egg], and [adult], [male] and [bird] as well. *)
Definition egg_hit : result :=
  mk_result "File:Robin bird egg.jpg" 4000000 "2019-05-01T00:00:00Z"
    "adult male with egg" None None.

Definition robin_bird : bird :=
  mk_bird "Erithacus rubecula" "European Robin" "eurrob1" "Muscicapidae".
Definition wren_bird : bird :=
  mk_bird "Troglodytes troglodytes" "Eurasian Wren" "winwre4" "Troglodytidae".

Definition run_with (policy : string) : args :=
  mk_args false None false None policy false.

(** Nothing on disk, nothing tracked. *)
Definition first_run : world := mk_world ∅ None ∅ [] fresh_fetcher [].

(** Only the JPEG of the robin is on disk: 200 by 200 pixels in 50000
    bytes. *)
Definition jpg_on_disk : world :=
  mk_world {[ "erithacus_rubecula.jpg" := mk_file 50000 (Some (200, 200)) ]}
    None ∅ [] fresh_fetcher [].

(** A grayscale candidate of 250 by 200 pixels: 1.25 times the area of the
    stored JPEG, and 50000 bytes in memory. *)
Definition wider_gray : image := mk_image 250 200 L 1.

(** The WebP of the robin as this program wrote it: 200 by 200 pixels in
    20000 bytes. *)
Definition webp_on_disk : world :=
  mk_world {[ "erithacus_rubecula.webp" := mk_file 20000 (Some (200, 200)) ]}
    None ∅ [] fresh_fetcher [].

(** A colour candidate of 210 by 200 pixels: 1.05 times the area of the
    stored WebP.  Encoded it takes 20000 bytes as well; in memory it takes
    126000. *)
Definition slightly_larger : image := mk_image 210 200 RGB 1.

(** Commons serves that candidate. *)
Definition commons_wider_gray : environment :=
  mk_environment (commons_search commons) (commons_imageinfo commons)
    (fun _ _ => Ok wider_gray) (encoded_size commons).

(** The robin is tracked as downloaded and its files are there; the wren
    is tracked as failed. *)
Definition resumed : world :=
  mk_world {[ "erithacus_rubecula.webp" := mk_file 9000 (Some (300, 300)) ]}
    (Some {[ "Erithacus rubecula" := "erithacus_rubecula.webp";
             "Troglodytes troglodytes" := "" ]})
    {[ "Erithacus rubecula" := "erithacus_rubecula.webp";
       "Troglodytes troglodytes" := "" ]}
    [] fresh_fetcher [].

(** The robin is tracked as downloaded but its files are gone. *)
Definition files_lost : world :=
  mk_world ∅
    (Some {[ "Erithacus rubecula" := "erithacus_rubecula.webp" ]})
    {[ "Erithacus rubecula" := "erithacus_rubecula.webp" ]}
    [] fresh_fetcher [].

(** Both species have a WebP on disk, neither is tracked, and the user
    answers the first prompt with [a] and the second with an empty line. *)
Definition both_on_disk : world :=
  mk_world {[ "erithacus_rubecula.webp" := mk_file 9000 (Some (300, 300));
              "troglodytes_troglodytes.webp" := mk_file 9000 (Some (300, 300)) ]}
    None ∅ ["a"; ""] fresh_fetcher [].

(** Twelve species; the tenth was tracked as failed by an earlier run. *)
Definition twelve_birds : list bird :=
  map (fun name => mk_bird name "" "" "")
    [ "Aves a"; "Aves b"; "Aves c"; "Aves d"; "Aves e"; "Aves f";
      "Aves g"; "Aves h"; "Aves i"; "Aves j"; "Aves k"; "Aves l" ].

Definition tenth_failed_before : world :=
  mk_world ∅ (Some {[ "Aves j" := "" ]}) ∅ [] fresh_fetcher [].

End Scenario.

(** ** The catalogue *)

Module Catalog.
Import Main.

(** [c.isspace()] for one ASCII character: tab to carriage return, the
    four separators 28 to 31, and the space. *)
Definition isspace (c : ascii) : bool :=
  let n := N_of_ascii c in
  (((9 <=? n) && (n <=? 13)) || ((28 <=? n) && (n <=? 32)))%N.

Fixpoint lstrip (s : string) : string :=
  match s with
  | EmptyString => EmptyString
  | String c s' => if isspace c then lstrip s' else s
  end.

Fixpoint rstrip (s : string) : string :=
  match s with
  | EmptyString => EmptyString
  | String c s' =>
      match rstrip s' with
      | EmptyString => if isspace c then EmptyString else String c EmptyString
      | r => String c r
      end
  end.

(** [s.strip()] *)
Definition strip (s : string) : string := rstrip (lstrip s).

(** One row as [csv.DictReader] yields it: a dictionary from the column
    names to the fields, in which a field that a short row lacks is
    [None]. *)
Definition row : Type := gmap string (option string).

(** [row.get(key)] and [row.get(key, '')] *)
Definition row_get (r : row) (key : string) : option string :=
  match r !! key with
  | Some field => field
  | None => None
  end.

Definition row_get_or_empty (r : row) (key : string) : option string :=
  match r !! key with
  | Some field => field
  | None => Some EmptyString
  end.

(** What the loop body of [load_birds_from_csv] does with one row: it
    goes on to the next row, appends a bird, or raises ([None.strip()]). *)
Inductive row_result :=
  | Skipped
  | Loaded (b : bird)
  | Failed.

Definition load_row (r : row) : row_result :=
  match row_get r "scientific name" with
  | None => Skipped
  | Some name =>
      if String.eqb name "" || String.prefix "Clements" name then Skipped
      else
        match row_get r "category" with
        | Some category =>
            if String.eqb category "species" then
              match row_get_or_empty r "English name",
                    row_get_or_empty r "species_code",
                    row_get_or_empty r "family" with
              | Some english, Some code, Some fam =>
                  Loaded (mk_bird (strip name) (strip english) (strip code)
                            (strip fam))
              | _, _, _ => Failed
              end
            else Skipped
        | None => Skipped
        end
  end.

(** The loop over the rows; [None] when a row raised. *)
Fixpoint load_rows (rows : list row) : option (list bird) :=
  match rows with
  | [] => Some []
  | r :: rest =>
      match load_row r with
      | Skipped => load_rows rest
      | Loaded b =>
          match load_rows rest with
          | Some birds => Some (b :: birds)
          | None => None
          end
      | Failed => None
      end
  end.

(** [load_birds_from_csv()], given the rows of the file, or [None] when
    the file cannot be opened or read: any exception gives the empty
    list. *)
Definition load_birds_from_csv (file : option (list row)) : list bird :=
  match file with
  | None => []
  | Some rows =>
      match load_rows rows with
      | Some birds => birds
      | None => []
      end
  end.

(** A row that the loop appends a bird for. *)
Definition qualifies (r : row) : bool :=
  match load_row r with
  | Skipped => false
  | _ => true
  end.

End Catalog.

(** ** Statistics and manifest *)

Module Ledger.
Import Main.

Record stats := mk_stats {
  total_entries : Z;
  successful : Z;
  failed : Z;
  completion_rate : Q
}.

(** Python truth value of a string. *)
Definition nonempty (f : string) : bool := negb (String.eqb f "").

(** [progress.values()] *)
Definition values (progress : gmap string string) : list string :=
  map snd (map_to_list progress).

Definition get_progress_stats (progress : gmap string string) : stats :=
  let total_entries := Z.of_nat (size progress) in
  let successful := Py.count_if nonempty (values progress) in
  let failed := Py.count_if (fun f => negb (nonempty f)) (values progress) in
  mk_stats total_entries successful failed
    (inject_Z successful / inject_Z (Z.max total_entries 1) * 100)%Q.

(** One value of the [images] dictionary of the manifest. *)
Record image_entry := mk_image_entry {
  entry_common_name : string;
  entry_species_code : string;
  entry_family : string;
  image_file : option string;
  has_image : bool
}.

(** The manifest that [create_manifest] builds, without its time stamp. *)
Record manifest := mk_manifest {
  total_species : Z;
  downloaded_images : Z;
  images : gmap string image_entry
}.

(** The [for bird in birds] loop of [create_manifest]. *)
Fixpoint add_images (progress : gmap string string) (birds : list bird)
  (images : gmap string image_entry) : gmap string image_entry :=
  match birds with
  | [] => images
  | b :: rest =>
      let filename := progress !! scientific_name b in
      add_images progress rest
        (<[ scientific_name b :=
              mk_image_entry (common_name b) (species_code b) (family b)
                filename (Fetcher.truthy filename) ]> images)
  end.

Definition build_manifest (progress : gmap string string) (birds : list bird)
  : manifest :=
  mk_manifest (Z.of_nat (length birds))
    (Py.count_if nonempty (values progress))
    (add_images progress birds ∅).

End Ledger.

(** ** Predicates on computations *)

Module Observe.
Import Imaging World Fetcher Main.

(** [never_raises e m]: [m] does not end by raising [e]. *)
Definition never_raises (e : exn) {A} (m : M A) : Prop :=
  forall w, fst (m w) <> Raise e.

(** An environment in which no request is interrupted from the keyboard. *)
Definition never_interrupts (env : environment) : Prop :=
  (forall t term, commons_search env t term <> Raise KeyboardInterrupt)
  /\ (forall t name, commons_imageinfo env t name <> Raise KeyboardInterrupt)
  /\ (forall t url, http_image env t url <> Raise KeyboardInterrupt).

Fixpoint count_events (p : event -> bool) (events : list event) : nat :=
  match events with
  | [] => 0
  | e :: rest => (if p e then 1 else 0) + count_events p rest
  end.

(** [logs_at_most p n m]: [m] adds to the log, and at most [n] of the
    events it adds satisfy [p]. *)
Definition logs_at_most (p : event -> bool) (n : nat) {A} (m : M A) : Prop :=
  forall w, exists l, log (snd (m w)) = l ++ log w /\ (count_events p l <= n)%nat.

Definition is_request (e : event) : bool :=
  match e with EvRequest _ => true | _ => false end.
Definition is_prompt (e : event) : bool :=
  match e with EvPrompt _ => true | _ => false end.
Definition is_fetch (e : event) : bool :=
  match e with EvFetch _ => true | _ => false end.
Definition is_report (e : event) : bool :=
  match e with EvReport _ _ => true | _ => false end.

(** The characters of a sanitized name: lower-case letters, digits,
    underscore and hyphen. *)
Definition is_safe_char (c : ascii) : bool :=
  let n := N_of_ascii c in
  (((48 <=? n) && (n <=? 57)) || ((97 <=? n) && (n <=? 122))
   || (n =? 95) || (n =? 45))%N.

Fixpoint all_chars (p : ascii -> bool) (s : string) : bool :=
  match s with
  | EmptyString => true
  | String c s' => p c && all_chars p s'
  end.

(** The two file names of a species. *)
Definition webp_of (scientific_name : string) : string :=
  (_sanitize_filename scientific_name ++ ".webp")%string.
Definition jpg_of (scientific_name : string) : string :=
  (_sanitize_filename scientific_name ++ ".jpg")%string.

(** An artifact of the species is on disk. *)
Definition on_disk (w : world) (scientific_name : string) : Prop :=
  is_Some (files w !! webp_of scientific_name)
  \/ is_Some (files w !! jpg_of scientific_name).

(** The later world has the files of the earlier one, except possibly the
    two of the species. *)
Definition only_touches (scientific_name : string) (w w' : world) : Prop :=
  forall path, path <> webp_of scientific_name -> path <> jpg_of scientific_name ->
    files w' !! path = files w !! path.

(** Every path that is on disk stays on disk. *)
Definition keeps_paths (w w' : world) : Prop :=
  forall path, is_Some (files w !! path) -> is_Some (files w' !! path).

(** The relevance gate of [_search_commons_images]: the lowered title
    contains [bird], [aves] or the lowered text of one of the search
    terms that are not empty. *)
Definition relevant (terms : list string) (title : string) : Prop :=
  exists term, In term terms /\ term <> ""
    /\ Py.any (fun word => Py.str_in word (Py.lower title))
         ["bird"; "aves"; Py.lower term] = true.

(** A hit as [search_bird_images] gathers it, before it is ranked: it
    passed the relevance gate, carries a quality score between 0 and 17
    and no total yet. *)
Definition gathered (terms : list string) (r : result) : Prop :=
  relevant terms (title r) /\ final_score r = None
  /\ exists q, quality_score r = Some q /\ 0 <= q <= 17.

(** The scores of a ranked result: a quality score between 0 and 17, and
    a total that exceeds it by at most 20 and, when the declared size is
    not negative, is not below it. *)
Definition scored_within_bounds (r : result) : Prop :=
  exists q f, quality_score r = Some q /\ final_score r = Some f
    /\ 0 <= q <= 17
    /\ (f <= inject_Z q + 20)%Q
    /\ (0 <= size r -> (inject_Z q <= f)%Q).

(** What [img.save] leaves at a path, and the image directory after both
    files of a species are written from one image. *)
Definition stored (env : environment) (format : string) (quality : Z)
  (img : image) : file :=
  mk_file (encoded_size env format quality img) (Some (width img, height img)).

Definition written (env : environment) (scientific_name : string) (img : image)
  (fs : gmap string file) : gmap string file :=
  <[jpg_of scientific_name := stored env "JPEG" JPEG_QUALITY img]>
    (<[webp_of scientific_name := stored env "WEBP" WEBP_QUALITY img]> fs).

(** The two ways in which an attempt at a species, started in [w] and
    ending with the outcome and the world [r], may deal with the image
    directory: it leaves it alone, and then a file name is returned only
    when an artifact was on disk already; or it writes both files from
    one downloaded image that passed the size check, and returns the name
    of the WebP. *)
Definition writes_both_or_nothing (env : environment) (scientific_name : string)
  (w : world) (r : outcome (option string) * world) : Prop :=
  (files (snd r) = files w
   /\ forall filename, fst r = Ok (Some filename) ->
        filename = webp_of scientific_name /\ on_disk w scientific_name)
  \/ (exists img, too_small img = false
       /\ files (snd r) = written env scientific_name (prepare img) (files w)
       /\ fst r = Ok (Some (webp_of scientific_name))).

(** Every file name in the ledger is the WebP name of its species, and
    an artifact of the species is on disk. *)
Definition ledger_sound (w : world) : Prop :=
  forall name entry, progress w !! name = Some entry -> entry <> "" ->
    entry = webp_of name /\ on_disk w name.

(** How the counters of the fetcher moved between two worlds: by [d]
    downloads attempted and [s] successes, the error count not going
    down. *)
Definition tally (w w' : world) (d s : Z) : Prop :=
  download_count (self w') = download_count (self w) + d
  /\ success_count (self w') = success_count (self w) + s
  /\ error_count (self w) <= error_count (self w').

(** An attempt that ends with the outcome and the world [r] counted no
    success, or one, and then it returned a file name that is not empty. *)
Definition one_success_at_most (w : world)
  (r : outcome (option string) * world) : Prop :=
  tally w (snd r) 0 0
  \/ (tally w (snd r) 0 1 /\ exists f, fst r = Ok (Some f) /\ f <> "").

(** The birds that [main] goes on with: those matching [--species], cut
    by [--limit]. *)
Definition matching (a : args) (birds : list bird) : list bird :=
  match species a with
  | Some sp =>
      if String.eqb sp "" then birds
      else List.filter
             (fun b => Py.str_in (Py.lower sp) (Py.lower (scientific_name b)))
             birds
  | None => birds
  end.

Definition limited (a : args) (birds : list bird) : list bird :=
  match limit a with
  | Some n => if n =? 0 then birds else slice_to n birds
  | None => birds
  end.

(** The world in which the loop of [main] starts. *)
Definition loop_start (a : args) (w : world) : world :=
  set_self (fun _ => fresh_fetcher)
    (set_progress
       (fun _ => if no_resume a then ∅ else default ∅ (progress_file w)) w).

(** The world that the [finally] clause of [main] leaves. *)
Definition finalized (w : world) : world :=
  emit EvManifest
    (emit (EvProgressSaved (progress w))
       (set_progress_file (Some (progress w)) w)).

End Observe.

(** ** Further concrete inputs *)

Module Cases.
Import World Main Catalog.

(** Three rows of the catalogue: a species, a family, and the row that
    repeats the title of the checklist; and a species row that is too
    short, so that [csv.DictReader] gives its last field as [None]. *)
Definition robin_row : row :=
  {[ "scientific name" := Some " Erithacus rubecula";
     "category" := Some "species";
     "English name" := Some "European Robin ";
     "species_code" := Some "eurrob1";
     "family" := Some "Muscicapidae" ]}.

Definition family_row : row :=
  {[ "scientific name" := Some "Muscicapidae";
     "category" := Some "family";
     "English name" := Some "Old World Flycatchers";
     "species_code" := Some "muscic2";
     "family" := Some "" ]}.

Definition title_row : row :=
  {[ "scientific name" := Some "Clements Checklist";
     "category" := Some "species";
     "English name" := Some "";
     "species_code" := Some "";
     "family" := Some "" ]}.

Definition short_row : row :=
  {[ "scientific name" := Some "Troglodytes troglodytes";
     "category" := Some "species";
     "English name" := Some "Eurasian Wren";
     "species_code" := Some "winwre4";
     "family" := None ]}.

(** The user interrupts the first download; searches and metadata
    requests are answered as by [Scenario.commons]. *)
Definition interrupted_download : environment :=
  mk_environment (commons_search Scenario.commons)
    (commons_imageinfo Scenario.commons)
    (fun _ _ => Raise KeyboardInterrupt) (encoded_size Scenario.commons).

(** Nothing on disk; the robin was tracked as failed by an earlier run. *)
Definition robin_failed_before : world :=
  mk_world ∅ (Some {[ "Erithacus rubecula" := "" ]}) ∅ []
    fresh_fetcher [].

End Cases.

(** * Properties *)

(** ** Strings *)

Module PyFacts.
Import Py.

(** stdpp keeps [String.append] from unfolding under [simpl]; its two
    equations are used as rewrite rules instead. *)
Lemma app_nil_l (b : string) : ("" ++ b)%string = b.
Proof. reflexivity. Qed.

Lemma app_cons (c : ascii) (a b : string) :
  (String c a ++ b)%string = String c (a ++ b).
Proof. reflexivity. Qed.

Ltac sapp := repeat (rewrite app_cons || rewrite app_nil_l).

Lemma prefix_app (a b : string) : String.prefix a (a ++ b) = true.
Proof.
  induction a as [|c a IH]; sapp; simpl.
  - now destruct b.
  - destruct (ascii_dec c c) as [_|ne]; [exact IH | now destruct ne].
Qed.

Lemma prefix_split (a s : string) :
  String.prefix a s = true -> exists b, s = (a ++ b)%string.
Proof.
  revert s. induction a as [|c a IH]; intros s H.
  - now exists s.
  - destruct s as [|d s]; simpl in H; [discriminate|].
    destruct (ascii_dec c d) as [->|]; [|discriminate].
    destruct (IH _ H) as [b ->]. now exists b.
Qed.

Lemma string_app_assoc (a b c : string) :
  ((a ++ b) ++ c = a ++ (b ++ c))%string.
Proof. induction a as [|x a IH]; sapp; [reflexivity | now rewrite IH]. Qed.

Lemma string_app_nil_r (a : string) : (a ++ "")%string = a.
Proof. induction a as [|x a IH]; sapp; [reflexivity | now rewrite IH]. Qed.

Lemma str_in_nil (sub : string) : str_in sub "" = String.prefix sub "".
Proof. simpl. apply orb_false_r. Qed.

Lemma str_in_cons (sub : string) (c : ascii) (s : string) :
  str_in sub (String c s) = String.prefix sub (String c s) || str_in sub s.
Proof. reflexivity. Qed.

(** [sub in s] holds exactly when [s] splits around an occurrence of [sub]. *)
Lemma str_in_iff (sub s : string) :
  str_in sub s = true <-> exists a b, s = (a ++ sub ++ b)%string.
Proof.
  split.
  - induction s as [|c s IH]; intros H.
    + rewrite str_in_nil in H. apply prefix_split in H as [b Hb].
      now exists ""%string, b.
    + rewrite str_in_cons in H. apply orb_true_iff in H as [H|H].
      * apply prefix_split in H as [b Hb]. exists ""%string, b. exact Hb.
      * destruct (IH H) as (a & b & ->). now exists (String c a), b.
  - intros (a & b & ->). induction a as [|c a IH]; sapp.
    + pose proof (prefix_app sub b) as Hp.
      destruct (sub ++ b)%string.
      * now rewrite str_in_nil.
      * now rewrite str_in_cons, Hp.
    + rewrite str_in_cons, IH. apply orb_true_r.
Qed.

Lemma str_in_app (sub a s b : string) :
  str_in sub s = true -> str_in sub (a ++ s ++ b) = true.
Proof.
  rewrite !str_in_iff. intros (x & y & ->).
  exists (a ++ x)%string, (y ++ b)%string.
  now rewrite !string_app_assoc.
Qed.

Lemma lower_app (a b : string) : lower (a ++ b) = (lower a ++ lower b)%string.
Proof.
  induction a as [|c a IH]; sapp; simpl; sapp; [reflexivity | now rewrite IH].
Qed.

Lemma str_in_lower (sub s : string) :
  str_in sub s = true -> str_in (lower sub) (lower s) = true.
Proof.
  rewrite !str_in_iff. intros (a & b & ->).
  exists (lower a), (lower b). now rewrite !lower_app.
Qed.

Lemma lower_ascii_idem (c : ascii) : lower_ascii (lower_ascii c) = lower_ascii c.
Proof.
  destruct c as [[] [] [] [] [] [] [] []]; reflexivity.
Qed.

Lemma lower_idem (s : string) : lower (lower s) = lower s.
Proof.
  induction s as [|c s IH]; simpl; [reflexivity|].
  now rewrite lower_ascii_idem, IH.
Qed.

Lemma any_true {A} (p : A -> bool) (l : list A) :
  any p l = true <-> exists x, In x l /\ p x = true.
Proof. apply existsb_exists. Qed.

Lemma any_mono {A} (p q : A -> bool) (l : list A) :
  (forall x, p x = true -> q x = true) -> any p l = true -> any q l = true.
Proof.
  intros Hpq. rewrite !any_true. intros (x & Hx & Hp). exists x. auto.
Qed.

Lemma count_if_mono {A} (p q : A -> bool) (l : list A) :
  (forall x, p x = true -> q x = true) -> count_if p l <= count_if q l.
Proof.
  intros Hpq. unfold count_if. apply inj_le.
  induction l as [|x l IH]; simpl; [lia|].
  destruct (p x) eqn:Hp.
  - rewrite (Hpq _ Hp). simpl. lia.
  - destruct (q x); simpl; lia.
Qed.

Lemma Qltb_true (a b : Q) : Qltb a b = true <-> (a < b)%Q.
Proof.
  unfold Qltb. rewrite negb_true_iff. split.
  - intros H. apply Qnot_le_lt. intros Hle.
    apply Qle_bool_iff in Hle. congruence.
  - intros H. destruct (Qle_bool b a) eqn:E; [|reflexivity].
    apply Qle_bool_iff in E. exfalso. apply (Qlt_not_le _ _ H E).
Qed.

Lemma Qltb_false (a b : Q) : Qltb a b = false <-> (b <= a)%Q.
Proof.
  unfold Qltb. rewrite negb_false_iff. apply Qle_bool_iff.
Qed.

End PyFacts.

(** ** The candidate filter and scorer *)

Module ScorerFacts.
Import Py PyFacts Scorer Claims Scenario.

Lemma has_bad_keyword_true (t s : string) :
  has_bad_keyword t s = true <->
  exists bad, In bad bad_keywords /\ (str_in bad t = true \/ str_in bad s = true).
Proof.
  unfold has_bad_keyword. rewrite any_true. split.
  - intros (bad & Hin & H). exists bad. split; [exact Hin|].
    now apply orb_true_iff.
  - intros (bad & Hin & H). exists bad. split; [exact Hin|].
    now apply orb_true_iff.
Qed.

Lemma filter_In (results : list result) (sci : string) (r' : result) :
  In r' (_filter_bird_images results sci) <->
  exists r, In r results /\ clean r /\
    r' = set_quality_score r
           (good_score sci (lower (title r)) (lower (snippet r))).
Proof.
  unfold clean. induction results as [|x l IH]; simpl.
  - split; [tauto | now intros (r & [] & _)].
  - destruct (has_bad_keyword _ _) eqn:E.
    + rewrite IH. split.
      * intros (r & Hin & Hc & ->). exists r. auto.
      * intros (r & [->|Hin] & Hc & ->); [congruence|]. exists r. auto.
    + simpl. rewrite IH. split.
      * intros [<-|(r & Hin & Hc & ->)]; [exists x; auto | exists r; auto].
      * intros (r & [->|Hin] & Hc & ->); [now left | right; exists r; auto].
Qed.

Lemma filter_app (l1 l2 : list result) (sci : string) :
  _filter_bird_images (l1 ++ l2) sci =
  _filter_bird_images l1 sci ++ _filter_bird_images l2 sci.
Proof.
  induction l1 as [|x l IH]; simpl; [reflexivity|].
  destruct (has_bad_keyword _ _); simpl; now rewrite IH.
Qed.

(** Everything the filter lets through is clean. *)
Lemma filter_clean (results : list result) (sci : string) :
  Forall clean (_filter_bird_images results sci).
Proof.
  apply List.Forall_forall. intros r' Hin.
  apply filter_In in Hin as (r & _ & Hc & ->). exact Hc.
Qed.

(** *** Deduplication *)

Lemma unique_results_In (seen : gset string) (l : list result) (r : result) :
  In r (unique_results seen l) <->
  exists l1 l2, l = l1 ++ r :: l2 /\ (title r ∉ seen) /\
    forall x, In x l1 -> title x <> title r.
Proof.
  revert seen. induction l as [|x l IH]; intros seen; simpl.
  - split; [tauto|]. intros (l1 & l2 & H & _). now destruct l1.
  - destruct (decide (title x ∈ seen)) as [Hx|Hx].
    + rewrite IH. split.
      * intros (l1 & l2 & -> & Hr & Hl1). exists (x :: l1), l2.
        split; [reflexivity|]. split; [exact Hr|].
        intros y [<-|Hy]; [congruence | now apply Hl1].
      * intros (l1 & l2 & Heq & Hr & Hl1). destruct l1 as [|y l1].
        -- simpl in Heq. injection Heq as -> ->. contradiction.
        -- simpl in Heq. injection Heq as -> ->. exists l1, l2.
           split; [reflexivity|]. split; [exact Hr|].
           intros z Hz. apply Hl1. now right.
    + simpl. rewrite IH. split.
      * intros [<-|(l1 & l2 & -> & Hr & Hl1)].
        -- exists [], l. split; [reflexivity|]. split; [exact Hx|]. intros _ [].
        -- exists (x :: l1), l2. split; [reflexivity|].
           rewrite elem_of_union, elem_of_singleton in Hr.
           split; [tauto|].
           intros y [<-|Hy]; [intros E; apply Hr; now left | now apply Hl1].
      * intros (l1 & l2 & Heq & Hr & Hl1). destruct l1 as [|y l1].
        -- simpl in Heq. injection Heq as -> ->. now left.
        -- simpl in Heq. injection Heq as -> ->. right. exists l1, l2.
           split; [reflexivity|]. split.
           ++ assert (title y <> title r) by (apply Hl1; now left).
              rewrite elem_of_union, elem_of_singleton. intros [E|E];
                [congruence | contradiction].
           ++ intros z Hz. apply Hl1. now right.
Qed.

Lemma unique_results_NoDup (seen : gset string) (l : list result) :
  NoDup (map title (unique_results seen l)).
Proof.
  revert seen. induction l as [|x l IH]; intros seen; simpl.
  - constructor.
  - destruct (decide (title x ∈ seen)); [apply IH|].
    simpl. constructor; [|apply IH].
    rewrite list_elem_of_In, in_map_iff. intros (y & Hy & Hin).
    apply unique_results_In in Hin as (_ & _ & _ & Hn & _).
    apply Hn. rewrite elem_of_union, elem_of_singleton. left. congruence.
Qed.

(** Deduplication looks at titles only, so it commutes with any map that
    keeps titles, scoring in particular. *)
Lemma unique_results_map (f : result -> result) (seen : gset string)
  (l : list result) :
  (forall r, title (f r) = title r) ->
  unique_results seen (map f l) = map f (unique_results seen l).
Proof.
  intros Hf. revert seen. induction l as [|x l IH]; intros seen; simpl.
  - reflexivity.
  - rewrite Hf. destruct (decide (title x ∈ seen)); simpl; now rewrite IH.
Qed.

Lemma title_score_result (sci : string) (r : result) :
  title (score_result sci r) = title r.
Proof. reflexivity. Qed.

Lemma first_occurrence (l : list result) (h : result) :
  In h l ->
  exists l1 h' l2, l = l1 ++ h' :: l2 /\ title h' = title h /\
    forall x, In x l1 -> title x <> title h'.
Proof.
  induction l as [|x l IH]; intros Hin; [destruct Hin|].
  destruct (decide (title x = title h)) as [Heq|Hne].
  - exists [], x, l. split; [reflexivity|]. split; [exact Heq|]. intros _ [].
  - destruct Hin as [->|Hin]; [congruence|].
    destruct (IH Hin) as (l1 & h' & l2 & -> & Ht & Hl1).
    exists (x :: l1), h', l2. split; [reflexivity|]. split; [exact Ht|].
    intros y [<-|Hy]; [congruence | now apply Hl1].
Qed.

(** *** Sorting *)

Lemma key_lt_true (a b : Q * Z) :
  key_lt a b = true <->
  (fst a < fst b)%Q \/ ((fst a == fst b)%Q /\ snd a < snd b).
Proof.
  unfold key_lt. rewrite orb_true_iff, andb_true_iff, Qltb_true,
    Qeq_bool_iff, Z.ltb_lt. reflexivity.
Qed.

Lemma key_lt_false (a b : Q * Z) :
  key_lt a b = false <->
  (fst b < fst a)%Q \/ ((fst a == fst b)%Q /\ snd b <= snd a).
Proof.
  rewrite <- not_true_iff_false, key_lt_true. split.
  - intros H. destruct (Qlt_le_dec (fst b) (fst a)) as [Hlt|Hle]; [now left|].
    right. assert (Heq : (fst a == fst b)%Q).
    { apply Qle_antisym; [exact Hle|].
      apply Qnot_lt_le. intros Hlt. apply H. now left. }
    split; [exact Heq|].
    destruct (Z_lt_le_dec (snd a) (snd b)); [|assumption].
    exfalso. apply H. now right.
  - intros [Hlt|[Heq Hle]] [Hlt'|[Heq' Hlt']]; try lra; lia.
Qed.

Lemma key_ge_final (a b : result) :
  key_ge a b ->
  (default 0 (final_score b) < default 0 (final_score a))%Q
  \/ ((default 0 (final_score a) == default 0 (final_score b))%Q
      /\ size b <= size a).
Proof. unfold key_ge. rewrite key_lt_false. trivial. Qed.

Lemma key_ge_trans (a b c : result) : key_ge a b -> key_ge b c -> key_ge a c.
Proof.
  unfold key_ge. rewrite !key_lt_false.
  intros [H1|[H1 H1']] [H2|[H2 H2']].
  - left. lra.
  - left. lra.
  - left. lra.
  - right. split; [lra | lia].
Qed.

Lemma key_lt_asym (a b : Q * Z) : key_lt a b = true -> key_lt b a = false.
Proof.
  rewrite key_lt_true, key_lt_false. intros [H|[H H']]; [now left|].
  right. split; [lra | lia].
Qed.

Lemma insert_desc_perm (x : result) (l : list result) :
  Permutation (insert_desc x l) (x :: l).
Proof.
  induction l as [|y l IH]; simpl; [reflexivity|].
  destruct (key_lt _ _); [|reflexivity].
  rewrite IH. apply perm_swap.
Qed.

Lemma sorted_reverse_perm (l : list result) : Permutation (sorted_reverse l) l.
Proof.
  induction l as [|x l IH]; simpl; [reflexivity|].
  rewrite insert_desc_perm. now constructor.
Qed.

Lemma sorted_reverse_In (l : list result) (r : result) :
  In r (sorted_reverse l) <-> In r l.
Proof.
  split; apply Permutation_in;
    [apply sorted_reverse_perm | symmetry; apply sorted_reverse_perm].
Qed.

Lemma insert_desc_sorted (x : result) (l : list result) :
  StronglySorted key_ge l -> StronglySorted key_ge (insert_desc x l).
Proof.
  induction 1 as [|y l Hs IH Hy]; simpl.
  - constructor; constructor.
  - destruct (key_lt (sort_key x) (sort_key y)) eqn:E.
    + constructor; [exact IH|].
      apply List.Forall_forall. intros z Hz.
      apply (Permutation_in _ (insert_desc_perm x l)) in Hz.
      destruct Hz as [<-|Hz]; [now apply key_lt_asym|].
      rewrite List.Forall_forall in Hy. now apply Hy.
    + constructor; [now constructor|].
      constructor; [exact E|].
      eapply List.Forall_impl; [|exact Hy].
      intros z Hz. now apply key_ge_trans with y.
Qed.

Lemma sorted_reverse_sorted (l : list result) :
  StronglySorted key_ge (sorted_reverse l).
Proof.
  induction l as [|x l IH]; simpl; [constructor | now apply insert_desc_sorted].
Qed.

Lemma StronglySorted_lookup (R : result -> result -> Prop) (l : list result) :
  StronglySorted R l ->
  forall (i j : nat) (a b : result),
    (i < j)%nat -> l !! i = Some a -> l !! j = Some b -> R a b.
Proof.
  induction 1 as [|x l Hs IH Hx]; intros i j a b Hij Ha Hb.
  - discriminate.
  - destruct j as [|j]; [lia|]. destruct i as [|i]; simpl in *.
    + injection Ha as <-.
      rewrite List.Forall_forall in Hx. apply Hx.
      apply list_elem_of_In. eapply list_elem_of_lookup_2. exact Hb.
    + apply (IH i j); [lia | assumption | assumption].
Qed.

(** *** The ranked list *)

Lemma ranked_In (results : list result) (sci : string) (r : result) :
  In r (_deduplicate_and_score_results results sci) <->
  exists l1 h l2, results = l1 ++ h :: l2 /\
    (forall x, In x l1 -> title x <> title h) /\ r = score_result sci h.
Proof.
  unfold _deduplicate_and_score_results.
  rewrite sorted_reverse_In, in_map_iff. split.
  - intros (h & <- & Hin).
    apply unique_results_In in Hin as (l1 & l2 & -> & _ & Hl1).
    now exists l1, h, l2.
  - intros (l1 & h & l2 & -> & Hl1 & ->). exists h. split; [reflexivity|].
    apply unique_results_In. exists l1, l2.
    split; [reflexivity|]. split; [apply not_elem_of_empty | exact Hl1].
Qed.

Lemma ranked_NoDup (results : list result) (sci : string) :
  NoDup (map title (_deduplicate_and_score_results results sci)).
Proof.
  unfold _deduplicate_and_score_results.
  rewrite sorted_reverse_perm, map_map.
  erewrite map_ext; [apply unique_results_NoDup|].
  intros a. apply title_score_result.
Qed.

Lemma score_result_total (sci : string) (r : result) :
  exists q, final_score (score_result sci r) = Some q /\
            (q == spec_total_score sci r)%Q.
Proof.
  unfold score_result, spec_total_score, indicator. simpl.
  eexists. split; [reflexivity|].
  repeat match goal with
         | |- context [if ?b then _ else _] => destruct b
         end; ring.
Qed.


(** *** Scoring monotonicity *)

Lemma NoDup_title_inj (l : list result) (a b : result) :
  NoDup (map title l) -> In a l -> In b l -> title a = title b -> a = b.
Proof.
  induction l as [|x l IH]; intros Hnd Ha Hb Ht; [destruct Ha|].
  simpl in Hnd. apply NoDup_cons in Hnd as [Hx Hnd].
  rewrite list_elem_of_In, in_map_iff in Hx.
  destruct Ha as [->|Ha], Hb as [->|Hb].
  - reflexivity.
  - exfalso. apply Hx. now exists b.
  - exfalso. apply Hx. now exists a.
  - now apply IH.
Qed.

(** A clean first occurrence survives the filter as a first occurrence. *)
Lemma filter_first_in (hits : list result) (sci : string) (h : result) :
  first_in hits h -> clean h ->
  first_in (_filter_bird_images hits sci)
    (set_quality_score h (good_score sci (lower (title h)) (lower (snippet h)))).
Proof.
  intros (l1 & l2 & -> & Hl1) Hc.
  exists (_filter_bird_images l1 sci), (_filter_bird_images l2 sci). split.
  - rewrite filter_app. simpl. unfold clean in Hc. now rewrite Hc.
  - intros x Hx. apply filter_In in Hx as (y & Hy & _ & ->). simpl.
    now apply Hl1.
Qed.

Lemma ranked_first_in (results : list result) (sci : string) (h : result) :
  first_in results h ->
  In (score_result sci h) (_deduplicate_and_score_results results sci).
Proof.
  intros (l1 & l2 & -> & Hl1). apply ranked_In. now exists l1, h, l2.
Qed.

Lemma final_score_value (sci : string) (r : result) :
  (default 0 (final_score (score_result sci r)) == spec_total_score sci r)%Q.
Proof.
  destruct (score_result_total sci r) as (q & -> & Hq). exact Hq.
Qed.

Lemma indicator_mono (b1 b2 : bool) (v : Q) :
  (0 <= v)%Q -> (b1 = true -> b2 = true) ->
  (indicator b1 v <= indicator b2 v)%Q.
Proof.
  intros Hv Hb. unfold indicator.
  destruct b1, b2; first [lra | now specialize (Hb eq_refl)].
Qed.

Lemma adds_name_clean (sci : string) (h1 h2 : result) :
  adds_name sci h1 h2 -> clean h2 -> clean h1.
Proof.
  intros ((a & b & Ht) & _ & _ & _ & _ & Hs & _) Hc. unfold clean in *.
  apply not_true_iff_false. intros Hbad. apply not_true_iff_false in Hc.
  apply Hc. apply has_bad_keyword_true in Hbad as (bad & Hin & H).
  apply has_bad_keyword_true. exists bad. split; [exact Hin|].
  rewrite Ht, Hs, !lower_app. destruct H as [H|H]; [left | now right].
  now apply str_in_app.
Qed.

(** The scores of the two hits after the filter has set [quality_score]. *)
Lemma adds_name_score (sci : string) (h1 h2 : result) :
  adds_name sci h1 h2 ->
  let f h := set_quality_score h
               (good_score sci (lower (title h)) (lower (snippet h))) in
  (spec_total_score sci (f h1) <= spec_total_score sci (f h2))%Q
  /\ (str_in (lower sci) (lower (title h1)) = false ->
      (spec_total_score sci (f h1) + 10 <= spec_total_score sci (f h2))%Q).
Proof.
  intros ((a & b & Ht) & Hn2 & _ & Hsz & _ & Hs & _) f.
  assert (Hsub : forall w, str_in w (lower (title h1)) = true ->
                           str_in w (lower (title h2)) = true).
  { intros w Hw. rewrite Ht, !lower_app. now apply str_in_app. }
  assert (Hq : (inject_Z (good_score sci (lower (title h1)) (lower (snippet h1)))
                <= inject_Z (good_score sci (lower (title h2)) (lower (snippet h2))))%Q).
  { rewrite <- Zle_Qle. unfold good_score. apply count_if_mono.
    intros w. rewrite Hs, !orb_true_iff. intros [H|H]; [left; auto | now right]. }
  assert (Hp : (indicator (any (fun pattern => str_in pattern (lower (title h1)))
                              ["male"; "female"; "adult"; "portrait"]) 5
                <= indicator (any (fun pattern => str_in pattern (lower (title h2)))
                                 ["male"; "female"; "adult"; "portrait"]) 5)%Q).
  { apply indicator_mono; [lra|]. apply any_mono. intros w. apply Hsub. }
  assert (Hname : str_in (lower sci) (lower (title h2)) = true)
    by now apply str_in_lower.
  unfold spec_total_score, f.
  cbn -[indicator any str_in lower Py.min good_score].
  rewrite Hname, Hsz.
  change (indicator true 10) with 10%Q. split.
  - destruct (str_in (lower sci) (lower (title h1)));
      [change (indicator true 10) with 10%Q
      | change (indicator false 10) with 0%Q]; lra.
  - intros ->. change (indicator false 10) with 0%Q. lra.
Qed.


Lemma adds_name_suffix (sci : string) (h : result) (suffix : string) :
  str_in sci (title h) = false ->
  str_in sci (title h ++ suffix) = true ->
  adds_name sci h
    (mk_result (title h ++ suffix) (size h) (timestamp h) (snippet h)
       (quality_score h) (final_score h)).
Proof.
  intros H1 H2. split; [|now repeat split].
  exists ""%string, suffix. reflexivity.
Qed.

Lemma first_in_head (h : result) (l : list result) : first_in (h :: l) h.
Proof. exists [], l. split; [reflexivity | intros _ []]. Qed.

Lemma first_in_second (x h : result) (l : list result) :
  title x <> title h -> first_in (x :: h :: l) h.
Proof.
  intros Hne. exists [x], l. split; [reflexivity|].
  intros y [<-|[]]. exact Hne.
Qed.



End ScorerFacts.

(** ** File names *)

Module SanitizeFacts.
Import Py PyFacts World Fetcher Main.

Lemma keep_chars_replace_dropped (keep : ascii -> bool) (old : ascii) (s : string) :
  keep old = false ->
  keep_chars keep (replace_char old "" s) = keep_chars keep s.
Proof.
  intros Hold. induction s as [|c s IH]; simpl; [reflexivity|].
  destruct (Ascii.eqb_spec c old) as [->|Hne].
  - rewrite app_nil_l, Hold. exact IH.
  - simpl. now rewrite IH.
Qed.

Lemma join_lower_kept_lower (s : string) :
  join_lower_kept s = lower (keep_chars alnum_or_dash s).
Proof.
  induction s as [|c s IH]; simpl; [reflexivity|].
  destruct (alnum_or_dash c); simpl; now rewrite IH.
Qed.


End SanitizeFacts.

(** ** Image sizes *)

Module ImagingFacts.
Import Py PyFacts Imaging.

Lemma Qdiv_make (n d : Z) :
  0 < d -> (inject_Z n / inject_Z d == n # Z.to_pos d)%Q.
Proof.
  intros Hd. destruct d as [|p|p]; try lia. simpl. symmetry. apply Qmake_Qdiv.
Qed.

Lemma Qfloor_make (n : Z) (p : positive) : Qfloor (n # p) = n / Zpos p.
Proof. reflexivity. Qed.

Lemma Qceiling_make (n : Z) (p : positive) :
  Qceiling (n # p) = - ((- n) / Zpos p).
Proof. reflexivity. Qed.

(** A quotient of integers rounded by [round_aspect]: the floor or the
    ceiling of the quotient, and at least 1. *)
Lemma round_aspect_make (q : Q) (n d : Z) (key : Z -> Q) :
  0 < d -> (q == inject_Z n / inject_Z d)%Q ->
  round_aspect q key = Z.max (n / d) 1
  \/ round_aspect q key = Z.max (- ((- n) / d)) 1.
Proof.
  intros Hd Hq. rewrite (Qdiv_make n d Hd) in Hq.
  assert (Hf : Qfloor q = n / d).
  { rewrite (Qfloor_comp _ _ Hq), Qfloor_make. now rewrite Z2Pos.id. }
  assert (Hc : Qceiling q = - ((- n) / d)).
  { rewrite (Qceiling_comp _ _ Hq), Qceiling_make. now rewrite Z2Pos.id. }
  unfold round_aspect, min_by_key. rewrite Hf, Hc.
  destruct (Qltb _ _); [now right | now left].
Qed.

Lemma floor_ceiling_bounds (n d : Z) :
  0 < d ->
  d * (n / d) <= n < d * (n / d) + d
  /\ n <= d * (- ((- n) / d)) < n + d.
Proof.
  intros Hd.
  pose proof (Z.div_mod n d ltac:(lia)) as H1.
  pose proof (Z.mod_pos_bound n d Hd) as H2.
  pose proof (Z.div_mod (- n) d ltac:(lia)) as H3.
  pose proof (Z.mod_pos_bound (- n) d Hd) as H4.
  generalize dependent (n / d). generalize dependent ((- n) / d).
  generalize dependent (n mod d). generalize dependent ((- n) mod d).
  intros; nia.
Qed.

Lemma inject_Z_nonzero (n : Z) : 0 < n -> ~ (inject_Z n == 0)%Q.
Proof.
  intros Hn H. unfold Qeq in H. simpl in H. lia.
Qed.

Lemma aspect_le_one (w h : Z) :
  0 < h ->
  Qle_bool (inject_Z w / inject_Z h) (inject_Z 512 / inject_Z 512) = true
  <-> w <= h.
Proof.
  intros Hh. rewrite Qle_bool_iff, (Qdiv_make w h Hh).
  unfold Qle. simpl. rewrite Z2Pos.id by exact Hh. lia.
Qed.

(** The three outcomes of [thumbnail] for the 512 by 512 box, with the
    rounded axis written in integer arithmetic. *)
Lemma thumbnail_512 (img : image) :
  0 < width img -> 0 < height img ->
  let w := width img in
  let h := height img in
  let out := thumbnail (512, 512) img in
  (out = img /\ w <= 512 /\ h <= 512)
  \/ (w <= h /\ 512 < h /\ height out = 512
      /\ (width out = Z.max (512 * w / h) 1
          \/ width out = Z.max (- ((- (512 * w)) / h)) 1))
  \/ (h < w /\ 512 < w /\ width out = 512
      /\ (height out = Z.max (512 * h / w) 1
          \/ height out = Z.max (- ((- (512 * h)) / w)) 1)).
Proof.
  intros Hw Hh w h out. subst w h out.
  unfold thumbnail, preserve_aspect_ratio.
  destruct ((512 >=? width img) && (512 >=? height img)) eqn:Hfit.
  - left. apply andb_true_iff in Hfit as [H1 H2].
    apply Z.geb_le in H1, H2. auto.
  - right.
    assert (Hbig : 512 < width img \/ 512 < height img).
    { apply andb_false_iff in Hfit as [H|H]; rewrite Z.geb_leb in H;
        apply Z.leb_gt in H; lia. }
    destruct (Qle_bool _ _) eqn:Hasp.
    + left. apply aspect_le_one in Hasp; [|exact Hh].
      split; [exact Hasp|]. split; [lia|]. split; [reflexivity|]. simpl.
      apply round_aspect_make; [exact Hh|].
      rewrite inject_Z_mult. field. now apply inject_Z_nonzero.
    + right.
      assert (Hgt : height img < width img).
      { destruct (Z_lt_le_dec (height img) (width img)) as [|Hle]; [assumption|].
        apply (aspect_le_one _ _ Hh) in Hle. congruence. }
      split; [exact Hgt|]. split; [lia|]. split; [reflexivity|]. simpl.
      apply round_aspect_make; [exact Hw|].
      rewrite inject_Z_mult. field.
      split; now apply inject_Z_nonzero.
Qed.

(** What the box guarantees for an image of at least one pixel: the
    result fits the box, is no larger than the source on either axis, has
    at least one pixel per axis, and keeps the proportions up to the
    rounding of one axis to whole pixels. *)
Lemma thumbnail_bounds (img : image) :
  0 < width img -> 0 < height img ->
  let out := thumbnail (512, 512) img in
  1 <= width out <= 512 /\ 1 <= height out <= 512
  /\ width out <= width img /\ height out <= height img
  /\ Z.abs (width out * height img - height out * width img)
     < Z.max (width img) (height img).
Proof.
  intros Hw Hh. cbv zeta.
  pose proof (thumbnail_512 img Hw Hh) as H. cbv zeta in H.
  destruct H as [(-> & H1 & H2) | [(Hle & Hb & Hy & Hx) | (Hlt & Hb & Hx & Hy)]].
  - lia.
  - rewrite Hy.
    pose proof (floor_ceiling_bounds (512 * width img) (height img) Hh) as [F C].
    destruct Hx as [-> | ->]; nia.
  - rewrite Hx.
    pose proof (floor_ceiling_bounds (512 * height img) (width img) Hw) as [F C].
    destruct Hy as [-> | ->]; nia.
Qed.

(** When neither axis is more than 2.56 times the other, an image of at
    least 200 by 200 stays at least 200 by 200. *)
Lemma thumbnail_keeps_minimum (img : image) :
  200 <= width img -> 200 <= height img ->
  200 * width img <= 512 * height img ->
  200 * height img <= 512 * width img ->
  let out := thumbnail (512, 512) img in
  200 <= width out /\ 200 <= height out.
Proof.
  intros Hw Hh R1 R2. cbv zeta.
  pose proof (thumbnail_512 img ltac:(lia) ltac:(lia)) as H. cbv zeta in H.
  destruct H as [(-> & H1 & H2) | [(Hle & Hb & Hy & Hx) | (Hlt & Hb & Hx & Hy)]].
  - lia.
  - rewrite Hy.
    pose proof (floor_ceiling_bounds (512 * width img) (height img)
                  ltac:(lia)) as [F C].
    destruct Hx as [-> | ->]; nia.
  - rewrite Hx.
    pose proof (floor_ceiling_bounds (512 * height img) (width img)
                  ltac:(lia)) as [F C].
    destruct Hy as [-> | ->]; nia.
Qed.

End ImagingFacts.

(** ** The fetcher in its world *)

Module FetcherFacts.
Import Py PyFacts Imaging World Fetcher Claims ScorerFacts ImagingFacts.

(** *** Results *)

Lemma returns_ret {A} (a : A) (P : A -> Prop) : P a -> returns (ret a) P.
Proof. intros Ha w a' w' H. injection H as <- _. exact Ha. Qed.

Lemma returns_bind {A B} (m : M A) (k : A -> M B) (Q : A -> Prop)
  (P : B -> Prop) :
  returns m Q -> (forall a, Q a -> returns (k a) P) -> returns (bind m k) P.
Proof.
  intros Hm Hk w b w' H. unfold bind in H.
  destruct (m w) as [[a|e] w1] eqn:E; [|discriminate].
  exact (Hk a (Hm _ _ _ E) _ _ _ H).
Qed.

Lemma returns_try_except {A} (body handler : M A) (P : A -> Prop) :
  returns body P -> returns handler P -> returns (try_except body handler) P.
Proof.
  intros Hb Hh w a w' H. unfold try_except in H.
  destruct (body w) as [[a'|[|]] w1] eqn:E.
  - injection H as <- <-. exact (Hb _ _ _ E).
  - discriminate.
  - exact (Hh _ _ _ H).
Qed.

Lemma returns_any {A} (m : M A) : returns m (fun _ => True).
Proof. intros w a w' _. exact I. Qed.

(** *** Relations between the world before and after *)

Section Stable.

Variable R : world -> world -> Prop.
Hypothesis R_refl : forall w, R w w.
Hypothesis R_trans : forall a b c, R a b -> R b c -> R a c.

Lemma stable_ret {A} (a : A) : stable_under R (ret a).
Proof. intros w. apply R_refl. Qed.

Lemma stable_get {A} (f : world -> A) : stable_under R (get f).
Proof. intros w. apply R_refl. Qed.

Lemma stable_bind {A B} (m : M A) (k : A -> M B) :
  stable_under R m -> (forall a, stable_under R (k a)) -> stable_under R (bind m k).
Proof.
  intros Hm Hk w. unfold bind. specialize (Hm w).
  destruct (m w) as [[a|e] w1]; simpl in *; [|exact Hm].
  eapply R_trans; [exact Hm | apply Hk].
Qed.

Lemma stable_try_except {A} (body handler : M A) :
  stable_under R body -> stable_under R handler -> stable_under R (try_except body handler).
Proof.
  intros Hb Hh w. unfold try_except. specialize (Hb w).
  destruct (body w) as [[a|[|]] w1]; simpl in *; try exact Hb.
  eapply R_trans; [exact Hb | apply Hh].
Qed.

Hypothesis R_emit : forall e w, R w (emit e w).
Hypothesis R_files : forall f w, R w (set_files f w).
Hypothesis R_stdin : forall v w, R w (set_stdin v w).
Hypothesis R_policy : forall p w, R w (set_self (set_overwrite_policy p) w).
Hypothesis R_success : forall w, R w (set_self bump_success w).
Hypothesis R_error : forall w, R w (set_self bump_error w).
Hypothesis R_download : forall w, R w (set_self bump_download w).

Lemma stable_request {A} (what : string) (reply : nat -> outcome A) :
  stable_under R (request what reply).
Proof. intros w. apply R_emit. Qed.

Lemma stable_path_exists (path : string) : stable_under R (path_exists path).
Proof. apply stable_get. Qed.

Lemma stable_image_open_size (path : string) : stable_under R (image_open_size path).
Proof.
  intros w. unfold image_open_size.
  destruct (files w !! path) as [f|]; [destruct (decoded f)|]; apply R_refl.
Qed.

Lemma stable_stat_st_size (path : string) : stable_under R (stat_st_size path).
Proof.
  intros w. unfold stat_st_size.
  destruct (files w !! path); apply R_refl.
Qed.

Lemma stable_image_save (env : environment) (img : image) (path format : string)
  (quality : Z) : stable_under R (image_save env img path format quality).
Proof. intros w. simpl. eapply R_trans; [apply R_files | apply R_emit]. Qed.

Lemma stable_input (name : string) : stable_under R (input name).
Proof.
  intros w. unfold input. destruct (stdin w); simpl; [apply R_emit|].
  eapply R_trans; [apply R_stdin | apply R_emit].
Qed.

(** Case analysis and the rules above settle the straight-line code. *)
Ltac stable_step :=
  first
    [ apply stable_ret | apply stable_get | apply stable_request
    | apply stable_path_exists | apply stable_image_open_size
    | apply stable_stat_st_size | apply stable_image_save | apply stable_input
    | apply stable_try_except
    | apply stable_bind; [|intros ?]
    | match goal with
      | |- stable_under _ (if ?b then _ else _) => destruct b
      | |- stable_under _ (match ?x with _ => _ end) => destruct x
      | |- stable_under _ (modify _) => intros ?; simpl
      end ].

Lemma stable__search_commons_images (env : environment) (term : string) :
  stable_under R (_search_commons_images env term).
Proof. unfold _search_commons_images. repeat stable_step. Qed.

Lemma stable_search_loop (env : environment) (sci : string) (terms : list string)
  (acc : list result) : stable_under R (search_loop env sci terms acc).
Proof.
  revert acc. induction terms as [|term rest IH]; intros acc; simpl.
  - apply stable_ret.
  - destruct (String.eqb term ""); [apply IH|].
    apply stable_bind.
    + apply stable_try_except; [|apply stable_ret].
      apply stable_bind; [apply stable__search_commons_images|].
      intros ?. apply stable_ret.
    + intros [acc' stop]. destruct stop; [apply stable_ret | apply IH].
Qed.

Lemma stable_search_bird_images (env : environment) (sci common : string) :
  stable_under R (search_bird_images env sci common).
Proof.
  unfold search_bird_images. apply stable_bind; [apply stable_search_loop|].
  intros ?. apply stable_ret.
Qed.

Lemma stable_get_image_info (env : environment) (filename : string) :
  stable_under R (get_image_info env filename).
Proof. unfold get_image_info. repeat stable_step. Qed.

Lemma stable__is_new_image_better (webp jpg : string) (img : image) :
  stable_under R (_is_new_image_better webp jpg img).
Proof. unfold _is_new_image_better. repeat stable_step. Qed.

Lemma stable__should_overwrite_files (webp jpg : string) (img : image)
  (policy sci : string) :
  stable_under R (_should_overwrite_files webp jpg img policy sci).
Proof.
  unfold _should_overwrite_files.
  repeat first [apply stable__is_new_image_better | apply R_policy | stable_step].
Qed.

Lemma stable_download_and_process_image (env : environment)
  (sci url policy : string) :
  stable_under R (download_and_process_image env sci url policy).
Proof.
  unfold download_and_process_image.
  repeat first [apply stable__should_overwrite_files | apply R_success
               | apply R_error | stable_step].
Qed.

Lemma stable_try_candidate (env : environment) (sci policy : string)
  (r : result) : stable_under R (try_candidate env sci policy r).
Proof.
  unfold try_candidate.
  repeat first [apply stable_get_image_info
               | apply stable_download_and_process_image | stable_step].
Qed.

Lemma stable_try_candidates (env : environment) (sci policy : string)
  (rs : list result) : stable_under R (try_candidates env sci policy rs).
Proof.
  induction rs as [|r rest IH]; simpl; [apply stable_ret|].
  apply stable_bind; [apply stable_try_candidate|].
  intros [filename|]; [apply stable_ret | exact IH].
Qed.

Lemma stable_fetch_bird_image (env : environment) (sci common policy : string) :
  stable_under R (fetch_bird_image env sci common policy).
Proof.
  unfold fetch_bird_image. apply stable_bind.
  - intros w. simpl. eapply R_trans; [apply R_download | apply R_emit].
  - intros _. apply stable_bind; [apply stable_search_bird_images|].
    intros [|r rs]; [apply stable_ret | apply stable_try_candidates].
Qed.

End Stable.

(** *** What the arbiter leaves alone *)

Lemma should_overwrite_files_keeps_files (webp jpg : string) (img : image)
  (policy sci : string) :
  stable_under same_files (_should_overwrite_files webp jpg img policy sci).
Proof.
  apply stable__should_overwrite_files; unfold same_files;
    intros; simpl; congruence.
Qed.

(** The decision never reads the fetcher's attributes, the
    [overwrite_policy] that an answer [a] or [n] assigns included. *)
Lemma should_overwrite_files_ignores_self (webp jpg : string) (img : image)
  (policy sci : string) (f : fetcher -> fetcher) (w : world) :
  fst (_should_overwrite_files webp jpg img policy sci (set_self f w))
  = fst (_should_overwrite_files webp jpg img policy sci w).
Proof.
  unfold _should_overwrite_files, _is_new_image_better, try_except, bind,
    path_exists, image_open_size, stat_st_size, input, get, modify, ret.
  simpl.
  repeat (case_match; simplify_eq/=; try congruence).
Qed.

(** *** The policy [better] *)

Lemma area_threshold (existing_pixels new_pixels : Z) :
  Qltb (inject_Z existing_pixels * 1.25)%Q (inject_Z new_pixels)
  = (5 * existing_pixels <? 4 * new_pixels).
Proof.
  apply eq_true_iff_eq. rewrite Qltb_true, Z.ltb_lt.
  unfold Qlt. simpl. lia.
Qed.

Lemma size_threshold (existing_file_size new_file_size : Z) :
  Qltb (inject_Z existing_file_size * 1.1)%Q (inject_Z new_file_size)
  = (11 * existing_file_size <? 10 * new_file_size).
Proof.
  apply eq_true_iff_eq. rewrite Qltb_true, Z.ltb_lt.
  unfold Qlt. simpl. lia.
Qed.

(** With a readable artifact on disk, [better] replaces it exactly when
    the new image has strictly more than 1.25 times its pixels, or the new
    image takes strictly more bytes in memory than 1.1 times the size of
    the file. *)
Lemma is_new_image_better_decides (webp jpg : string) (new_img : image)
  (w : world) (f : file) (ew eh : Z) :
  files w !! (if bool_decide (is_Some (files w !! webp)) then webp else jpg)
    = Some f ->
  decoded f = Some (ew, eh) ->
  _is_new_image_better webp jpg new_img w
  = (Ok ((5 * (ew * eh) <? 4 * (width new_img * height new_img))
         || (11 * st_size f <? 10 * len_tobytes new_img)), w).
Proof.
  intros Hf Hd.
  unfold _is_new_image_better, try_except, bind, path_exists, get,
    image_open_size, stat_st_size, ret.
  destruct (bool_decide (is_Some (files w !! webp))) eqn:E;
    rewrite Hf; (rewrite bool_decide_eq_true_2 by eauto); simpl;
    rewrite Hf, Hd; simpl; rewrite area_threshold;
    (destruct (_ <? _); [reflexivity|]); simpl;
    rewrite Hf, size_threshold; now destruct (_ <? _).
Qed.

Import Main Scenario Claims.

(** C1 (defect). Two runs of the policy [better].
    The stored JPEG of the robin has 200 by 200 pixels and the candidate
    has 250 by 200, exactly 1.25 times as many, the two byte sizes that the
    arbiter compares being equal: the arbiter rejects the replacement,
    because its area test is strict, and [main] leaves the files alone.
    The stored WebP has 200 by 200 pixels and the candidate has 210 by
    200, 1.05 times as many, and encodes to the same 20000 bytes: the
    arbiter approves the replacement, because it compares the size of the
    stored file with the size of the candidate's pixels in memory. *)
Theorem C1_better_rejects_exactly_125_percent :
  (100 * (width wider_gray * height wider_gray) = 125 * (200 * 200)
   /\ files jpg_on_disk !! "erithacus_rubecula.webp" = None
   /\ files jpg_on_disk !! "erithacus_rubecula.jpg"
      = Some (mk_file 50000 (Some (200, 200)))
   /\ len_tobytes wider_gray = 50000
   /\ prepare wider_gray = wider_gray
   /\ _should_overwrite_files "erithacus_rubecula.webp" "erithacus_rubecula.jpg"
        wider_gray "better" "Erithacus rubecula" jpg_on_disk
      = (Ok false, jpg_on_disk)
   /\ files (snd (main commons_wider_gray (run_with "better") [robin_bird]
                    jpg_on_disk))
      = files jpg_on_disk)
  /\
  (100 * (width slightly_larger * height slightly_larger) = 105 * (200 * 200)
   /\ files webp_on_disk !! "erithacus_rubecula.webp"
      = Some (mk_file 20000 (Some (200, 200)))
   /\ encoded_size commons "WEBP" WEBP_QUALITY slightly_larger = 20000
   /\ len_tobytes slightly_larger = 126000
   /\ _should_overwrite_files "erithacus_rubecula.webp" "erithacus_rubecula.jpg"
        slightly_larger "better" "Erithacus rubecula" webp_on_disk
      = (Ok true, webp_on_disk)).
Proof. repeat split; vm_compute; reflexivity. Qed.

(** C3 (defect). Both species have files on disk and the policy is [ask].
    The user answers the first prompt with [a], always: the robin is
    replaced and the fetcher's [overwrite_policy] becomes [always].  The
    wren is prompted for all the same, the empty answer counts as no, and
    its file stays as it was. *)
Theorem C3_answer_always_is_not_sticky :
  let w := snd (main commons (run_with "ask") [robin_bird; wren_bird]
                  both_on_disk) in
  prompts (log w) = 2%nat
  /\ stdin w = []
  /\ overwrite_policy (self w) = Some "always"
  /\ files w !! "erithacus_rubecula.webp"
     = Some (mk_file 20000 (Some (512, 384)))
  /\ files w !! "troglodytes_troglodytes.webp"
     = files both_on_disk !! "troglodytes_troglodytes.webp"
  /\ files w !! "troglodytes_troglodytes.jpg" = None.
Proof. repeat split; vm_compute; reflexivity. Qed.

(** *** Disallowed terms *)

Lemma bad_keywords_lower : Forall (fun bad => lower bad = bad) bad_keywords.
Proof. repeat constructor. Qed.

Lemma mentions_disallowed_not_clean (h : result) :
  mentions_disallowed h -> ~ clean h.
Proof.
  intros (bad & Hin & H) Hc. unfold clean in Hc.
  apply not_true_iff_false in Hc. apply Hc.
  apply has_bad_keyword_true. exists bad. split; [exact Hin|].
  assert (Hl : lower bad = bad).
  { pose proof bad_keywords_lower as F. rewrite List.Forall_forall in F.
    now apply F. }
  destruct H as [H|[H|[H|H]]].
  - left. rewrite <- Hl. now apply str_in_lower.
  - right. rewrite <- Hl. now apply str_in_lower.
  - now left.
  - now right.
Qed.

Lemma clean_same_text (r h : result) :
  clean r -> title r = title h -> snippet r = snippet h -> clean h.
Proof. unfold clean. now intros H <- <-. Qed.

Lemma ranked_clean (results : list result) (sci : string) :
  List.Forall clean results ->
  List.Forall clean (_deduplicate_and_score_results results sci).
Proof.
  rewrite !List.Forall_forall. intros H r Hr.
  apply ranked_In in Hr as (l1 & h & l2 & -> & _ & ->).
  apply (clean_same_text h); [|reflexivity|reflexivity].
  apply H, in_elt.
Qed.

Lemma returns_search_loop (env : environment) (sci : string)
  (terms : list string) (acc : list result) :
  List.Forall clean acc ->
  returns (search_loop env sci terms acc) (List.Forall clean).
Proof.
  revert acc. induction terms as [|term rest IH]; intros acc Hacc; simpl.
  - now apply returns_ret.
  - destruct (String.eqb term ""); [now apply IH|].
    apply returns_bind with (Q := fun step => List.Forall clean (fst step)).
    + apply returns_try_except; [|now apply returns_ret].
      apply returns_bind with (Q := fun _ => True); [apply returns_any|].
      intros results _. apply returns_ret. simpl.
      apply List.Forall_app. split; [exact Hacc | apply filter_clean].
    + intros [acc' stop] Hacc'. simpl in Hacc'.
      destruct stop; [now apply returns_ret | now apply IH].
Qed.

Lemma returns_search_bird_images (env : environment) (sci common : string) :
  returns (search_bird_images env sci common) (List.Forall clean).
Proof.
  unfold search_bird_images.
  apply returns_bind with (Q := List.Forall clean).
  - apply returns_search_loop. constructor.
  - intros all_results H. apply returns_ret. now apply ranked_clean.
Qed.

(** What [search_bird_images] returns is [filter_and_score] of the hits it
    gathered: filtering query by query and then joining is filtering the
    joined hits. *)
Lemma returns_search_loop_filtered (env : environment) (sci : string)
  (terms : list string) (acc : list result) :
  (exists hits, acc = _filter_bird_images hits sci) ->
  returns (search_loop env sci terms acc)
    (fun all_results => exists hits, all_results = _filter_bird_images hits sci).
Proof.
  revert acc. induction terms as [|term rest IH]; intros acc Hacc; simpl.
  - now apply returns_ret.
  - destruct (String.eqb term ""); [now apply IH|].
    apply returns_bind
      with (Q := fun step => exists hits, fst step = _filter_bird_images hits sci).
    + apply returns_try_except; [|now apply returns_ret].
      apply returns_bind with (Q := fun _ => True); [apply returns_any|].
      intros results _. apply returns_ret. simpl.
      destruct Hacc as [hits ->]. exists (hits ++ results).
      now rewrite filter_app.
    + intros [acc' stop] Hacc'. simpl in Hacc'.
      destruct stop; [now apply returns_ret | now apply IH].
Qed.

Lemma search_bird_images_filter_and_score (env : environment)
  (sci common : string) :
  returns (search_bird_images env sci common)
    (fun ranked => exists hits, ranked = filter_and_score hits sci).
Proof.
  unfold search_bird_images.
  apply returns_bind
    with (Q := fun all_results => exists hits, all_results = _filter_bird_images hits sci).
  - apply returns_search_loop_filtered. now exists [].
  - intros all_results [hits ->]. apply returns_ret. now exists hits.
Qed.

(** C4. A hit whose title or snippet mentions a disallowed term, whatever
    else they contain, is not in the output of the filter, and no result
    that [search_bird_images] ranks has its title and snippet. *)
Theorem C4_disallowed_hits_are_never_ranked
  (env : environment) (sci common : string) (w w' : world)
  (ranked : list result) (h : result) :
  mentions_disallowed h ->
  search_bird_images env sci common w = (Ok ranked, w') ->
  (forall results r, In r (_filter_bird_images results sci) ->
     ~ (title r = title h /\ snippet r = snippet h))
  /\ (forall r, In r ranked ->
        ~ (title r = title h /\ snippet r = snippet h)).
Proof.
  intros Hbad Hrun. apply mentions_disallowed_not_clean in Hbad. split.
  - intros results r Hr [Ht Hs]. apply Hbad.
    apply (clean_same_text r); [|exact Ht|exact Hs].
    apply filter_In in Hr as (x & _ & Hc & ->). exact Hc.
  - intros r Hr [Ht Hs]. apply Hbad.
    apply (clean_same_text r); [|exact Ht|exact Hs].
    pose proof (returns_search_bird_images env sci common _ _ _ Hrun) as F.
    rewrite List.Forall_forall in F. now apply F.
Qed.

(** C4, witness: the robin's hit with an egg, which also mentions
    [adult], [male] and [bird]. *)
Lemma C4_witness :
  mentions_disallowed egg_hit
  /\ exists ranked w',
       search_bird_images commons "Erithacus rubecula" "European Robin" first_run
       = (Ok ranked, w')
       /\ (forall results r,
             In r (_filter_bird_images results "Erithacus rubecula") ->
             ~ (title r = title egg_hit /\ snippet r = snippet egg_hit))
       /\ (forall r, In r ranked ->
             ~ (title r = title egg_hit /\ snippet r = snippet egg_hit)).
Proof.
  assert (Hbad : mentions_disallowed egg_hit).
  { exists "egg". split; [now left|]. left. reflexivity. }
  split; [exact Hbad|].
  destruct (search_bird_images commons "Erithacus rubecula" "European Robin"
              first_run) as [[ranked|e] w'] eqn:Hrun.
  - exists ranked, w'. split; [reflexivity|].
    exact (C4_disallowed_hits_are_never_ranked _ _ _ _ _ _ _ Hbad Hrun).
  - vm_compute in Hrun. discriminate Hrun.
Defined.

(** *** Normalization *)

Lemma source_size (img : image) :
  too_small img = false ->
  let src := exif_transpose (convert_if_necessary img) in
  200 <= width src /\ 200 <= height src
  /\ ((width src = width img /\ height src = height img)
      \/ (width src = height img /\ height src = width img)).
Proof.
  unfold too_small, MIN_IMAGE_SIZE. simpl fst. simpl snd.
  rewrite orb_false_iff, !Z.ltb_ge. intros [Hw Hh].
  unfold exif_transpose, convert_if_necessary.
  destruct (img_mode img); simpl;
    destruct ((5 <=? orientation img) && (orientation img <=? 8)); simpl; lia.
Qed.

Lemma prepare_bounds (img : image) :
  too_small img = false ->
  let src := exif_transpose (convert_if_necessary img) in
  let out := prepare img in
  out = thumbnail MAX_IMAGE_SIZE src
  /\ 1 <= width out <= 512 /\ 1 <= height out <= 512
  /\ width out <= width src /\ height out <= height src
  /\ Z.abs (width out * height src - height out * width src)
     < Z.max (width src) (height src)
  /\ (200 * width img <= 512 * height img ->
      200 * height img <= 512 * width img ->
      200 <= width out /\ 200 <= height out).
Proof.
  intros Hok. cbv zeta.
  pose proof (source_size img Hok) as H. cbv zeta in H.
  destruct H as (Hw & Hh & Hdims).
  unfold prepare, MAX_IMAGE_SIZE.
  set (src := exif_transpose (convert_if_necessary img)) in *.
  pose proof (thumbnail_bounds src ltac:(lia) ltac:(lia)) as B. cbv zeta in B.
  split; [reflexivity|]. repeat split; try apply B.
  - apply (thumbnail_keeps_minimum src); lia.
  - apply (thumbnail_keeps_minimum src); lia.
Qed.

(** A file that [download_and_process_image] wrote is one of the two
    artifacts, and holds the prepared image. *)
Lemma download_writes_prepared (env : environment) (sci url policy : string)
  (w : world) (path : string) (f : file) :
  files (snd (download_and_process_image env sci url policy w)) !! path = Some f ->
  files w !! path <> Some f ->
  exists img, http_image env (length (log w)) url = Ok img
    /\ too_small img = false
    /\ decoded f = Some (width (prepare img), height (prepare img)).
Proof.
  unfold download_and_process_image, try_except, bind, request.
  destruct (http_image env (length (log w)) url) as [img|[|]] eqn:Himg;
    simpl; try congruence.
  destruct (too_small img) eqn:Hsmall; simpl; [congruence|].
  pose proof (should_overwrite_files_keeps_files
                (_sanitize_filename sci ++ ".webp") (_sanitize_filename sci ++ ".jpg")
                (prepare img) policy sci
                (emit (EvRequest ("download:" ++ url)) w)) as Hkeep.
  unfold same_files in Hkeep.
  destruct (_should_overwrite_files _ _ _ _ _ _) as [[[|]|[|]] w1];
    simpl in *; try (rewrite Hkeep; congruence).
  intros Hlook Hold. exists img. split; [reflexivity|]. split; [exact Hsmall|].
  rewrite lookup_insert in Hlook. case_decide.
  - now injection Hlook as <-.
  - rewrite lookup_insert in Hlook. case_decide.
    + now injection Hlook as <-.
    + rewrite Hkeep in Hlook. contradiction.
Qed.

(** C6 (amended). Every file that [download_and_process_image] writes holds
    the image after conversion, EXIF orientation and then resizing, in that
    order; its size is within 512 by 512 and at least 1 by 1, no larger
    than the oriented source on either axis, in the proportions of the
    source up to the rounding of one axis to whole pixels; and it is at
    least 200 by 200 when neither side of the source is more than 2.56
    times the other. *)
Theorem C6_stored_size_within_box (env : environment) (sci url policy : string)
  (w : world) (path : string) (f : file) :
  files (snd (download_and_process_image env sci url policy w)) !! path = Some f ->
  files w !! path <> Some f ->
  exists img, http_image env (length (log w)) url = Ok img
    /\ too_small img = false
    /\ decoded f = Some (width (prepare img), height (prepare img))
    /\ let src := exif_transpose (convert_if_necessary img) in
       let out := prepare img in
       out = thumbnail MAX_IMAGE_SIZE src
       /\ 1 <= width out <= 512 /\ 1 <= height out <= 512
       /\ width out <= width src /\ height out <= height src
       /\ Z.abs (width out * height src - height out * width src)
          < Z.max (width src) (height src)
       /\ (200 * width img <= 512 * height img ->
           200 * height img <= 512 * width img ->
           200 <= width out /\ 200 <= height out).
Proof.
  intros Hnew Hold.
  destruct (download_writes_prepared _ _ _ _ _ _ _ Hnew Hold)
    as (img & Himg & Hok & Hdec).
  exists img. split; [exact Himg|]. split; [exact Hok|]. split; [exact Hdec|].
  now apply prepare_bounds.
Qed.

(** C6, witness: the robin's WebP on a first run. *)
Lemma C6_witness :
  exists f,
    files (snd (download_and_process_image commons "Erithacus rubecula"
                  "https://upload.wikimedia.org/File:Robin bird.jpg" "better"
                  first_run)) !! "erithacus_rubecula.webp" = Some f
    /\ files first_run !! "erithacus_rubecula.webp" <> Some f
    /\ exists img, too_small img = false
         /\ decoded f = Some (width (prepare img), height (prepare img))
         /\ 1 <= width (prepare img) <= 512 /\ 1 <= height (prepare img) <= 512.
Proof.
  exists (mk_file 20000 (Some (512, 384))).
  assert (Hnew : files (snd (download_and_process_image commons
                  "Erithacus rubecula"
                  "https://upload.wikimedia.org/File:Robin bird.jpg" "better"
                  first_run)) !! "erithacus_rubecula.webp"
                 = Some (mk_file 20000 (Some (512, 384))))
    by (vm_compute; reflexivity).
  assert (Hold : files first_run !! "erithacus_rubecula.webp"
                 <> Some (mk_file 20000 (Some (512, 384))))
    by (vm_compute; discriminate).
  split; [exact Hnew|]. split; [exact Hold|].
  destruct (C6_stored_size_within_box _ _ _ _ _ _ _ Hnew Hold)
    as (img & _ & Hok & Hdec & _ & Hw & Hh & _).
  exists img. auto.
Defined.

(** C6, counterexample to the bounds as the specification words them: a
    panorama of 1024 by 200 pixels passes the minimum-size check and is
    stored at 512 by 100. *)
Lemma C6_counterexample :
  ~ normalization_bounds (mk_image 1024 200 RGB 1)
  /\ files (snd (download_and_process_image commons_panorama
                   "Erithacus rubecula"
                   "https://upload.wikimedia.org/File:Robin bird.jpg" "better"
                   first_run)) !! "erithacus_rubecula.webp"
     = Some (mk_file 20000 (Some (512, 100))).
Proof.
  split.
  - intros H. specialize (H eq_refl). vm_compute in H.
    destruct H as (_ & _ & _ & H). now apply H.
  - vm_compute. reflexivity.
Qed.

(** *** A declined overwrite *)

(** C10. When [download_and_process_image] reaches the arbiter and the
    arbiter declines, the function returns the WebP file name and the
    files on disk are what they were.  With only the JPEG of the robin on
    disk and the policy [never], the ledger of [main], in memory and on
    disk, then names a WebP file that does not exist. *)
Theorem C10_declined_overwrite_returns_webp_name
  (env : environment) (sci url policy : string) (w w1 : world) (img : image) :
  http_image env (length (log w)) url = Ok img ->
  too_small img = false ->
  _should_overwrite_files
    (_sanitize_filename sci ++ ".webp") (_sanitize_filename sci ++ ".jpg")
    (prepare img) policy sci (emit (EvRequest ("download:" ++ url)) w)
  = (Ok false, w1) ->
  download_and_process_image env sci url policy w
  = (Ok (Some (_sanitize_filename sci ++ ".webp")%string), w1)
  /\ files w1 = files w
  /\ (let w' := snd (main commons (run_with "never") [robin_bird] jpg_on_disk) in
      progress w' !! "Erithacus rubecula" = Some "erithacus_rubecula.webp"
      /\ progress_file w' = Some (progress w')
      /\ files w' !! "erithacus_rubecula.webp" = None
      /\ files w' = files jpg_on_disk).
Proof.
  intros Himg Hok Hdecl. split; [|split].
  - unfold download_and_process_image, try_except, bind, request.
    rewrite Himg. simpl. rewrite Hok. simpl. rewrite Hdecl. reflexivity.
  - pose proof (should_overwrite_files_keeps_files
                  (_sanitize_filename sci ++ ".webp")
                  (_sanitize_filename sci ++ ".jpg")
                  (prepare img) policy sci
                  (emit (EvRequest ("download:" ++ url)) w)) as Hkeep.
    unfold same_files in Hkeep. rewrite Hdecl in Hkeep. exact Hkeep.
  - repeat split; vm_compute; reflexivity.
Qed.

(** C10, witness: the robin, the policy [never], only the JPEG on disk. *)
Lemma C10_witness :
  http_image commons (length (log jpg_on_disk)) "https://upload.wikimedia.org/robin"
  = Ok (mk_image 1024 768 RGB 1)
  /\ too_small (mk_image 1024 768 RGB 1) = false
  /\ download_and_process_image commons "Erithacus rubecula"
       "https://upload.wikimedia.org/robin" "never" jpg_on_disk
     = (Ok (Some "erithacus_rubecula.webp"),
        emit (EvRequest "download:https://upload.wikimedia.org/robin") jpg_on_disk)
  /\ files (emit (EvRequest "download:https://upload.wikimedia.org/robin")
              jpg_on_disk) = files jpg_on_disk.
Proof.
  assert (H1 : http_image commons (length (log jpg_on_disk))
                 "https://upload.wikimedia.org/robin"
               = Ok (mk_image 1024 768 RGB 1)) by reflexivity.
  assert (H2 : too_small (mk_image 1024 768 RGB 1) = false) by reflexivity.
  assert (H3 : _should_overwrite_files
                 (_sanitize_filename "Erithacus rubecula" ++ ".webp")
                 (_sanitize_filename "Erithacus rubecula" ++ ".jpg")
                 (prepare (mk_image 1024 768 RGB 1)) "never" "Erithacus rubecula"
                 (emit (EvRequest ("download:" ++ "https://upload.wikimedia.org/robin"))
                    jpg_on_disk)
               = (Ok false,
                  emit (EvRequest "download:https://upload.wikimedia.org/robin")
                    jpg_on_disk))
    by (vm_compute; reflexivity).
  destruct (C10_declined_overwrite_returns_webp_name _ _ _ _ _ _ _ H1 H2 H3)
    as (Hret & Hfiles & _).
  split; [exact H1|]. split; [exact H2|]. split; [exact Hret | exact Hfiles].
Defined.

End FetcherFacts.

(** ** The run *)

Module MainFacts.
Import Py PyFacts Imaging World Fetcher Main Scenario Claims FetcherFacts.

Lemma log_extends_refl (w : world) : log_extends w w.
Proof. now exists []. Qed.

Lemma log_extends_trans (a b c : world) :
  log_extends a b -> log_extends b c -> log_extends a c.
Proof.
  intros [l1 H1] [l2 H2]. exists (l2 ++ l1).
  now rewrite H2, H1, app_assoc.
Qed.

Lemma log_extends_emit (e : event) (w : world) : log_extends w (emit e w).
Proof. now exists [e]. Qed.

Ltac log_side :=
  first [ apply log_extends_refl | apply log_extends_trans
        | apply log_extends_emit | intros; now exists [] ].

(** [fetch_bird_image] leaves its mark in the log, and what follows only
    adds to the log. *)
Lemma fetch_bird_image_logged (env : environment) (sci common policy : string)
  (w : world) :
  exists l, log (snd (fetch_bird_image env sci common policy w))
            = l ++ EvFetch sci :: log w.
Proof.
  assert (Hrest : stable_under log_extends
            (let* search_results := search_bird_images env sci common in
             match search_results with
             | [] => ret None
             | _ => try_candidates env sci policy (firstn 3 search_results)
             end)).
  { apply stable_bind; [apply log_extends_trans | |].
    - apply stable_search_bird_images; log_side.
    - intros [|r rs]; [apply stable_ret, log_extends_refl|].
      apply stable_try_candidates; log_side. }
  unfold fetch_bird_image, bind at 1. simpl.
  exact (Hrest (emit (EvFetch sci) (set_self bump_download w))).
Qed.

(** *** Resuming *)

Lemma skip_species_tracked (a : args) (w : world) (name entry : string) :
  no_resume a = false -> force_redownload a = false ->
  progress w !! name = Some entry ->
  skip_species a w name
  = if negb (String.eqb entry "")
    then bool_decide (is_Some (files w !! (_sanitize_filename name ++ ".webp")%string))
         || bool_decide (is_Some (files w !! (_sanitize_filename name ++ ".jpg")%string))
    else true.
Proof.
  intros Hr Hf He. unfold skip_species. rewrite Hr, Hf, He.
  rewrite bool_decide_eq_true_2 by eauto. reflexivity.
Qed.

Lemma process_bird_skipped (env : environment) (a : args) (i : Z) (b : bird)
  (w : world) :
  skip_species a w (scientific_name b) = true ->
  process_bird env a i b w = (Ok tt, w).
Proof. intros H. unfold process_bird, bind, get. now rewrite H. Qed.

Lemma process_bird_fetches (env : environment) (a : args) (i : Z) (b : bird)
  (w : world) :
  skip_species a w (scientific_name b) = false ->
  exists l, log (snd (process_bird env a i b w))
            = l ++ EvFetch (scientific_name b) :: log w.
Proof.
  intros H. unfold process_bird, bind at 1, get. rewrite H.
  destruct (fetch_bird_image_logged env (scientific_name b) (common_name b)
              (overwrite a) w) as [l Hl].
  unfold bind.
  destruct (fetch_bird_image _ _ _ _ w) as [[filename|e] w1]; simpl in *.
  - destruct ((i + 1) mod 10 =? 0); simpl.
    + exists (EvProgressSaved
                (<[scientific_name b:=default "" filename]> (progress w1)) :: l).
      now rewrite Hl.
    + now exists l.
  - now exists l.
Qed.

(** When every species of the catalogue is skipped, the loop leaves the
    world as it is: no request, no prompt, no write. *)
Lemma main_loop_all_skipped (env : environment) (a : args) (i : Z)
  (birds : list bird) (w : world) :
  (forall b, In b birds -> skip_species a w (scientific_name b) = true) ->
  main_loop env a i birds w = (Ok tt, w).
Proof.
  revert i. induction birds as [|b rest IH]; intros i Hall; simpl.
  - reflexivity.
  - unfold bind. rewrite process_bird_skipped by (apply Hall; now left).
    apply IH. intros b' Hb'. apply Hall. now right.
Qed.



(** *** Checkpoints *)

(** A run that is not a dry run either exits with status 1 before the
    loop, or runs the loop on some list of birds from some world and then
    saves the ledger and writes the manifest, whatever the loop did. *)
Lemma main_runs_loop_then_saves (env : environment) (a : args)
  (birds : list bird) (w : world) :
  dry_run a = false ->
  fst (main env a birds w) = Ok 1
  \/ exists bs w0,
       main env a birds w
       = (Ok 0,
          let w1 := snd (main_loop env a 0 bs w0) in
          emit EvManifest
            (emit (EvProgressSaved (progress w1))
               (set_progress_file (Some (progress w1)) w1))).
Proof.
  intros Hdry. unfold main.
  destruct birds as [|b0 bs0]; [now left|].
  unfold bind at 1.
  destruct (no_resume a); unfold load_progress, get, ret at 1;
    unfold bind at 1, modify at 1; cbv zeta;
    (destruct (match species a with
               | Some sp =>
                   if String.eqb sp "" then b0 :: bs0
                   else List.filter
                          (fun b => str_in (lower sp) (lower (scientific_name b)))
                          (b0 :: bs0)
               | None => b0 :: bs0
               end) as [|b1 bs1]; [now left|]);
    rewrite Hdry; right;
    unfold bind, modify, try_finally, save_progress, create_manifest, ret;
    match goal with
    | |- context [main_loop env a 0 ?bs ?w0] =>
        exists bs, w0; destruct (main_loop env a 0 bs w0) as [r w1]
    end;
    reflexivity.
Qed.

(** C8 (amended). When a species at a catalogue position divisible by 10
    (counting from 1) has been fetched, the ledger is saved; at the other
    positions it is not; the interval is the constant 10.  Whatever the
    loop does, return or raise, the ledger is saved after it; so a run of
    [main] that gets to the loop ends with the ledger on disk equal to the
    ledger in memory. *)
Theorem C8_checkpoint_cadence_and_final_save (env : environment) (a : args) :
  (forall (i : Z) (b : bird) (w w1 : world) (filename : option string),
     skip_species a w (scientific_name b) = false ->
     fetch_bird_image env (scientific_name b) (common_name b) (overwrite a) w
     = (Ok filename, w1) ->
     exists w2, process_bird env a i b w = (Ok tt, w2)
       /\ progress w2
          = <[scientific_name b := default "" filename]> (progress w1)
       /\ progress_file w2
          = if (i + 1) mod 10 =? 0 then Some (progress w2)
            else progress_file w1)
  /\ (forall (body : M unit) (w : world),
        let w1 := snd (body w) in
        let w2 := snd (try_finally body
                         (let* _ := save_progress in create_manifest) w) in
        progress w2 = progress w1 /\ progress_file w2 = Some (progress w1))
  /\ (forall (birds : list bird) (w : world),
        dry_run a = false -> fst (main env a birds w) = Ok 0 ->
        let w' := snd (main env a birds w) in
        progress_file w' = Some (progress w')
        /\ exists l, log w' = EvManifest :: EvProgressSaved (progress w') :: l).
Proof.
  repeat split.
  - intros i b w w1 filename Hskip Hfetch.
    unfold process_bird, bind at 1, get. rewrite Hskip.
    unfold bind at 1. rewrite Hfetch. unfold bind, modify, save_progress, ret.
    destruct ((i + 1) mod 10 =? 0); eexists; repeat split; reflexivity.
  - unfold try_finally. destruct (body w) as [r w1]. reflexivity.
  - unfold try_finally. destruct (body w) as [r w1]. reflexivity.
  - destruct (main_runs_loop_then_saves env a birds w H) as [H1|(bs & w0 & ->)].
    + rewrite H1 in H0. discriminate.
    + reflexivity.
  - destruct (main_runs_loop_then_saves env a birds w H) as [H1|(bs & w0 & ->)].
    + rewrite H1 in H0. discriminate.
    + eexists. reflexivity.
Qed.

(** C8, witness: offline, the wren at position 10 is fetched without
    success and the ledger is saved at once; and a first run for the robin
    ends with the ledger on disk. *)
Lemma C8_witness :
  (skip_species (run_with "better") first_run (scientific_name wren_bird) = false
   /\ fst (fetch_bird_image offline (scientific_name wren_bird)
             (common_name wren_bird) "better" first_run) = Ok None
   /\ progress_file (snd (process_bird offline (run_with "better") 9 wren_bird
                            first_run))
      = Some {[ "Troglodytes troglodytes" := "" ]})
  /\ (dry_run (run_with "better") = false
      /\ fst (main commons (run_with "better") [robin_bird] first_run) = Ok 0
      /\ progress_file (snd (main commons (run_with "better") [robin_bird]
                               first_run))
         = Some (progress (snd (main commons (run_with "better") [robin_bird]
                                  first_run)))).
Proof.
  destruct (C8_checkpoint_cadence_and_final_save offline (run_with "better"))
    as (Hcadence & _ & _).
  destruct (C8_checkpoint_cadence_and_final_save commons (run_with "better"))
    as (_ & _ & Hfinal).
  split.
  - assert (Hskip : skip_species (run_with "better") first_run
                      (scientific_name wren_bird) = false) by reflexivity.
    split; [exact Hskip|].
    destruct (fetch_bird_image offline (scientific_name wren_bird)
                (common_name wren_bird) (overwrite (run_with "better")) first_run)
      as [r w1] eqn:Hfetch.
    assert (Hr : r = Ok None)
      by (apply (f_equal fst) in Hfetch; vm_compute in Hfetch; congruence).
    subst r. split; [reflexivity|].
    destruct (Hcadence 9 wren_bird first_run w1 None Hskip Hfetch)
      as (w2 & Hrun & Hledger & Hfile).
    rewrite Hrun. simpl snd. rewrite Hfile, Hledger. simpl.
    apply (f_equal snd) in Hfetch. simpl in Hfetch. subst w1.
    vm_compute. reflexivity.
  - assert (Hdry : dry_run (run_with "better") = false) by reflexivity.
    assert (Hexit : fst (main commons (run_with "better") [robin_bird] first_run)
                    = Ok 0) by (vm_compute; reflexivity).
    split; [exact Hdry|]. split; [exact Hexit|].
    exact (proj1 (Hfinal [robin_bird] first_run Hdry Hexit)).
Defined.

(** C8, counterexample to the cadence as the specification words it.  Of
    twelve species the tenth is already in the ledger and is skipped, and
    the check that saves the ledger is skipped with it: the run fetches
    eleven species one after the other with no save in between. *)
Lemma C8_counterexample :
  let w := snd (main offline (run_with "better") twelve_birds
                  tenth_failed_before) in
  fst (main offline (run_with "better") twelve_birds tenth_failed_before) = Ok 0
  /\ checkpointed_every 10 0 (rev (log w)) = false.
Proof. split; vm_compute; reflexivity. Qed.

End MainFacts.


(** * Further properties *)

(** ** Sanitized names *)

Module NameFacts.
Import Py PyFacts World Fetcher Main Observe.

Lemma kept_char_lowered_is_safe (c : ascii) :
  alnum_or_dash c = true -> is_safe_char (lower_ascii c) = true.
Proof.
  destruct c as [[] [] [] [] [] [] [] []]; vm_compute; congruence.
Qed.

Lemma safe_char_facts (c : ascii) :
  is_safe_char c = true ->
  alnum_or_dash c = true /\ lower_ascii c = c
  /\ Ascii.eqb c " " = false /\ Ascii.eqb c "." = false
  /\ Ascii.eqb c "," = false.
Proof.
  destruct c as [[] [] [] [] [] [] [] []]; vm_compute; intros H;
    try discriminate H; repeat split.
Qed.

Lemma lower_kept_is_safe (s : string) :
  all_chars is_safe_char (lower (keep_chars alnum_or_dash s)) = true.
Proof.
  induction s as [|c s IH]; simpl; [reflexivity|].
  destruct (alnum_or_dash c) eqn:E; simpl; [|exact IH].
  now rewrite kept_char_lowered_is_safe, IH.
Qed.

Lemma replace_char_absent (old : ascii) (new s : string) :
  all_chars (fun c => negb (Ascii.eqb c old)) s = true ->
  replace_char old new s = s.
Proof.
  induction s as [|c s IH]; simpl; [reflexivity|].
  intros H. apply andb_true_iff in H as [Hc Hs].
  apply negb_true_iff in Hc. rewrite Hc. now rewrite IH.
Qed.

Lemma all_chars_impl (p q : ascii -> bool) (s : string) :
  (forall c, p c = true -> q c = true) ->
  all_chars p s = true -> all_chars q s = true.
Proof.
  intros Hpq. induction s as [|c s IH]; simpl; [reflexivity|].
  intros H. apply andb_true_iff in H as [Hc Hs].
  now rewrite (Hpq _ Hc), IH.
Qed.

Lemma sanitize_safe_name (s : string) :
  all_chars is_safe_char s = true -> _sanitize_filename s = s.
Proof.
  intros Hs. unfold _sanitize_filename.
  rewrite !replace_char_absent.
  - induction s as [|c s IH]; simpl; [reflexivity|].
    simpl in Hs. apply andb_true_iff in Hs as [Hc Hs].
    destruct (safe_char_facts c Hc) as (Ha & Hl & _).
    rewrite Ha. simpl. now rewrite Hl, IH.
  - eapply all_chars_impl; [|exact Hs]. intros c Hc.
    now destruct (safe_char_facts c Hc) as (_ & _ & -> & _ & _).
  - rewrite replace_char_absent.
    + eapply all_chars_impl; [|exact Hs]. intros c Hc.
      now destruct (safe_char_facts c Hc) as (_ & _ & _ & -> & _).
    + eapply all_chars_impl; [|exact Hs]. intros c Hc.
      now destruct (safe_char_facts c Hc) as (_ & _ & -> & _ & _).
  - rewrite !replace_char_absent.
    + eapply all_chars_impl; [|exact Hs]. intros c Hc.
      now destruct (safe_char_facts c Hc) as (_ & _ & _ & _ & ->).
    + eapply all_chars_impl; [|exact Hs]. intros c Hc.
      now destruct (safe_char_facts c Hc) as (_ & _ & -> & _ & _).
    + rewrite replace_char_absent.
      * eapply all_chars_impl; [|exact Hs]. intros c Hc.
        now destruct (safe_char_facts c Hc) as (_ & _ & _ & -> & _).
      * eapply all_chars_impl; [|exact Hs]. intros c Hc.
        now destruct (safe_char_facts c Hc) as (_ & _ & -> & _ & _).
Qed.

(** X1. A sanitized name consists of lower-case letters, digits,
    underscores and hyphens only, and sanitizing it again changes
    nothing. *)
Theorem X1_sanitized_name_is_safe_and_stable (name : string) :
  all_chars is_safe_char (_sanitize_filename name) = true
  /\ _sanitize_filename (_sanitize_filename name) = _sanitize_filename name.
Proof.
  assert (H : all_chars is_safe_char (_sanitize_filename name) = true)
    by apply lower_kept_is_safe.
  split; [exact H | now apply sanitize_safe_name].
Qed.

End NameFacts.

(** ** Statistics and manifest *)

Module LedgerFacts.
Import Py PyFacts Main Ledger.

Lemma count_if_split {A} (p : A -> bool) (l : list A) :
  count_if p l + count_if (fun x => negb (p x)) l = Z.of_nat (length l).
Proof.
  unfold count_if. induction l as [|x l IH]; simpl; [reflexivity|].
  destruct (p x); simpl; lia.
Qed.

Lemma count_if_bounds {A} (p : A -> bool) (l : list A) :
  0 <= count_if p l <= Z.of_nat (length l).
Proof.
  pose proof (count_if_split p l) as H.
  unfold count_if in *. lia.
Qed.

Lemma length_values (progress : gmap string string) :
  length (values progress) = size progress.
Proof. unfold values. now rewrite length_map, length_map_to_list. Qed.

(** X2. In the statistics of a ledger the successful and the failed
    entries add up to the total; the completion rate lies between 0 and
    100, is 0 for the empty ledger (no division by zero), and is 100
    exactly when there are entries and none of them failed. *)
Theorem X2_progress_stats_add_up (progress : gmap string string) :
  let st := get_progress_stats progress in
  successful st + failed st = total_entries st
  /\ 0 <= successful st /\ 0 <= failed st
  /\ (0 <= completion_rate st <= 100)%Q
  /\ (total_entries st = 0 -> (completion_rate st == 0)%Q)
  /\ ((completion_rate st == 100)%Q <-> 0 < total_entries st /\ failed st = 0).
Proof.
  cbv zeta. unfold get_progress_stats. simpl.
  pose proof (count_if_split nonempty (values progress)) as Hsum.
  pose proof (count_if_bounds nonempty (values progress)) as [Hs0 Hs1].
  pose proof (count_if_bounds (fun f => negb (nonempty f)) (values progress))
    as [Hf0 Hf1].
  rewrite length_values in *.
  set (s := count_if nonempty (values progress)) in *.
  set (f := count_if (fun f => negb (nonempty f)) (values progress)) in *.
  set (t := Z.of_nat (size progress)) in *.
  clearbody s f t.
  assert (Hm : 1 <= Z.max t 1) by lia.
  assert (Hmq : (0 < inject_Z (Z.max t 1))%Q)
    by (change 0%Q with (inject_Z 0); rewrite <- Zlt_Qlt; lia).
  assert (Hsq : (0 <= inject_Z s)%Q)
    by (change 0%Q with (inject_Z 0); now rewrite <- Zle_Qle).
  assert (Hsm : (inject_Z s <= inject_Z (Z.max t 1))%Q)
    by (rewrite <- Zle_Qle; lia).
  assert (Hdiv0 : (0 <= inject_Z s / inject_Z (Z.max t 1))%Q)
    by (apply Qle_shift_div_l; [exact Hmq | lra]).
  assert (Hdiv1 : (inject_Z s / inject_Z (Z.max t 1) <= 1)%Q)
    by (apply Qle_shift_div_r; [exact Hmq | lra]).
  repeat split; try lia; try lra.
  - intros Ht. assert (s = 0) as -> by lia.
    unfold Qdiv. rewrite Qmult_0_l. reflexivity.
  - destruct (Z.eq_dec t 0) as [Ht|Ht]; [|lia].
    exfalso. assert (s = 0) as Hs by lia. rewrite Hs in H.
    unfold Qdiv in H. rewrite Qmult_0_l in H. discriminate H.
  - assert (Hone : (inject_Z s / inject_Z (Z.max t 1) == 1)%Q) by lra.
    assert (Heq : (inject_Z s == inject_Z (Z.max t 1))%Q).
    { rewrite <- (Qmult_div_r (inject_Z s) (inject_Z (Z.max t 1)))
        by (intros E; rewrite E in Hmq; now apply Qlt_irrefl in Hmq).
      rewrite Hone. ring. }
    unfold Qeq in Heq. simpl in Heq. lia.
  - intros [Ht Hf]. assert (Hst : s = Z.max t 1) by lia.
    rewrite Hst. field. intros E. rewrite E in Hmq. now apply Qlt_irrefl in Hmq.
Qed.

(** *** The manifest *)

Lemma add_images_origin (progress : gmap string string) (birds : list bird)
  (m : gmap string image_entry) (name : string) (e : image_entry) :
  add_images progress birds m !! name = Some e ->
  (exists b, In b birds /\ scientific_name b = name
     /\ e = mk_image_entry (common_name b) (species_code b) (family b)
              (progress !! name) (Fetcher.truthy (progress !! name)))
  \/ m !! name = Some e.
Proof.
  revert m. induction birds as [|b rest IH]; intros m H; simpl in H.
  - now right.
  - destruct (IH _ H) as [(b' & Hin & Hn & He)|Hm].
    + left. exists b'. split; [now right | now split].
    + rewrite lookup_insert in Hm. case_decide as Hd.
      * left. exists b. split; [now left|]. split; [exact Hd|].
        injection Hm as <-. now rewrite Hd.
      * now right.
Qed.

Lemma add_images_keeps (progress : gmap string string) (birds : list bird)
  (m : gmap string image_entry) (name : string) :
  is_Some (m !! name) -> is_Some (add_images progress birds m !! name).
Proof.
  revert m. induction birds as [|b rest IH]; intros m H; simpl; [exact H|].
  apply IH. rewrite lookup_insert_is_Some. 
  destruct (decide (scientific_name b = name)); [now left | now right].
Qed.

Lemma add_images_size (progress : gmap string string) (birds : list bird)
  (m : gmap string image_entry) :
  (size (add_images progress birds m) <= size m + length birds)%nat.
Proof.
  revert m. induction birds as [|b rest IH]; intros m; simpl; [lia|].
  specialize (IH (<[scientific_name b :=
                     mk_image_entry (common_name b) (species_code b) (family b)
                       (progress !! scientific_name b)
                       (Fetcher.truthy (progress !! scientific_name b))]> m)).
  rewrite map_size_insert in IH.
  destruct (m !! scientific_name b); simpl in IH; lia.
Qed.

(** X3. The manifest has an entry for every bird of the catalogue and no
    other entry; each entry carries the ledger's file name for that
    species, and [has_image] exactly when that name is there and not
    empty; there are at most [total_species] entries (fewer when a name
    occurs twice), and [downloaded_images] is the number of successful
    ledger entries, whether or not their species are in the catalogue. *)
Theorem X3_manifest_follows_the_ledger
  (progress : gmap string string) (birds : list bird) :
  let m := build_manifest progress birds in
  (forall b, In b birds -> is_Some (images m !! scientific_name b))
  /\ (forall name e, images m !! name = Some e ->
        image_file e = progress !! name
        /\ (has_image e = true <->
            exists f, progress !! name = Some f /\ f <> "")
        /\ exists b, In b birds /\ scientific_name b = name
             /\ entry_common_name e = common_name b
             /\ entry_species_code e = species_code b
             /\ entry_family e = family b)
  /\ Z.of_nat (size (images m)) <= total_species m
  /\ total_species m = Z.of_nat (length birds)
  /\ downloaded_images m = successful (get_progress_stats progress).
Proof.
  cbv zeta. unfold build_manifest. simpl. repeat split.
  - intros b Hin. induction birds as [|b0 rest IH] in Hin |- *; [destruct Hin|].
    revert Hin. generalize (∅ : gmap string image_entry).
    induction (b0 :: rest) as [|x l IHl]; intros m Hin; [destruct Hin|].
    simpl. destruct Hin as [->|Hin].
    + apply add_images_keeps. rewrite lookup_insert_is_Some. now left.
    + now apply IHl.
  - apply add_images_origin in H as [(b & _ & _ & ->)|H]; [reflexivity|].
    now rewrite lookup_empty in H.
  - apply add_images_origin in H as [(b & _ & _ & ->)|H];
      [|now rewrite lookup_empty in H].
    simpl. intros Ht. destruct (progress !! name) as [f|]; [|discriminate].
    exists f. split; [reflexivity|]. simpl in Ht.
    apply negb_true_iff, String.eqb_neq in Ht. exact Ht.
  - apply add_images_origin in H as [(b & _ & _ & ->)|H];
      [|now rewrite lookup_empty in H].
    simpl. intros (f & -> & Hf). simpl.
    apply negb_true_iff, String.eqb_neq. exact Hf.
  - apply add_images_origin in H as [(b & Hin & Hn & ->)|H];
      [|now rewrite lookup_empty in H].
    exists b. simpl. auto.
  - pose proof (add_images_size progress birds ∅) as H.
    rewrite map_size_empty in H. lia.
Qed.

End LedgerFacts.

(** ** The catalogue *)

Module CatalogFacts.
Import Py PyFacts Main Catalog.

Lemma rstrip_idem (s : string) : rstrip (rstrip s) = rstrip s.
Proof.
  induction s as [|c s IH]; simpl; [reflexivity|].
  destruct (rstrip s) as [|d r] eqn:E.
  - destruct (isspace c) eqn:Hc; simpl; [reflexivity|]. now rewrite Hc.
  - change (rstrip (String c (String d r))) with
      (match rstrip (String d r) with
       | EmptyString => if isspace c then EmptyString else String c EmptyString
       | r' => String c r'
       end).
    now rewrite IH.
Qed.

Lemma lstrip_head (s : string) :
  lstrip s = EmptyString
  \/ exists c r, lstrip s = String c r /\ isspace c = false.
Proof.
  induction s as [|c s IH]; simpl; [now left|].
  destruct (isspace c) eqn:Hc; [exact IH|]. right. now exists c, s.
Qed.

Lemma rstrip_head (c : ascii) (s : string) :
  isspace c = false -> exists r, rstrip (String c s) = String c r.
Proof.
  intros Hc. simpl. destruct (rstrip s) as [|d r].
  - rewrite Hc. now exists EmptyString.
  - now exists (String d r).
Qed.

(** Stripping twice is stripping once: a stripped field has no white
    space left at either end. *)
Lemma strip_idem (s : string) : strip (strip s) = strip s.
Proof.
  unfold strip. destruct (lstrip_head s) as [->|(c & r & -> & Hc)].
  - reflexivity.
  - destruct (rstrip_head c r Hc) as [r' Hr]. rewrite Hr.
    simpl lstrip. rewrite Hc. rewrite <- Hr. apply rstrip_idem.
Qed.

Lemma load_row_loaded (r : row) (b : bird) :
  load_row r = Loaded b ->
  exists name english code fam,
    row_get r "scientific name" = Some name
    /\ name <> "" /\ String.prefix "Clements" name = false
    /\ row_get r "category" = Some "species"
    /\ row_get_or_empty r "English name" = Some english
    /\ row_get_or_empty r "species_code" = Some code
    /\ row_get_or_empty r "family" = Some fam
    /\ b = mk_bird (strip name) (strip english) (strip code) (strip fam).
Proof.
  unfold load_row. intros H.
  destruct (row_get r "scientific name") as [name|]; [|discriminate].
  destruct (String.eqb name "") eqn:Hn; [discriminate|].
  destruct (String.prefix "Clements" name) eqn:Hc; [discriminate|].
  simpl in H.
  destruct (row_get r "category") as [category|]; [|discriminate].
  destruct (String.eqb category "species") eqn:Hcat; [|discriminate].
  apply String.eqb_eq in Hcat. subst category.
  destruct (row_get_or_empty r "English name") as [english|]; [|discriminate].
  destruct (row_get_or_empty r "species_code") as [code|]; [|discriminate].
  destruct (row_get_or_empty r "family") as [fam|]; [|discriminate].
  injection H as <-. exists name, english, code, fam.
  apply String.eqb_neq in Hn. repeat split; assumption || reflexivity.
Qed.

Lemma load_rows_some (rows : list row) :
  (forall r, In r rows -> load_row r <> Failed) ->
  load_rows rows
  = Some (flat_map (fun r => match load_row r with
                             | Loaded b => [b]
                             | _ => []
                             end) rows).
Proof.
  induction rows as [|r rest IH]; intros Hok; simpl; [reflexivity|].
  assert (Hr : load_row r <> Failed) by (apply Hok; now left).
  rewrite IH by (intros r' Hr'; apply Hok; now right).
  destruct (load_row r); [reflexivity | reflexivity | contradiction].
Qed.

Lemma load_rows_none (rows : list row) (r : row) :
  In r rows -> load_row r = Failed -> load_rows rows = None.
Proof.
  induction rows as [|x rest IH]; intros Hin Hf; [destruct Hin|]. simpl.
  destruct Hin as [->|Hin]; [now rewrite Hf|].
  rewrite (IH Hin Hf). now destruct (load_row x).
Qed.

(** X4. [load_birds_from_csv] is all or nothing.  When no row raises, it
    returns one bird for each row that has a non-empty scientific name not
    starting with [Clements] and the category [species], in the order of
    the rows, with every field stripped of outer white space.  When a
    single such row has a field missing ([None], as in a short row), or
    the file cannot be read, it returns the empty list. *)
Theorem X4_catalogue_is_all_or_nothing (rows : list row) :
  ((forall r, In r rows -> load_row r <> Failed) ->
   load_birds_from_csv (Some rows)
   = flat_map (fun r => match load_row r with
                        | Loaded b => [b]
                        | _ => []
                        end) rows)
  /\ ((exists r, In r rows /\ load_row r = Failed) ->
      load_birds_from_csv (Some rows) = [])
  /\ load_birds_from_csv None = []
  /\ (forall b, In b (load_birds_from_csv (Some rows)) ->
        exists r name, In r rows
          /\ row_get r "scientific name" = Some name
          /\ name <> "" /\ String.prefix "Clements" name = false
          /\ row_get r "category" = Some "species"
          /\ scientific_name b = strip name
          /\ strip (scientific_name b) = scientific_name b
          /\ strip (common_name b) = common_name b
          /\ strip (species_code b) = species_code b
          /\ strip (family b) = family b).
Proof.
  split; [|split; [|split]].
  - intros Hok. unfold load_birds_from_csv. now rewrite load_rows_some.
  - intros (r & Hin & Hf). unfold load_birds_from_csv.
    now rewrite (load_rows_none rows r Hin Hf).
  - reflexivity.
  - unfold load_birds_from_csv.
    assert (H : forall birds, load_rows rows = Some birds ->
              forall b, In b birds -> exists r, In r rows /\ load_row r = Loaded b).
    { induction rows as [|x rest IH]; simpl; intros birds Hl b Hb.
      - injection Hl as <-. destruct Hb.
      - destruct (load_row x) as [|b0|] eqn:Hx; [| |discriminate].
        + destruct (IH _ Hl b Hb) as (r & Hr & Hrb). exists r. auto.
        + destruct (load_rows rest) as [birds'|]; [|discriminate].
          injection Hl as <-. destruct Hb as [<-|Hb].
          * exists x. auto.
          * destruct (IH _ eq_refl b Hb) as (r & Hr & Hrb). exists r. auto. }
    destruct (load_rows rows) as [birds|]; [|intros b []].
    intros b Hb. destruct (H birds eq_refl b Hb) as (r & Hr & Hrb).
    apply load_row_loaded in Hrb
      as (name & english & code & fam & H1 & H2 & H3 & H4 & _ & _ & _ & ->).
    exists r, name. simpl. rewrite !strip_idem. repeat split; assumption.
Qed.

(** X4, witness: of three well-formed rows only the species is loaded,
    stripped; with a short row after it nothing is. *)
Lemma X4_witness :
  load_birds_from_csv (Some [Cases.robin_row; Cases.family_row; Cases.title_row])
  = [mk_bird "Erithacus rubecula" "European Robin" "eurrob1" "Muscicapidae"]
  /\ load_birds_from_csv (Some [Cases.robin_row; Cases.short_row]) = [].
Proof.
  split.
  - destruct (X4_catalogue_is_all_or_nothing
                [Cases.robin_row; Cases.family_row; Cases.title_row])
      as (H & _).
    rewrite H; [vm_compute; reflexivity|].
    intros r [<-|[<-|[<-|[]]]]; vm_compute; discriminate.
  - destruct (X4_catalogue_is_all_or_nothing
                [Cases.robin_row; Cases.short_row]) as (_ & H & _).
    apply H. exists Cases.short_row. split; [right; now left|].
    vm_compute. reflexivity.
Defined.

End CatalogFacts.

(** ** Failures *)

Module FailureFacts.
Import Py PyFacts Imaging World Fetcher Main Observe.

Lemma never_raises_ret (e : exn) {A} (a : A) : never_raises e (ret a).
Proof. intros w. discriminate. Qed.

Lemma never_raises_get (e : exn) {A} (f : world -> A) : never_raises e (get f).
Proof. intros w. discriminate. Qed.

Lemma never_raises_modify (e : exn) (f : world -> world) :
  never_raises e (modify f).
Proof. intros w. discriminate. Qed.

Lemma never_raises_bind (e : exn) {A B} (m : M A) (k : A -> M B) :
  never_raises e m -> (forall a, never_raises e (k a)) ->
  never_raises e (bind m k).
Proof.
  intros Hm Hk w. unfold bind. specialize (Hm w).
  destruct (m w) as [[a|e'] w1]; simpl in *; [apply Hk|].
  intros [= ->]. now apply Hm.
Qed.

(** [except Exception] stops every [Exception] of its body. *)
Lemma never_raises_try_except (e : exn) {A} (body handler : M A) :
  (e = Exception \/ never_raises e body) -> never_raises e handler ->
  never_raises e (try_except body handler).
Proof.
  intros Hb Hh w. unfold try_except.
  destruct (body w) as [[a|[|]] w1] eqn:E; simpl.
  - discriminate.
  - destruct Hb as [->|Hb]; [discriminate|].
    specialize (Hb w). now rewrite E in Hb.
  - apply Hh.
Qed.

Ltac never_step :=
  first
    [ apply never_raises_ret | apply never_raises_get
    | apply never_raises_modify
    | apply never_raises_bind; [|intros ?]
    | match goal with
      | |- never_raises _ (if ?b then _ else _) => destruct b
      | |- never_raises _ (match ?x with _ => _ end) => destruct x
      end ].

(** *** No [Exception] leaves the fetcher *)

Lemma search_commons_images_catches (env : environment) (term : string) :
  never_raises Exception (_search_commons_images env term).
Proof.
  unfold _search_commons_images.
  apply never_raises_try_except; [now left | never_step].
Qed.

Lemma search_loop_catches (env : environment) (sci : string)
  (terms : list string) (acc : list result) :
  never_raises Exception (search_loop env sci terms acc).
Proof.
  revert acc. induction terms as [|term rest IH]; intros acc; simpl.
  - never_step.
  - destruct (String.eqb term ""); [apply IH|].
    apply never_raises_bind.
    + apply never_raises_try_except; [now left | never_step].
    + intros [acc' stop]. destruct stop; [never_step | apply IH].
Qed.

Lemma search_bird_images_catches (env : environment) (sci common : string) :
  never_raises Exception (search_bird_images env sci common).
Proof.
  unfold search_bird_images.
  apply never_raises_bind; [apply search_loop_catches | intros ?; never_step].
Qed.

Lemma get_image_info_catches (env : environment) (filename : string) :
  never_raises Exception (get_image_info env filename).
Proof.
  unfold get_image_info.
  apply never_raises_try_except; [now left | never_step].
Qed.

Lemma download_and_process_image_catches (env : environment)
  (sci url policy : string) :
  never_raises Exception (download_and_process_image env sci url policy).
Proof.
  unfold download_and_process_image.
  apply never_raises_try_except; [now left | repeat never_step].
Qed.

Lemma try_candidate_catches (env : environment) (sci policy : string)
  (r : result) : never_raises Exception (try_candidate env sci policy r).
Proof.
  unfold try_candidate.
  apply never_raises_try_except; [now left | never_step].
Qed.

Lemma try_candidates_catches (env : environment) (sci policy : string)
  (rs : list result) : never_raises Exception (try_candidates env sci policy rs).
Proof.
  induction rs as [|r rest IH]; simpl; [never_step|].
  apply never_raises_bind; [apply try_candidate_catches|].
  intros [f|]; [never_step | exact IH].
Qed.

Lemma fetch_bird_image_catches (env : environment) (sci common policy : string) :
  never_raises Exception (fetch_bird_image env sci common policy).
Proof.
  unfold fetch_bird_image.
  apply never_raises_bind; [apply never_raises_modify|]. intros _.
  apply never_raises_bind; [apply search_bird_images_catches|].
  intros [|r rs]; [never_step | apply try_candidates_catches].
Qed.

(** *** No interrupt without the keyboard *)

Section Uninterrupted.

Variable env : environment.
Hypothesis quiet : never_interrupts env.

Lemma request_search_quiet (what term : string) :
  never_raises KeyboardInterrupt
    (request what (fun t => commons_search env t term)).
Proof. intros w. unfold request. simpl. apply quiet. Qed.

Lemma request_imageinfo_quiet (what name : string) :
  never_raises KeyboardInterrupt
    (request what (fun t => commons_imageinfo env t name)).
Proof. intros w. unfold request. simpl. apply quiet. Qed.

Lemma request_image_quiet (what url : string) :
  never_raises KeyboardInterrupt
    (request what (fun t => http_image env t url)).
Proof. intros w. unfold request. simpl. apply quiet. Qed.

Lemma input_quiet (name : string) : never_raises KeyboardInterrupt (input name).
Proof. intros w. unfold input. destruct (stdin w); discriminate. Qed.

Lemma image_open_size_quiet (path : string) :
  never_raises KeyboardInterrupt (image_open_size path).
Proof.
  intros w. unfold image_open_size.
  destruct (files w !! path) as [f|]; [destruct (decoded f)|]; discriminate.
Qed.

Lemma stat_st_size_quiet (path : string) :
  never_raises KeyboardInterrupt (stat_st_size path).
Proof.
  intros w. unfold stat_st_size. destruct (files w !! path); discriminate.
Qed.

Ltac quiet_step :=
  first
    [ apply request_search_quiet | apply request_imageinfo_quiet
    | apply request_image_quiet | apply input_quiet
    | apply image_open_size_quiet | apply stat_st_size_quiet
    | apply never_raises_try_except; [right|]
    | never_step ].

Lemma search_commons_images_quiet (term : string) :
  never_raises KeyboardInterrupt (_search_commons_images env term).
Proof. unfold _search_commons_images. repeat quiet_step. Qed.

Lemma search_loop_quiet (sci : string) (terms : list string)
  (acc : list result) :
  never_raises KeyboardInterrupt (search_loop env sci terms acc).
Proof.
  revert acc. induction terms as [|term rest IH]; intros acc; simpl.
  - never_step.
  - destruct (String.eqb term ""); [apply IH|].
    apply never_raises_bind.
    + apply never_raises_try_except; [right|never_step].
      apply never_raises_bind; [apply search_commons_images_quiet|].
      intros ?. never_step.
    + intros [acc' stop]. destruct stop; [never_step | apply IH].
Qed.

Lemma is_new_image_better_quiet (webp jpg : string) (img : image) :
  never_raises KeyboardInterrupt (_is_new_image_better webp jpg img).
Proof. unfold _is_new_image_better, path_exists. repeat quiet_step. Qed.

Lemma should_overwrite_files_quiet (webp jpg : string) (img : image)
  (policy sci : string) :
  never_raises KeyboardInterrupt
    (_should_overwrite_files webp jpg img policy sci).
Proof.
  unfold _should_overwrite_files, path_exists.
  repeat first [apply is_new_image_better_quiet | quiet_step].
Qed.

Lemma download_and_process_image_quiet (sci url policy : string) :
  never_raises KeyboardInterrupt
    (download_and_process_image env sci url policy).
Proof.
  unfold download_and_process_image, image_save.
  repeat first [apply should_overwrite_files_quiet | quiet_step].
Qed.

Lemma try_candidate_quiet (sci policy : string) (r : result) :
  never_raises KeyboardInterrupt (try_candidate env sci policy r).
Proof.
  unfold try_candidate, get_image_info.
  repeat first [apply download_and_process_image_quiet | quiet_step].
Qed.

Lemma try_candidates_quiet (sci policy : string) (rs : list result) :
  never_raises KeyboardInterrupt (try_candidates env sci policy rs).
Proof.
  induction rs as [|r rest IH]; simpl; [never_step|].
  apply never_raises_bind; [apply try_candidate_quiet|].
  intros [f|]; [never_step | exact IH].
Qed.

Lemma fetch_bird_image_quiet (sci common policy : string) :
  never_raises KeyboardInterrupt (fetch_bird_image env sci common policy).
Proof.
  unfold fetch_bird_image, search_bird_images.
  apply never_raises_bind; [apply never_raises_modify|]. intros _.
  apply never_raises_bind.
  - apply never_raises_bind; [apply search_loop_quiet | intros ?; never_step].
  - intros [|r rs]; [never_step | apply try_candidates_quiet].
Qed.

End Uninterrupted.

Lemma returns_when_nothing_raised {A} (m : M A) (w : world) :
  never_raises Exception m -> never_raises KeyboardInterrupt m ->
  exists a, fst (m w) = Ok a.
Proof.
  intros H1 H2. specialize (H1 w). specialize (H2 w).
  destruct (fst (m w)) as [a|[|]]; [now exists a | contradiction..].
Qed.


Lemma commons_never_interrupts : never_interrupts Scenario.commons.
Proof. repeat split; intros; discriminate. Qed.


End FailureFacts.

(** ** What a run adds to the log *)

Module TrafficFacts.
Import Py PyFacts Imaging World Fetcher Main Observe.

Lemma count_events_app (p : event -> bool) (l1 l2 : list event) :
  count_events p (l1 ++ l2) = (count_events p l1 + count_events p l2)%nat.
Proof. induction l1 as [|e l1 IH]; simpl; [reflexivity | rewrite IH; lia]. Qed.

Section Budget.

Variable p : event -> bool.

(** The world is left as it was: nothing is logged. *)
Lemma logs_nothing {A} (m : M A) (n : nat) :
  (forall w, snd (m w) = w) -> logs_at_most p n m.
Proof. intros H w. exists []. rewrite H. split; [reflexivity | simpl; lia]. Qed.

Lemma logs_ret {A} (a : A) (n : nat) : logs_at_most p n (ret a).
Proof. now apply logs_nothing. Qed.

Lemma logs_get {A} (f : world -> A) (n : nat) : logs_at_most p n (get f).
Proof. now apply logs_nothing. Qed.

Lemma logs_unlogged (f : world -> world) (n : nat) :
  (forall w, log (f w) = log w) -> logs_at_most p n (modify f).
Proof.
  intros H w. exists []. simpl. rewrite H. split; [reflexivity | lia].
Qed.

(** The budget [n] pays for [m], what is left of it for the rest. *)
Lemma logs_bind {A B} (n1 n : nat) (m : M A) (k : A -> M B) :
  logs_at_most p n1 m -> (n1 <= n)%nat ->
  (forall a, logs_at_most p (n - n1) (k a)) ->
  logs_at_most p n (bind m k).
Proof.
  intros Hm Hle Hk w. unfold bind. destruct (Hm w) as (l1 & E1 & C1).
  destruct (m w) as [[a|e] w1]; simpl in *.
  - destruct (Hk a w1) as (l2 & E2 & C2). exists (l2 ++ l1).
    rewrite E2, E1, app_assoc, count_events_app. split; [reflexivity | lia].
  - exists l1. split; [exact E1 | lia].
Qed.

Lemma logs_try_except {A} (n1 n : nat) (body handler : M A) :
  logs_at_most p n1 body -> (n1 <= n)%nat ->
  logs_at_most p (n - n1) handler ->
  logs_at_most p n (try_except body handler).
Proof.
  intros Hb Hle Hh w. unfold try_except. destruct (Hb w) as (l1 & E1 & C1).
  destruct (body w) as [[a|[|]] w1]; simpl in *;
    try (exists l1; split; [exact E1 | lia]).
  destruct (Hh w1) as (l2 & E2 & C2). exists (l2 ++ l1).
  rewrite E2, E1, app_assoc, count_events_app. split; [reflexivity | lia].
Qed.

Lemma logs_weaken {A} (n1 n : nat) (m : M A) :
  logs_at_most p n1 m -> (n1 <= n)%nat -> logs_at_most p n m.
Proof.
  intros Hm Hle w. destruct (Hm w) as (l & E & C). exists l. split; [exact E | lia].
Qed.

(** What one event of each kind costs. *)
Variables c_request c_prompt c_saved c_fetch c_checkpoint : nat.
Hypothesis request_cost :
  forall what, ((if p (EvRequest what) then 1 else 0) <= c_request)%nat.
Hypothesis prompt_cost :
  forall name, ((if p (EvPrompt name) then 1 else 0) <= c_prompt)%nat.
Hypothesis saved_cost :
  forall path, ((if p (EvImageSaved path) then 1 else 0) <= c_saved)%nat.
Hypothesis fetch_cost :
  forall name, ((if p (EvFetch name) then 1 else 0) <= c_fetch)%nat.
Hypothesis checkpoint_cost :
  forall ledger, ((if p (EvProgressSaved ledger) then 1 else 0) <= c_checkpoint)%nat.

Lemma logs_request {A} (what : string) (reply : nat -> outcome A) :
  logs_at_most p c_request (request what reply).
Proof.
  intros w. exists [EvRequest what]. split; [reflexivity|].
  simpl. specialize (request_cost what). lia.
Qed.

Lemma logs_input (name : string) : logs_at_most p c_prompt (input name).
Proof.
  intros w. exists [EvPrompt name]. unfold input.
  split; [now destruct (stdin w)|]. simpl. specialize (prompt_cost name). lia.
Qed.

Lemma logs_image_save (env : environment) (img : image) (path format : string)
  (quality : Z) :
  logs_at_most p c_saved (image_save env img path format quality).
Proof.
  intros w. exists [EvImageSaved path]. split; [reflexivity|].
  simpl. specialize (saved_cost path). lia.
Qed.

Lemma logs_image_open_size (path : string) (n : nat) :
  logs_at_most p n (image_open_size path).
Proof.
  apply logs_nothing. intros w. unfold image_open_size.
  destruct (files w !! path) as [f|]; [destruct (decoded f)|]; reflexivity.
Qed.

Lemma logs_stat_st_size (path : string) (n : nat) :
  logs_at_most p n (stat_st_size path).
Proof.
  apply logs_nothing. intros w. unfold stat_st_size.
  now destruct (files w !! path).
Qed.

(** One step through straight-line code: the budget of a primitive effect
    is taken from what is left. *)
Ltac logs_step :=
  first
    [ apply logs_ret | apply logs_get
    | apply logs_unlogged; intros ?; reflexivity
    | apply logs_image_open_size | apply logs_stat_st_size
    | eapply logs_weaken; [apply logs_request | lia]
    | eapply logs_weaken; [apply logs_input | lia]
    | eapply logs_weaken; [apply logs_image_save | lia]
    | eapply logs_bind; [apply logs_request | lia | intros ?]
    | eapply logs_bind; [apply logs_input | lia | intros ?]
    | eapply logs_bind; [apply logs_image_save | lia | intros ?]
    | eapply (logs_bind 0);
        [first [ apply logs_get | apply logs_image_open_size
               | apply logs_stat_st_size
               | apply logs_unlogged; intros ?; reflexivity ]
        | lia | intros ?]
    | match goal with
      | |- logs_at_most _ _ (if ?b then _ else _) => destruct b
      | |- logs_at_most _ _ (match ?x with _ => _ end) => destruct x
      end ].

Lemma logs__search_commons_images (env : environment) (term : string) :
  logs_at_most p c_request (_search_commons_images env term).
Proof.
  unfold _search_commons_images.
  apply (logs_try_except c_request); [|lia|apply logs_ret].
  repeat logs_step.
Qed.

(** Every search term that is not empty costs one request. *)
Lemma logs_search_loop (env : environment) (sci : string)
  (terms : list string) (acc : list result) :
  logs_at_most p
    (c_request * length (List.filter (fun t => negb (String.eqb t "")) terms))
    (search_loop env sci terms acc).
Proof.
  revert acc. induction terms as [|term rest IH]; intros acc; simpl.
  - apply logs_ret.
  - destruct (String.eqb term ""); simpl; [apply IH|].
    apply (logs_bind c_request); [|lia|].
    + apply (logs_try_except c_request); [|lia|apply logs_ret].
      apply (logs_bind c_request);
        [apply logs__search_commons_images | lia | intros ?; apply logs_ret].
    + intros [acc' stop]. destruct stop; [apply logs_ret|].
      eapply logs_weaken; [apply IH | lia].
Qed.

Lemma logs_search_bird_images (env : environment) (sci common : string) :
  logs_at_most p (c_request * (if String.eqb common "" then 7 else 9))
    (search_bird_images env sci common).
Proof.
  unfold search_bird_images.
  eapply (logs_bind _ _ _ _ (logs_search_loop env sci _ [])); [|intros ?; apply logs_ret].
  unfold search_terms.
  assert (Hne : forall s t, String.eqb (s ++ String " " t) "" = false).
  { intros [|c s] t; reflexivity. }
  cbn [List.filter]. rewrite !Hne.
  assert (Hlen : forall (b : bool) (x : string) (l : list string),
            (length (if b then x :: l else l) <= S (length l))%nat).
  { intros [|] x l; simpl; lia. }
  destruct (String.eqb common "") eqn:Hc; simpl.
  - destruct (negb (String.eqb sci "")); simpl; lia.
  - rewrite Hc. simpl.
    assert (Hb : String.eqb (common ++ " bird") "" = false).
    { clear. destruct common; reflexivity. }
    rewrite Hb. simpl.
    destruct (negb (String.eqb sci "")); simpl; lia.
Qed.

Lemma logs_get_image_info (env : environment) (filename : string) :
  logs_at_most p c_request (get_image_info env filename).
Proof.
  unfold get_image_info.
  apply (logs_try_except c_request); [apply logs_request | lia | apply logs_ret].
Qed.

Lemma logs__is_new_image_better (webp jpg : string) (img : image) (n : nat) :
  logs_at_most p n (_is_new_image_better webp jpg img).
Proof.
  unfold _is_new_image_better, path_exists.
  apply (logs_try_except 0); [|lia|apply logs_ret].
  repeat logs_step.
Qed.

Lemma logs__should_overwrite_files (webp jpg : string) (img : image)
  (policy sci : string) :
  logs_at_most p c_prompt (_should_overwrite_files webp jpg img policy sci).
Proof.
  unfold _should_overwrite_files, path_exists.
  repeat first [apply logs__is_new_image_better | logs_step].
Qed.

Lemma logs_download_and_process_image (env : environment)
  (sci url policy : string) :
  logs_at_most p (c_request + c_prompt + 2 * c_saved)
    (download_and_process_image env sci url policy).
Proof.
  unfold download_and_process_image.
  apply (logs_try_except (c_request + c_prompt + 2 * c_saved));
    [|lia|repeat logs_step].
  eapply logs_bind; [apply logs_request | lia | intros img].
  destruct (too_small img); [apply logs_ret|].
  eapply logs_bind; [apply logs__should_overwrite_files | lia | intros b].
  destruct (negb b); [apply logs_ret|].
  repeat logs_step.
Qed.

Lemma logs_try_candidate (env : environment) (sci policy : string)
  (r : result) :
  logs_at_most p (2 * c_request + c_prompt + 2 * c_saved)
    (try_candidate env sci policy r).
Proof.
  unfold try_candidate.
  apply (logs_try_except (2 * c_request + c_prompt + 2 * c_saved));
    [|lia|apply logs_ret].
  eapply logs_bind; [apply logs_get_image_info | lia | intros info].
  repeat (logs_step; try apply logs_ret).
  eapply logs_bind;
    [apply logs_download_and_process_image | lia | intros f].
  destruct (truthy f); apply logs_ret.
Qed.

Lemma logs_try_candidates (env : environment) (sci policy : string)
  (rs : list result) :
  logs_at_most p (length rs * (2 * c_request + c_prompt + 2 * c_saved))
    (try_candidates env sci policy rs).
Proof.
  induction rs as [|r rest IH]; simpl; [apply logs_ret|].
  eapply logs_bind; [apply logs_try_candidate | lia | intros [f|]];
    [apply logs_ret|].
  eapply logs_weaken; [apply IH | lia].
Qed.

Lemma logs_fetch_bird_image (env : environment) (sci common policy : string) :
  logs_at_most p
    (c_fetch + c_request * (if String.eqb common "" then 7 else 9)
     + 3 * (2 * c_request + c_prompt + 2 * c_saved))
    (fetch_bird_image env sci common policy).
Proof.
  unfold fetch_bird_image.
  apply (logs_bind c_fetch); [|lia|intros _].
  { intros w. exists [EvFetch sci]. split; [reflexivity|].
    simpl. specialize (fetch_cost sci). lia. }
  eapply logs_bind; [apply logs_search_bird_images | lia | intros rs].
  destruct rs as [|r rs]; [apply logs_ret|].
  eapply logs_weaken; [apply logs_try_candidates|].
  pose proof (firstn_le_length 3 (r :: rs)) as Hl.
  assert (length (firstn 3 (r :: rs)) <= 3)%nat.
  { rewrite length_firstn. lia. }
  nia.
Qed.

Lemma logs_process_bird (env : environment) (a : args) (i : Z) (b : bird) :
  logs_at_most p
    (c_fetch + 15 * c_request + 3 * c_prompt + 6 * c_saved + c_checkpoint)
    (process_bird env a i b).
Proof.
  unfold process_bird.
  apply (logs_bind 0); [apply logs_get | lia | intros skip].
  destruct skip; [apply logs_ret|].
  apply (logs_bind (c_fetch + 15 * c_request + 3 * c_prompt + 6 * c_saved));
    [|lia|intros f].
  { eapply logs_weaken; [apply logs_fetch_bird_image|].
    destruct (String.eqb (common_name b) ""); lia. }
  apply (logs_bind 0);
    [apply logs_unlogged; intros ?; reflexivity | lia | intros _].
  destruct (_ =? _); [|apply logs_ret].
  intros w. exists [EvProgressSaved (progress w)]. split; [reflexivity|].
  simpl. specialize (checkpoint_cost (progress w)). lia.
Qed.

Lemma logs_main_loop (env : environment) (a : args) (i : Z)
  (birds : list bird) :
  logs_at_most p
    (length birds
     * (c_fetch + 15 * c_request + 3 * c_prompt + 6 * c_saved + c_checkpoint))
    (main_loop env a i birds).
Proof.
  revert i. induction birds as [|b rest IH]; intros i; simpl;
    [apply logs_ret|].
  eapply logs_bind; [apply logs_process_bird | lia | intros _].
  eapply logs_weaken; [apply IH | lia].
Qed.

End Budget.

(** X6. One call of [fetch_bird_image] sends at most 15 HTTP requests:
    nine searches, and a metadata request and a download for each of at
    most three candidates; 13 when the species has no common name, whose
    two search terms are left out.  It prompts at most three times and
    counts as one fetch.  The bounds hold whatever Commons answers and
    whether the call returns or is interrupted. *)
Theorem X6_fetch_sends_at_most_15_requests (env : environment)
  (sci common policy : string) :
  logs_at_most is_request (if String.eqb common "" then 13 else 15)
    (fetch_bird_image env sci common policy)
  /\ logs_at_most is_prompt 3 (fetch_bird_image env sci common policy)
  /\ logs_at_most is_fetch 1 (fetch_bird_image env sci common policy).
Proof.
  split; [|split].
  - eapply logs_weaken.
    + apply (logs_fetch_bird_image is_request 1 0 0 0); intros; simpl; lia.
    + destruct (String.eqb common ""); lia.
  - eapply logs_weaken.
    + apply (logs_fetch_bird_image is_prompt 0 1 0 0); intros; simpl; lia.
    + destruct (String.eqb common ""); lia.
  - eapply logs_weaken.
    + apply (logs_fetch_bird_image is_fetch 0 0 0 1); intros; simpl; lia.
    + destruct (String.eqb common ""); lia.
Qed.

End TrafficFacts.

(** ** The overwrite arbiter *)

Module ArbiterFacts.
Import Py PyFacts Imaging World Fetcher Main Observe FetcherFacts Scenario.

Lemma is_new_image_better_total (webp jpg : string) (img : image) (w : world) :
  exists b, _is_new_image_better webp jpg img w = (Ok b, w).
Proof.
  unfold _is_new_image_better, try_except, bind, path_exists, get,
    image_open_size, stat_st_size, ret.
  repeat (case_match; simplify_eq/=; eauto).
Qed.

(** With a WebP on disk the comparison reads that file only. *)
Lemma is_new_image_better_reads_webp (webp jpg jpg' : string) (img : image)
  (w w' : world) :
  is_Some (files w !! webp) -> files w' !! webp = files w !! webp ->
  fst (_is_new_image_better webp jpg' img w')
  = fst (_is_new_image_better webp jpg img w).
Proof.
  intros Hs He.
  unfold _is_new_image_better, try_except, bind, path_exists, get,
    image_open_size, stat_st_size, ret.
  assert (Hs' : is_Some (files w' !! webp)) by now rewrite He.
  rewrite !(bool_decide_eq_true_2 _ Hs), !(bool_decide_eq_true_2 _ Hs').
  simpl. rewrite !He. destruct Hs as [f Hf]. rewrite Hf.
  destruct (decoded f) as [[ew eh]|]; simpl; [|reflexivity].
  destruct (Qltb _ _); simpl; [reflexivity|]. rewrite He, Hf. simpl.
  now destruct (Qltb _ _).
Qed.

Lemma is_new_image_better_unreadable (webp jpg : string) (img : image)
  (w : world) (f : file) :
  files w !! (if bool_decide (is_Some (files w !! webp)) then webp else jpg)
    = Some f ->
  decoded f = None ->
  _is_new_image_better webp jpg img w = (Ok false, w).
Proof.
  intros Hf Hd.
  unfold _is_new_image_better, try_except, bind, path_exists, get,
    image_open_size, stat_st_size, ret.
  destruct (bool_decide (is_Some (files w !! webp))) eqn:E;
    rewrite Hf; (rewrite bool_decide_eq_true_2 by eauto); simpl;
    now rewrite Hf, Hd.
Qed.

(** X7. The comparison behind the policy [better] only reads: it always
    returns, never raises and leaves the world as it was.  With a WebP on
    disk its answer depends on that file alone, whatever the JPEG path and
    the rest of the world are; and when the file it consults cannot be
    decoded the answer is no. *)
Theorem X7_better_only_reads (webp jpg : string) (img : image) (w : world) :
  exists b, _is_new_image_better webp jpg img w = (Ok b, w)
  /\ (is_Some (files w !! webp) ->
      forall jpg' w', files w' !! webp = files w !! webp ->
        fst (_is_new_image_better webp jpg' img w') = Ok b)
  /\ (forall f,
        files w !! (if bool_decide (is_Some (files w !! webp)) then webp else jpg)
          = Some f ->
        decoded f = None -> b = false).
Proof.
  destruct (is_new_image_better_total webp jpg img w) as [b Hb].
  exists b. split; [exact Hb|]. split.
  - intros Hs jpg' w' He.
    rewrite (is_new_image_better_reads_webp webp jpg jpg' img w w' Hs He).
    now rewrite Hb.
  - intros f Hf Hd.
    rewrite (is_new_image_better_unreadable webp jpg img w f Hf Hd) in Hb.
    congruence.
Qed.

Lemma should_overwrite_files_nothing_on_disk (webp jpg : string) (img : image)
  (policy sci : string) (w : world) :
  files w !! webp = None -> files w !! jpg = None ->
  _should_overwrite_files webp jpg img policy sci w = (Ok true, w).
Proof.
  intros Hw Hj. unfold _should_overwrite_files, bind, path_exists, get, ret.
  rewrite Hw, Hj.
  rewrite !bool_decide_eq_false_2 by (intros [? ?]; discriminate).
  reflexivity.
Qed.

Lemma should_overwrite_files_unasked (webp jpg : string) (img : image)
  (policy sci : string) (w : world) :
  policy <> "ask" ->
  exists b, _should_overwrite_files webp jpg img policy sci w = (Ok b, w).
Proof.
  intros Hp. unfold _should_overwrite_files, bind, path_exists, get, ret.
  destruct (negb _ && negb _); [eauto|].
  destruct (String.eqb policy "never"); [eauto|].
  destruct (String.eqb policy "always"); [eauto|].
  destruct (String.eqb_spec policy "ask"); [contradiction|].
  destruct (String.eqb policy "better"); [|eauto].
  apply is_new_image_better_total.
Qed.

Lemma should_overwrite_files_asks_once (webp jpg : string) (img : image)
  (policy sci : string) :
  logs_at_most is_prompt 1 (_should_overwrite_files webp jpg img policy sci).
Proof. apply TrafficFacts.logs__should_overwrite_files. intros name. simpl. lia. Qed.

(** X8. When neither file of the species is on disk, the arbiter approves
    the save under every policy, the unknown ones included, and touches
    nothing.  Under every policy other than [ask] it returns, never
    raises, and leaves the world as it was: no prompt, no line of the
    standard input read.  Under [ask] it prompts at most once. *)
Theorem X8_arbiter_prompts_only_when_asked (webp jpg : string) (img : image)
  (policy sci : string) (w : world) :
  (files w !! webp = None -> files w !! jpg = None ->
   _should_overwrite_files webp jpg img policy sci w = (Ok true, w))
  /\ (policy <> "ask" ->
      exists b, _should_overwrite_files webp jpg img policy sci w = (Ok b, w))
  /\ logs_at_most is_prompt 1 (_should_overwrite_files webp jpg img policy sci).
Proof.
  split; [apply should_overwrite_files_nothing_on_disk|].
  split; [apply should_overwrite_files_unasked|].
  apply should_overwrite_files_asks_once.
Qed.

End ArbiterFacts.

(** ** What a fetch does to the image directory *)

Module EffectFacts.
Import Py PyFacts Imaging World Fetcher Main Observe FetcherFacts.
Import FailureFacts ArbiterFacts.

Lemma same_files_refl (w : world) : same_files w w.
Proof. reflexivity. Qed.

Lemma same_files_trans (a b c : world) :
  same_files a b -> same_files b c -> same_files a c.
Proof. unfold same_files. congruence. Qed.

Lemma get_image_info_keeps_files (env : environment) (filename : string) :
  stable_under same_files (get_image_info env filename).
Proof.
  apply stable_get_image_info;
    [exact same_files_refl | exact same_files_trans | reflexivity].
Qed.

Lemma search_bird_images_keeps_files (env : environment) (sci common : string) :
  stable_under same_files (search_bird_images env sci common).
Proof.
  apply stable_search_bird_images;
    [exact same_files_refl | exact same_files_trans | reflexivity].
Qed.

(** A world with the same files stands for the world of the start. *)
Lemma writes_both_or_nothing_from (env : environment) (sci : string)
  (w0 w : world) (r : outcome (option string) * world) :
  files w = files w0 ->
  writes_both_or_nothing env sci w r -> writes_both_or_nothing env sci w0 r.
Proof.
  unfold writes_both_or_nothing, on_disk. intros E. rewrite E. tauto.
Qed.

Lemma nothing_written (env : environment) (sci : string) (w w' : world)
  (o : outcome (option string)) :
  files w' = files w -> (forall f, o <> Ok (Some f)) ->
  writes_both_or_nothing env sci w (o, w').
Proof.
  intros E H. left. split; [exact E|]. intros f Hf. now destruct (H f).
Qed.

Lemma download_and_process_image_effect (env : environment)
  (sci url policy : string) (w : world) :
  writes_both_or_nothing env sci w
    (download_and_process_image env sci url policy w).
Proof.
  unfold download_and_process_image, try_except, bind at 1, request.
  destruct (http_image env (length (log w)) url) as [img|[|]];
    try (apply nothing_written; [reflexivity | discriminate]).
  destruct (too_small img) eqn:Hsmall;
    [apply nothing_written; [reflexivity | discriminate]|].
  fold (webp_of sci) (jpg_of sci). unfold bind at 1.
  set (w1 := emit _ w).
  pose proof (should_overwrite_files_keeps_files (webp_of sci) (jpg_of sci)
                (prepare img) policy sci w1) as Hkeep.
  unfold same_files in Hkeep.
  destruct (_should_overwrite_files _ _ _ _ _ w1) as [[save|[|]] w2] eqn:Hs;
    simpl in Hkeep;
    try (apply nothing_written; [exact Hkeep | discriminate]).
  destruct save; simpl.
  - right. exists img. split; [exact Hsmall|]. split; [|reflexivity].
    unfold written, stored. simpl. now rewrite Hkeep.
  - left. split; [exact Hkeep|]. intros f [= <-]. split; [reflexivity|].
    destruct (files w !! webp_of sci) eqn:Hw; [left; eauto|].
    destruct (files w !! jpg_of sci) eqn:Hj; [right; eauto|].
    rewrite (should_overwrite_files_nothing_on_disk _ _ _ _ _ w1 Hw Hj) in Hs.
    discriminate.
Qed.

Lemma try_candidate_effect (env : environment) (sci policy : string)
  (r : result) (w : world) :
  writes_both_or_nothing env sci w (try_candidate env sci policy r w).
Proof.
  unfold try_candidate, try_except, bind at 1.
  pose proof (get_image_info_keeps_files env (title r) w) as Hkeep.
  pose proof (get_image_info_catches env (title r) w) as Hcatch.
  unfold same_files in Hkeep.
  destruct (get_image_info env (title r) w) as [[info|[|]] w1];
    simpl in Hkeep, Hcatch; [| |contradiction];
    try (apply nothing_written; [exact Hkeep | discriminate]).
  destruct info as [info|];
    [|apply nothing_written; [exact Hkeep | discriminate]].
  destruct (info_url info) as [image_url|];
    [|apply nothing_written; [exact Hkeep | discriminate]].
  destruct (String.eqb image_url "");
    [apply nothing_written; [exact Hkeep | discriminate]|].
  destruct (_ || _);
    [apply nothing_written; [exact Hkeep | discriminate]|].
  destruct (_ <? _);
    [apply nothing_written; [exact Hkeep | discriminate]|].
  apply (writes_both_or_nothing_from env sci w w1 _ Hkeep).
  pose proof (download_and_process_image_effect env sci image_url policy w1)
    as Heff.
  pose proof (download_and_process_image_catches env sci image_url policy w1)
    as Hcatch'.
  unfold bind.
  destruct (download_and_process_image env sci image_url policy w1)
    as [[f|[|]] w2]; simpl in Hcatch'; [| |contradiction].
  - destruct f as [f|]; simpl; [|exact Heff].
    destruct Heff as [[E H]|(img & Hs & E & H)].
    + destruct (H f eq_refl) as [-> Hd].
      destruct (negb _) eqn:Hn; [left; split; [exact E|]; intros ? [= <-]; eauto|].
      apply nothing_written; [exact E | discriminate].
    + injection H as ->.
      destruct (negb _) eqn:Hn; [right; exists img; eauto|].
      apply negb_false_iff, String.eqb_eq in Hn.
      unfold webp_of in Hn. destruct (_sanitize_filename sci); discriminate.
  - exact Heff.
Qed.

Lemma try_candidates_effect (env : environment) (sci policy : string)
  (rs : list result) (w : world) :
  writes_both_or_nothing env sci w (try_candidates env sci policy rs w).
Proof.
  revert w. induction rs as [|r rest IH]; intros w; simpl.
  - apply nothing_written; [reflexivity | discriminate].
  - unfold bind. pose proof (try_candidate_effect env sci policy r w) as Heff.
    destruct (try_candidate env sci policy r w) as [[[f|]|e] w1].
    + exact Heff.
    + destruct Heff as [[E _]|(img & _ & _ & H)]; [|discriminate].
      exact (writes_both_or_nothing_from env sci w w1 _ E (IH w1)).
    + exact Heff.
Qed.

Lemma fetch_bird_image_effect (env : environment) (sci common policy : string)
  (w : world) :
  writes_both_or_nothing env sci w (fetch_bird_image env sci common policy w).
Proof.
  unfold fetch_bird_image, bind at 1, modify.
  set (w1 := emit _ _). unfold bind.
  pose proof (search_bird_images_keeps_files env sci common w1) as Hkeep.
  unfold same_files in Hkeep.
  destruct (search_bird_images env sci common w1) as [[rs|e] w2];
    simpl in Hkeep; [|apply nothing_written; [exact Hkeep | discriminate]].
  destruct rs as [|r rs];
    [apply nothing_written; [exact Hkeep | discriminate]|].
  apply (writes_both_or_nothing_from env sci w w2 _ Hkeep).
  apply try_candidates_effect.
Qed.

Lemma written_only_touches (env : environment) (sci : string) (img : image)
  (fs : gmap string file) (path : string) :
  path <> webp_of sci -> path <> jpg_of sci ->
  written env sci img fs !! path = fs !! path.
Proof.
  intros Hw Hj. unfold written.
  rewrite lookup_insert_ne by congruence.
  now rewrite lookup_insert_ne by congruence.
Qed.

Lemma written_keeps_paths (env : environment) (sci : string) (img : image)
  (fs : gmap string file) (path : string) :
  is_Some (fs !! path) -> is_Some (written env sci img fs !! path).
Proof.
  intros H. unfold written.
  destruct (decide (path = jpg_of sci)) as [->|Hj];
    [rewrite lookup_insert_eq; eauto|].
  rewrite lookup_insert_ne by congruence.
  destruct (decide (path = webp_of sci)) as [->|Hw];
    [rewrite lookup_insert_eq; eauto|].
  now rewrite lookup_insert_ne by congruence.
Qed.

Lemma written_on_disk (env : environment) (sci : string) (img : image)
  (fs : gmap string file) :
  is_Some (written env sci img fs !! webp_of sci)
  /\ is_Some (written env sci img fs !! jpg_of sci).
Proof.
  unfold written. split.
  - apply lookup_insert_is_Some.
    destruct (decide (jpg_of sci = webp_of sci)) as [E|N]; [now left | right].
    split; [exact N|]. rewrite lookup_insert_eq. eauto.
  - rewrite lookup_insert_eq. eauto.
Qed.

Lemma fetch_bird_image_keeps_ledger (env : environment)
  (sci common policy : string) :
  stable_under same_ledger (fetch_bird_image env sci common policy).
Proof.
  apply stable_fetch_bird_image; unfold same_ledger; intros; simpl;
    intuition congruence.
Qed.

(** What the outcome of a fetch says about the image directory. *)
Lemma fetch_bird_image_result (env : environment) (sci common policy : string)
  (w : world) :
  let r := fetch_bird_image env sci common policy w in
  (forall filename, fst r = Ok (Some filename) ->
     filename = webp_of sci /\ on_disk (snd r) sci)
  /\ only_touches sci w (snd r) /\ keeps_paths w (snd r).
Proof.
  intros r. pose proof (fetch_bird_image_effect env sci common policy w) as H.
  fold r in H. destruct H as [[E H]|(img & _ & E & H)].
  - split; [|split].
    + intros f Hf. destruct (H f Hf) as [-> Hd]. split; [reflexivity|].
      unfold on_disk. now rewrite E.
    + intros path _ _. now rewrite E.
    + intros path. now rewrite E.
  - split; [|split].
    + intros f Hf. rewrite H in Hf. injection Hf as <-. split; [reflexivity|].
      left. rewrite E. apply written_on_disk.
    + intros path Hw Hj. rewrite E. now apply written_only_touches.
    + intros path Hp. rewrite E. now apply written_keeps_paths.
Qed.

(** X9. A call of [fetch_bird_image] deals with the image directory in one
    of two ways.  Either it leaves every file as it was; or it writes the
    WebP and the JPEG of the species, both from one downloaded image that
    passed the minimum-size check, and returns the name of the WebP.  So
    it never writes one file of the pair without the other, never touches
    a file of another species and never removes a file.  When it returns a
    file name, that is the WebP name of the species and an artifact of the
    species is on disk.  The progress ledger, in memory and on disk, is
    not touched. *)
Theorem X9_fetch_writes_both_files_or_nothing (env : environment)
  (sci common policy : string) (w : world) :
  let r := fetch_bird_image env sci common policy w in
  (files (snd r) = files w
   \/ exists img, too_small img = false
        /\ files (snd r) = written env sci (prepare img) (files w)
        /\ fst r = Ok (Some (webp_of sci)))
  /\ (forall filename, fst r = Ok (Some filename) ->
        filename = webp_of sci /\ on_disk (snd r) sci)
  /\ only_touches sci w (snd r)
  /\ keeps_paths w (snd r)
  /\ same_ledger w (snd r).
Proof.
  intros r.
  destruct (fetch_bird_image_result env sci common policy w) as (H1 & H2 & H3).
  split; [|split; [exact H1|split; [exact H2|split; [exact H3|]]]].
  - destruct (fetch_bird_image_effect env sci common policy w)
      as [[E _]|Hw]; [now left | now right].
  - apply fetch_bird_image_keeps_ledger.
Qed.

End EffectFacts.

(** ** The loop of [main] and the ledger *)

Module LoopFacts.
Import Py PyFacts Imaging World Fetcher Main Observe FetcherFacts MainFacts.
Import FailureFacts EffectFacts.

Lemma skip_species_same (a : args) (w1 w2 : world) (name : string) :
  files w1 = files w2 -> progress w1 = progress w2 ->
  skip_species a w1 name = skip_species a w2 name.
Proof. intros Hf Hp. unfold skip_species. now rewrite Hf, Hp. Qed.

Lemma skip_species_is_tracked (a : args) (w : world) (name : string) :
  skip_species a w name = true -> is_Some (progress w !! name).
Proof.
  unfold skip_species. intros H.
  destruct (bool_decide (is_Some (progress w !! name))) eqn:E.
  - now apply bool_decide_eq_true_1 in E.
  - rewrite andb_false_r in H. discriminate.
Qed.

(** A tracked species is skipped when its entry is empty or one of its
    files is on disk. *)
Lemma skip_species_settled (a : args) (w : world) (name entry : string) :
  no_resume a = false -> force_redownload a = false ->
  progress w !! name = Some entry ->
  entry = "" \/ on_disk w name ->
  skip_species a w name = true.
Proof.
  intros Hr Hf He H. rewrite (skip_species_tracked a w name entry Hr Hf He).
  destruct (String.eqb entry "") eqn:Hne; [reflexivity|]. simpl.
  apply String.eqb_neq in Hne.
  destruct H as [->|[H|H]]; [contradiction| |]; apply orb_true_iff;
    [left | right]; now apply bool_decide_eq_true_2.
Qed.

Lemma skip_species_settled_inv (a : args) (w : world) (name : string) :
  skip_species a w name = true ->
  exists entry, progress w !! name = Some entry
                /\ (entry = "" \/ on_disk w name).
Proof.
  intros H. destruct (skip_species_is_tracked a w name H) as [entry He].
  exists entry. split; [exact He|]. unfold skip_species in H. rewrite He in H.
  destruct (_ && _ && _); [|discriminate]. simpl in H.
  destruct (String.eqb entry "") eqn:Hne;
    [apply String.eqb_eq in Hne; now left|]. simpl in H.
  right. apply orb_true_iff in H.
  destruct H as [H|H]; apply bool_decide_eq_true_1 in H; [now left | now right].
Qed.

(** One iteration that does not skip: the species is fetched and, if the
    fetch returns, entered in the ledger. *)
Lemma process_bird_unskipped (env : environment) (a : args) (i : Z) (b : bird)
  (w : world) :
  skip_species a w (scientific_name b) = false ->
  let r := fetch_bird_image env (scientific_name b) (common_name b)
             (overwrite a) w in
  let p := process_bird env a i b w in
  match fst r with
  | Ok filename =>
      fst p = Ok tt /\ files (snd p) = files (snd r)
      /\ progress (snd p)
         = <[scientific_name b := default "" filename]> (progress (snd r))
  | Raise e => p = (Raise e, snd r)
  end.
Proof.
  intros Hskip r p.
  assert (E : p = match r with
                  | (Ok filename, w1) =>
                      (if (i + 1) mod 10 =? 0 then save_progress else ret tt)
                        (set_progress
                           (insert (scientific_name b) (default "" filename)) w1)
                  | (Raise e, w1) => (Raise e, w1)
                  end).
  { subst p r. unfold process_bird, bind, get, modify. rewrite Hskip.
    now destruct (fetch_bird_image _ _ _ _ w) as [[filename|e] w1]. }
  rewrite E. clear E. destruct r as [[filename|e] w1]; simpl; [|reflexivity].
  destruct (_ =? _); simpl; auto.
Qed.

Lemma process_bird_step (env : environment) (a : args) (i : Z) (b : bird)
  (w : world) :
  let name := scientific_name b in
  let p := process_bird env a i b w in
  keeps_paths w (snd p) /\ only_touches name w (snd p)
  /\ (forall n, n <> name -> progress (snd p) !! n = progress w !! n)
  /\ (forall n, is_Some (progress w !! n) -> is_Some (progress (snd p) !! n))
  /\ (fst p = Ok tt ->
      (snd p = w /\ skip_species a w name = true)
      \/ (skip_species a w name = false
          /\ exists entry, progress (snd p) !! name = Some entry
               /\ (entry = "" \/ (entry = webp_of name /\ on_disk (snd p) name))))
  /\ (fst p <> Ok tt -> progress (snd p) = progress w).
Proof.
  intros name p. destruct (skip_species a w name) eqn:Hskip.
  - subst p. rewrite (process_bird_skipped env a i b w Hskip). simpl.
    repeat split; try tauto; easy.
  - pose proof (process_bird_unskipped env a i b w Hskip) as H.
    fold p in H. cbv zeta in H.
    destruct (fetch_bird_image_result env name (common_name b) (overwrite a) w)
      as (Hres & Htouch & Hkeep).
    destruct (fetch_bird_image_keeps_ledger env name (common_name b)
                (overwrite a) w) as [Hprog _].
    fold name in H.
    destruct (fetch_bird_image env name (common_name b) (overwrite a) w)
      as [[filename|e] w1]; simpl in *.
    + destruct H as (Hok & Hfiles & Hp). rewrite Hprog in Hp.
      split; [intros path; rewrite Hfiles; apply Hkeep|].
      split; [intros path; rewrite Hfiles; apply Htouch|].
      split; [intros n Hn; rewrite Hp; now rewrite lookup_insert_ne|].
      split.
      { intros n Hn. rewrite Hp. apply lookup_insert_is_Some.
        destruct (decide (name = n)); [now left | now right]. }
      split; [|intros Hc; now rewrite Hok in Hc].
      intros _. right. split; [reflexivity|].
      exists (default "" filename). rewrite Hp, lookup_insert_eq.
      split; [reflexivity|].
      destruct filename as [f|]; [right | now left]. simpl.
      destruct (Hres f eq_refl) as [-> Hd]. split; [reflexivity|].
      unfold on_disk. now rewrite Hfiles.
    + rewrite H. simpl.
      split; [exact Hkeep|]. split; [exact Htouch|].
      split; [intros n _; now rewrite Hprog|].
      split; [intros n; now rewrite Hprog|].
      split; [discriminate | intros _; exact Hprog].
Qed.

Lemma keeps_paths_on_disk (w w' : world) (name : string) :
  keeps_paths w w' -> on_disk w name -> on_disk w' name.
Proof. intros Hk [H|H]; [left | right]; now apply Hk. Qed.

(** *** The ledger after the loop *)

(** X10. What the loop of [main] does to the ledger and to the image
    directory, whether it runs to the end or is interrupted: the entries
    of species that are not in the list are left as they were, no entry is
    ever removed, no file is ever removed, and a file that is not the WebP
    or the JPEG of a species of the list is left as it was.  When the loop
    runs to the end, every species of the list has an entry. *)
Theorem X10_loop_tracks_every_species (env : environment) (a : args) (i : Z)
  (birds : list bird) (w : world) :
  let r := main_loop env a i birds w in
  keeps_paths w (snd r)
  /\ (forall path,
        (forall b, In b birds -> path <> webp_of (scientific_name b)
                                 /\ path <> jpg_of (scientific_name b)) ->
        files (snd r) !! path = files w !! path)
  /\ (forall n, (forall b, In b birds -> n <> scientific_name b) ->
        progress (snd r) !! n = progress w !! n)
  /\ (forall n, is_Some (progress w !! n) -> is_Some (progress (snd r) !! n))
  /\ (fst r = Ok tt ->
      forall b, In b birds -> is_Some (progress (snd r) !! scientific_name b)).
Proof.
  revert i w. induction birds as [|b rest IH]; intros i w; simpl.
  - repeat split; easy.
  - destruct (process_bird_step env a i b w) as (K1 & T1 & F1 & M1 & O1 & _).
    unfold bind. destruct (process_bird env a i b w) as [[[]|e] w1]; simpl in *.
    + destruct (IH (i + 1) w1) as (K2 & T2 & F2 & M2 & O2).
      split; [intros path Hp; apply K2, K1, Hp|].
      split.
      { intros path Hp. rewrite T2 by (intros b' Hb'; apply Hp; now right).
        apply T1; apply (Hp b); now left. }
      split.
      { intros n Hn. rewrite F2 by (intros b' Hb'; apply Hn; now right).
        apply F1, Hn. now left. }
      split; [intros n Hn; apply M2, M1, Hn|].
      intros Hok b' [<-|Hb']; [|now apply O2].
      apply M2. destruct (O1 eq_refl) as [[-> Hs]|[_ (entry & He & _)]].
      * now apply skip_species_is_tracked in Hs.
      * rewrite He. eauto.
    + split; [exact K1|].
      split; [intros path Hp; apply T1; apply (Hp b); now left|].
      split; [intros n Hn; apply F1, Hn; now left|].
      split; [exact M1 | discriminate].
Qed.

Lemma process_bird_sound (env : environment) (a : args) (i : Z) (b : bird)
  (w : world) :
  ledger_sound w -> ledger_sound (snd (process_bird env a i b w)).
Proof.
  intros Hs n entry He Hne.
  destruct (process_bird_step env a i b w) as (K & _ & F & _ & O & P).
  destruct (decide (n = scientific_name b)) as [->|Hn].
  - destruct (process_bird env a i b w) as [[[]|e] w1] eqn:Hp; simpl in *.
    + destruct (O eq_refl) as [[-> _]|[_ (entry' & He' & H)]];
        [now apply Hs|].
      rewrite He in He'. injection He' as <-.
      destruct H as [->|H]; [contradiction | exact H].
    + rewrite P in He by discriminate.
      destruct (Hs _ _ He Hne) as [-> Hd]. split; [reflexivity|].
      exact (keeps_paths_on_disk _ _ _ K Hd).
  - rewrite F in He by exact Hn.
    destruct (Hs _ _ He Hne) as [-> Hd]. split; [reflexivity|].
    exact (keeps_paths_on_disk _ _ _ K Hd).
Qed.

Lemma main_loop_sound (env : environment) (a : args) (i : Z)
  (birds : list bird) (w : world) :
  ledger_sound w -> ledger_sound (snd (main_loop env a i birds w)).
Proof.
  revert i w. induction birds as [|b rest IH]; intros i w Hs; simpl;
    [exact Hs|].
  pose proof (process_bird_sound env a i b w Hs) as H1. unfold bind.
  destruct (process_bird env a i b w) as [[[]|e] w1]; simpl in *;
    [now apply IH | exact H1].
Qed.

(** *** Running the loop again *)

Lemma process_bird_settles (env : environment) (a : args) (i : Z) (b : bird)
  (w : world) (n : string) :
  no_resume a = false -> force_redownload a = false ->
  fst (process_bird env a i b w) = Ok tt ->
  (n = scientific_name b \/ skip_species a w n = true) ->
  skip_species a (snd (process_bird env a i b w)) n = true.
Proof.
  intros Hr Hf Hok Hn.
  destruct (process_bird_step env a i b w) as (K & _ & F & _ & O & _).
  destruct (O Hok) as [[-> Hs]|[Hs (entry & He & H)]].
  - destruct Hn as [->|Hn]; assumption.
  - destruct (decide (n = scientific_name b)) as [->|Hne].
    + apply (skip_species_settled a _ _ entry Hr Hf He).
      destruct H as [->|[_ Hd]]; [now left | now right].
    + destruct Hn as [->|Hn]; [contradiction|].
      destruct (skip_species_settled_inv a w n Hn) as (entry' & He' & H').
      apply (skip_species_settled a _ _ entry' Hr Hf).
      * now rewrite F.
      * destruct H' as [->|Hd]; [now left | right].
        exact (keeps_paths_on_disk _ _ _ K Hd).
Qed.

Lemma main_loop_settles (env : environment) (a : args) (i : Z)
  (birds : list bird) (w : world) (n : string) :
  no_resume a = false -> force_redownload a = false ->
  fst (main_loop env a i birds w) = Ok tt ->
  ((exists b, In b birds /\ n = scientific_name b)
   \/ skip_species a w n = true) ->
  skip_species a (snd (main_loop env a i birds w)) n = true.
Proof.
  intros Hr Hf. revert i w.
  induction birds as [|b rest IH]; intros i w Hok Hn; simpl in *.
  - destruct Hn as [(b & [] & _)|Hn]. exact Hn.
  - unfold bind in *.
    pose proof (process_bird_settles env a i b w n Hr Hf) as Hstep.
    destruct (process_bird env a i b w) as [[[]|e] w1]; simpl in *;
      [|discriminate].
    apply IH; [exact Hok|].
    destruct Hn as [(b' & [<-|Hb'] & ->)|Hn].
    + right. apply Hstep; [reflexivity | now left].
    + left. now exists b'.
    + right. apply Hstep; [reflexivity | now right].
Qed.

(** A loop that ran to the end leaves a world in which the same loop
    skips every species. *)
Lemma main_loop_rerun (env env' : environment) (a : args) (i j : Z)
  (birds : list bird) (w w' : world) :
  no_resume a = false -> force_redownload a = false ->
  fst (main_loop env a i birds w) = Ok tt ->
  files w' = files (snd (main_loop env a i birds w)) ->
  progress w' = progress (snd (main_loop env a i birds w)) ->
  main_loop env' a j birds w' = (Ok tt, w').
Proof.
  intros Hr Hf Hok Hfiles Hprog. apply main_loop_all_skipped.
  intros b Hb. rewrite (skip_species_same a w' _ _ Hfiles Hprog).
  apply main_loop_settles; try assumption. left. now exists b.
Qed.

End LoopFacts.

(** ** Whole runs *)

Module RunFacts.
Import Py PyFacts Imaging World Fetcher Main Observe FetcherFacts MainFacts.
Import FailureFacts TrafficFacts EffectFacts LoopFacts Scenario.

Lemma dry_run_report_run (a : args) (birds : list bird) (w : world) :
  exists w', dry_run_report a birds w = (Ok tt, w')
    /\ files w' = files w /\ progress_file w' = progress_file w
    /\ progress w' = progress w /\ stdin w' = stdin w /\ self w' = self w
    /\ log w'
       = rev (map (fun b => EvReport (scientific_name b)
                              (dry_run_status a w (scientific_name b))) birds)
         ++ log w.
Proof.
  revert w. induction birds as [|b rest IH]; intros w; simpl.
  - exists w. repeat split; reflexivity.
  - unfold bind, modify.
    destruct (IH (emit (EvReport (scientific_name b)
                          (dry_run_status a w (scientific_name b))) w))
      as (w' & -> & Hf & Hpf & Hp & Hs & Hself & Hl).
    exists w'. repeat split; try assumption.
    rewrite Hl. simpl. now rewrite <- app_assoc.
Qed.

(** [main], case by case. *)
Lemma main_cases (env : environment) (a : args) (birds : list bird)
  (w : world) :
  main env a birds w
  = match birds with
    | [] => (Ok 1, w)
    | _ =>
        let w0 := set_progress
                    (fun _ => if no_resume a then ∅
                              else default ∅ (progress_file w)) w in
        match matching a birds with
        | [] => (Ok 1, w0)
        | _ =>
            if dry_run a
            then (Ok 0, snd (dry_run_report a
                               (firstn 10 (limited a (matching a birds))) w0))
            else (Ok 0, finalized
                          (snd (main_loop env a 0 (limited a (matching a birds))
                                  (loop_start a w))))
        end
    end.
Proof.
  destruct birds as [|b0 bs0]; [reflexivity|].
  unfold main, matching, limited, loop_start, finalized. cbv beta iota.
  generalize (b0 :: bs0). intros all.
  unfold bind at 1.
  assert (Hload : (if no_resume a then ret ∅ else load_progress) w
                  = (Ok (if no_resume a then ∅ else default ∅ (progress_file w)),
                     w)) by now destruct (no_resume a).
  rewrite Hload. unfold bind at 1, modify at 1. cbv zeta.
  destruct (match species a with
            | Some sp => if String.eqb sp "" then all else List.filter _ all
            | None => all
            end) as [|b1 bs1]; [reflexivity|].
  destruct (dry_run a).
  - unfold bind.
    destruct (dry_run_report_run a
                (firstn 10 match limit a with
                           | Some n => if n =? 0 then b1 :: bs1
                                       else slice_to n (b1 :: bs1)
                           | None => b1 :: bs1
                           end)
                (set_progress
                   (fun _ => if no_resume a then ∅
                             else default ∅ (progress_file w)) w))
      as (w' & -> & _).
    reflexivity.
  - unfold bind, modify, try_finally, save_progress, create_manifest, ret.
    now destruct (main_loop env a 0 _ _).
Qed.

Lemma matching_nil (a : args) : matching a [] = [].
Proof.
  unfold matching. destruct (species a) as [sp|]; [|reflexivity].
  now destruct (String.eqb sp "").
Qed.

(** X11. The exit status of [main] is 1 exactly when no species of the
    catalogue matches: the catalogue is empty, or [--species] is given and
    is contained in no scientific name (letter case ignored).  Then no
    file, no ledger on disk, no line of input and no log entry is
    touched.  In every other case the status is 0, even when the loop
    was interrupted; [main] never raises. *)
Theorem X11_exit_status_tells_whether_a_species_matched (env : environment)
  (a : args) (birds : list bird) (w : world) :
  let r := main env a birds w in
  (matching a birds = [] ->
   fst r = Ok 1 /\ files (snd r) = files w
   /\ progress_file (snd r) = progress_file w /\ stdin (snd r) = stdin w
   /\ self (snd r) = self w /\ log (snd r) = log w)
  /\ (matching a birds <> [] -> fst r = Ok 0).
Proof.
  cbv zeta. rewrite main_cases. destruct birds as [|b0 bs0].
  - rewrite matching_nil. split; [now intros _ | now intros H].
  - cbv zeta. destruct (matching a (b0 :: bs0)) as [|b1 bs1].
    + split; [now intros _ | now intros H].
    + split; [discriminate | intros _]. now destruct (dry_run a).
Qed.

Lemma count_events_none (p : event -> bool) (l : list event) :
  List.Forall (fun e => p e = false) l -> count_events p l = 0%nat.
Proof.
  induction 1 as [|e l He _ IH]; simpl; [reflexivity|]. now rewrite He, IH.
Qed.

Lemma reports_only (a : args) (w : world) (birds : list bird) :
  List.Forall (fun e => is_report e = true)
    (rev (map (fun b => EvReport (scientific_name b)
                          (dry_run_status a w (scientific_name b))) birds)).
Proof.
  apply List.Forall_forall. intros e He. apply in_rev, in_map_iff in He.
  now destruct He as (b & <- & _).
Qed.

Lemma slice_to_length {A} (n : Z) (l : list A) :
  (length (slice_to n l) <= length l)%nat
  /\ (0 < n -> (length (slice_to n l) <= Z.to_nat n)%nat).
Proof.
  unfold slice_to. destruct (0 <=? n) eqn:E.
  - rewrite length_firstn. lia.
  - rewrite length_firstn. lia.
Qed.

Lemma matching_length (a : args) (birds : list bird) :
  (length (matching a birds) <= length birds)%nat.
Proof.
  unfold matching. destruct (species a) as [sp|]; [|lia].
  destruct (String.eqb sp ""); [lia|]. apply List.filter_length_le.
Qed.

(** What a run that gets to the loop adds to the log. *)
Lemma main_loop_traffic (env : environment) (a : args) (i : Z)
  (birds : list bird) (w : world) :
  exists l, log (snd (main_loop env a i birds w)) = l ++ log w
    /\ (count_events is_fetch l <= length birds)%nat
    /\ (count_events is_request l <= 15 * length birds)%nat
    /\ (count_events is_prompt l <= 3 * length birds)%nat.
Proof.
  destruct (logs_main_loop is_fetch 0 0 0 1 0 ltac:(intros; simpl; lia)
              ltac:(intros; simpl; lia) ltac:(intros; simpl; lia)
              ltac:(intros; simpl; lia) ltac:(intros; simpl; lia)
              env a i birds w) as (l & E & C1).
  destruct (logs_main_loop is_request 1 0 0 0 0 ltac:(intros; simpl; lia)
              ltac:(intros; simpl; lia) ltac:(intros; simpl; lia)
              ltac:(intros; simpl; lia) ltac:(intros; simpl; lia)
              env a i birds w) as (l2 & E2 & C2).
  destruct (logs_main_loop is_prompt 0 1 0 0 0 ltac:(intros; simpl; lia)
              ltac:(intros; simpl; lia) ltac:(intros; simpl; lia)
              ltac:(intros; simpl; lia) ltac:(intros; simpl; lia)
              env a i birds w) as (l3 & E3 & C3).
  rewrite E in E2, E3. apply app_inv_tail in E2, E3. subst l2 l3.
  exists l. split; [exact E|]. lia.
Qed.


(** X13. A dry run leaves the image directory, the ledger on disk, the
    standard input and the fetcher as they were, sends no request and
    reports on at most ten species. *)
Theorem X13_dry_run_changes_nothing (env : environment) (a : args)
  (birds : list bird) (w : world) :
  dry_run a = true ->
  let r := main env a birds w in
  files (snd r) = files w /\ progress_file (snd r) = progress_file w
  /\ stdin (snd r) = stdin w /\ self (snd r) = self w
  /\ exists l, log (snd r) = l ++ log w /\ (length l <= 10)%nat
       /\ List.Forall (fun e => is_report e = true) l.
Proof.
  intros Hdry. cbv zeta. rewrite main_cases. destruct birds as [|b0 bs0].
  { repeat split; try reflexivity. exists []. repeat split; simpl; try lia.
    constructor. }
  cbv zeta. destruct (matching a (b0 :: bs0)) as [|b1 bs1].
  { repeat split; try reflexivity. exists []. repeat split; simpl; try lia.
    constructor. }
  rewrite Hdry.
  destruct (dry_run_report_run a (firstn 10 (limited a (b1 :: bs1)))
              (set_progress
                 (fun _ => if no_resume a then ∅
                           else default ∅ (progress_file w)) w))
    as (w' & -> & Hf & Hpf & _ & Hs & Hself & Hl).
  simpl. repeat split; try assumption.
  eexists. split; [exact Hl|]. split; [|apply reports_only].
  rewrite length_rev, length_map, length_firstn. lia.
Qed.

(** X13, witness: a dry run for the robin while the network is down. *)
Lemma X13_witness :
  let a := mk_args true None false None "better" false in
  let r := main offline a [robin_bird] first_run in
  files (snd r) = files first_run
  /\ progress_file (snd r) = progress_file first_run
  /\ stdin (snd r) = stdin first_run /\ self (snd r) = self first_run
  /\ exists l, log (snd r) = l ++ log first_run /\ (length l <= 10)%nat
       /\ List.Forall (fun e => is_report e = true) l.
Proof.
  exact (X13_dry_run_changes_nothing offline
           (mk_args true None false None "better" false) [robin_bird]
           first_run eq_refl).
Defined.

(** The report and the loop look at the same two files. *)
Lemma dry_run_paths (name : string) :
  (dry_run_safe_name name ++ ".webp")%string = webp_of name
  /\ (dry_run_safe_name name ++ ".jpg")%string = jpg_of name.
Proof.
  assert (E : dry_run_safe_name name = _sanitize_filename name).
  { unfold dry_run_safe_name, _sanitize_filename.
    rewrite SanitizeFacts.join_lower_kept_lower.
    now rewrite !SanitizeFacts.keep_chars_replace_dropped by reflexivity. }
  unfold webp_of, jpg_of. now rewrite E.
Qed.

Lemma on_disk_decide (w : world) (name : string) :
  bool_decide (is_Some (files w !! webp_of name))
  || bool_decide (is_Some (files w !! jpg_of name)) = true
  <-> on_disk w name.
Proof.
  unfold on_disk. rewrite orb_true_iff, !bool_decide_eq_true. tauto.
Qed.



(** *** Runs that are not interrupted *)

Lemma process_bird_catches (env : environment) (a : args) (i : Z) (b : bird) :
  never_raises Exception (process_bird env a i b).
Proof.
  unfold process_bird, save_progress.
  apply never_raises_bind; [apply never_raises_get|]. intros [|].
  - apply never_raises_ret.
  - apply never_raises_bind; [apply fetch_bird_image_catches|]. intros f.
    apply never_raises_bind; [apply never_raises_modify|]. intros _.
    destruct (_ =? _); [apply never_raises_modify | apply never_raises_ret].
Qed.

Lemma process_bird_quiet (env : environment) (a : args) (i : Z) (b : bird) :
  never_interrupts env ->
  never_raises KeyboardInterrupt (process_bird env a i b).
Proof.
  intros Hq. unfold process_bird, save_progress.
  apply never_raises_bind; [apply never_raises_get|]. intros [|].
  - apply never_raises_ret.
  - apply never_raises_bind; [now apply fetch_bird_image_quiet|]. intros f.
    apply never_raises_bind; [apply never_raises_modify|]. intros _.
    destruct (_ =? _); [apply never_raises_modify | apply never_raises_ret].
Qed.

Lemma main_loop_returns (env : environment) (a : args) (i : Z)
  (birds : list bird) (w : world) :
  never_interrupts env -> fst (main_loop env a i birds w) = Ok tt.
Proof.
  intros Hq. revert i w. induction birds as [|b rest IH]; intros i w; simpl;
    [reflexivity|].
  unfold bind.
  pose proof (process_bird_catches env a i b w) as H1.
  pose proof (process_bird_quiet env a i b Hq w) as H2.
  destruct (process_bird env a i b w) as [[[]|[|]] w1]; simpl in *;
    [apply IH | contradiction..].
Qed.



(** X16. The ledger that a run saves can be trusted when the ledger it
    started from could: if every file name in the ledger at the start of
    the loop is the WebP name of its species, with an artifact of the
    species on disk, the same holds of the ledger saved at the end, whether
    the loop ran to the end or was interrupted.  A run that starts from
    an empty ledger is one such. *)
Theorem X16_saved_ledger_names_files_on_disk (env : environment) (a : args)
  (birds : list bird) (w : world) :
  ledger_sound (loop_start a w) ->
  dry_run a = false -> matching a birds <> [] ->
  let w1 := snd (main env a birds w) in
  progress_file w1 = Some (progress w1) /\ ledger_sound w1.
Proof.
  intros Hs Hdry Hm. cbv zeta. rewrite main_cases.
  destruct birds as [|b0 bs0]; [now rewrite matching_nil in Hm|].
  cbv zeta. destruct (matching a (b0 :: bs0)) as [|b1 bs1]; [contradiction|].
  rewrite Hdry. cbn [snd]. split; [reflexivity|].
  pose proof (main_loop_sound env a 0 (limited a (b1 :: bs1)) _ Hs) as H.
  exact H.
Qed.

Lemma first_run_sound (a : args) : ledger_sound (loop_start a first_run).
Proof.
  intros name entry H. unfold loop_start in H. simpl in H.
  destruct (no_resume a); simpl in H; rewrite lookup_empty in H; discriminate.
Qed.

(** X16, witness: the robin, fetched from Commons on a first run. *)
Lemma X16_witness :
  let w1 := snd (main commons (run_with "better") [robin_bird] first_run) in
  progress_file w1 = Some (progress w1) /\ ledger_sound w1.
Proof.
  exact (X16_saved_ledger_names_files_on_disk commons (run_with "better")
           [robin_bird] first_run (first_run_sound _) eq_refl
           ltac:(discriminate)).
Defined.

End RunFacts.

(** ** What a search returns *)

Module SearchFacts.
Import Py PyFacts Scorer ScorerFacts World Fetcher Claims Observe FetcherFacts.
Import FailureFacts.

Lemma gate_items_relevant (term : string) (items : list item) :
  List.Forall
    (fun h => any (fun word => str_in word (lower (title h)))
                ["bird"; "aves"; lower term] = true
              /\ final_score h = None)
    (gate_items term items).
Proof.
  induction items as [|it rest IH]; cbn [gate_items]; [constructor|].
  destruct (any _ _) eqn:E; [|exact IH].
  constructor; [|exact IH]. split; [exact E | reflexivity].
Qed.

Lemma returns__search_commons_images (env : environment) (term : string) :
  returns (_search_commons_images env term)
    (List.Forall
       (fun h => any (fun word => str_in word (lower (title h)))
                   ["bird"; "aves"; lower term] = true
                 /\ final_score h = None)).
Proof.
  unfold _search_commons_images.
  apply returns_try_except; [|apply returns_ret; constructor].
  apply returns_bind with (Q := fun _ => True); [apply returns_any|].
  intros [items|] _; apply returns_ret;
    [apply gate_items_relevant | constructor].
Qed.

(** What the filter hands on keeps its title and carries a quality score
    between 0 and 17, the number of allow-list terms. *)
Lemma filter_scores (results : list result) (sci : string) (r : result) :
  In r (_filter_bird_images results sci) ->
  exists h q, In h results /\ title r = title h /\ size r = size h
    /\ final_score r = final_score h
    /\ quality_score r = Some q /\ 0 <= q <= 17.
Proof.
  intros Hin. apply filter_In in Hin as (h & Hh & _ & ->).
  exists h, (good_score sci (lower (title h)) (lower (snippet h))).
  repeat split; try assumption; unfold good_score;
    match goal with
    | |- context [count_if ?p ?l] =>
        pose proof (LedgerFacts.count_if_bounds p l) as Hb
    end; simpl in Hb; lia.
Qed.

Lemma returns_search_loop_gathered (all_terms : list string)
  (env : environment) (sci : string) (terms : list string)
  (acc : list result) :
  (forall term, In term terms -> In term all_terms) ->
  List.Forall (gathered all_terms) acc ->
  returns (search_loop env sci terms acc) (List.Forall (gathered all_terms)).
Proof.
  revert acc. induction terms as [|term rest IH]; intros acc Hsub Hacc; simpl.
  - now apply returns_ret.
  - assert (Hrest : forall t, In t rest -> In t all_terms)
      by (intros t Ht; apply Hsub; now right).
    destruct (String.eqb term "") eqn:Hterm; [now apply IH|].
    apply String.eqb_neq in Hterm.
    apply returns_bind
      with (Q := fun step => List.Forall (gathered all_terms) (fst step)).
    + apply returns_try_except; [|now apply returns_ret].
      eapply returns_bind; [apply returns__search_commons_images|].
      intros results Hres. apply returns_ret. simpl.
      apply List.Forall_app. split; [exact Hacc|].
      apply List.Forall_forall. intros r Hr.
      apply filter_scores in Hr as (h & q & Hh & Ht & _ & Hf & Hq & Hb).
      rewrite List.Forall_forall in Hres.
      destruct (Hres h Hh) as [Hgate Hnone].
      split; [|split].
      * exists term. rewrite Ht. split; [apply Hsub; now left|]. now split.
      * now rewrite Hf.
      * now exists q.
    + intros [acc' stop] Hacc'. simpl in Hacc'.
      destruct stop; [now apply returns_ret | now apply IH].
Qed.

Lemma min_5_bounds (a : Q) :
  (Py.min a 5 <= 5)%Q /\ ((0 <= a)%Q -> (0 <= Py.min a 5)%Q).
Proof.
  unfold Py.min. destruct (Qltb 5 a) eqn:E.
  - split; [lra | intros _; lra].
  - apply Qltb_false in E. split; [exact E | tauto].
Qed.

Lemma score_result_bounds (sci : string) (h : result) (q : Z) :
  quality_score h = Some q -> 0 <= q <= 17 ->
  scored_within_bounds (score_result sci h).
Proof.
  intros Hq Hb. destruct (score_result_total sci h) as (f & Hf & Hv).
  exists q, f. split; [simpl; exact Hq|]. split; [exact Hf|].
  split; [exact Hb|].
  unfold spec_total_score, indicator in Hv. rewrite Hq in Hv.
  cbn [default from_option id] in Hv.
  destruct (min_5_bounds (inject_Z (size h) / 1000000)) as [Hle Hge].
  split.
  - destruct (str_in _ _); destruct (any _ _); lra.
  - intros Hs. cbn [size score_result set_final_score] in Hs.
    assert (H0 : (0 <= inject_Z (size h) / 1000000)%Q).
    { apply Qle_shift_div_l; [reflexivity|].
      rewrite Qmult_0_l. rewrite <- (Zle_Qle 0). exact Hs. }
    specialize (Hge H0).
    destruct (str_in _ _); destruct (any _ _); lra.
Qed.

Lemma ranked_bounds (terms : list string) (results : list result)
  (sci : string) :
  List.Forall (gathered terms) results ->
  List.Forall (fun r => relevant terms (title r) /\ scored_within_bounds r)
    (_deduplicate_and_score_results results sci).
Proof.
  rewrite !List.Forall_forall. intros H r Hr.
  apply ranked_In in Hr as (l1 & h & l2 & -> & _ & ->).
  destruct (H h (in_elt h l1 l2)) as (Hrel & _ & q & Hq & Hb).
  split; [exact Hrel | exact (score_result_bounds sci h q Hq Hb)].
Qed.



End SearchFacts.

(** ** The session counters *)

Module TallyFacts.
Import Py PyFacts Imaging World Fetcher Main Observe FetcherFacts MainFacts.
Import FailureFacts RunFacts Scenario.

Lemma tally_refl (w : world) : tally w w 0 0.
Proof. unfold tally. lia. Qed.

Lemma tally_trans (a b c : world) (d1 s1 d2 s2 : Z) :
  tally a b d1 s1 -> tally b c d2 s2 -> tally a c (d1 + d2) (s1 + s2).
Proof. unfold tally. lia. Qed.

Lemma untouched_trans (a b c : world) :
  tally a b 0 0 -> tally b c 0 0 -> tally a c 0 0.
Proof. apply tally_trans. Qed.

Lemma search_bird_images_untouched (env : environment) (sci common : string) :
  stable_under (fun w w' => tally w w' 0 0) (search_bird_images env sci common).
Proof.
  apply stable_search_bird_images;
    [exact tally_refl | exact untouched_trans | intros; unfold tally; simpl; lia].
Qed.

Lemma get_image_info_untouched (env : environment) (filename : string) :
  stable_under (fun w w' => tally w w' 0 0) (get_image_info env filename).
Proof.
  apply stable_get_image_info;
    [exact tally_refl | exact untouched_trans | intros; unfold tally; simpl; lia].
Qed.

Lemma should_overwrite_files_untouched (webp jpg : string) (img : image)
  (policy sci : string) :
  stable_under (fun w w' => tally w w' 0 0)
    (_should_overwrite_files webp jpg img policy sci).
Proof.
  apply stable__should_overwrite_files;
    [exact tally_refl | exact untouched_trans | intros; unfold tally; simpl; lia..].
Qed.

Lemma no_success (w w' : world) (o : outcome (option string)) :
  tally w w' 0 0 -> one_success_at_most w (o, w').
Proof. now left. Qed.

Lemma one_success_at_most_from (w0 w : world)
  (r : outcome (option string) * world) :
  tally w0 w 0 0 -> one_success_at_most w r -> one_success_at_most w0 r.
Proof.
  intros H0 [H|[H Hf]]; [left | right; split; [|exact Hf]].
  - exact (tally_trans _ _ _ 0 0 0 0 H0 H).
  - exact (tally_trans _ _ _ 0 0 0 1 H0 H).
Qed.

(** A download counts at most one success, and only when it returns a
    file name, which is not empty. *)
Lemma download_and_process_image_tally (env : environment)
  (sci url policy : string) (w : world) :
  one_success_at_most w (download_and_process_image env sci url policy w).
Proof.
  unfold download_and_process_image, try_except, bind at 1, request.
  destruct (http_image env (length (log w)) url) as [img|[|]];
    try (apply no_success; unfold tally; simpl; lia).
  destruct (too_small img); [apply no_success; unfold tally; simpl; lia|].
  unfold bind at 1. set (w1 := emit _ w).
  pose proof (should_overwrite_files_untouched
                (_sanitize_filename sci ++ ".webp")
                (_sanitize_filename sci ++ ".jpg")
                (prepare img) policy sci w1) as Hkeep.
  destruct (_should_overwrite_files _ _ _ _ _ w1) as [[save|[|]] w2];
    simpl in Hkeep;
    try (apply no_success; unfold tally in *; simpl in *; lia).
  destruct save; simpl;
    [|apply no_success; unfold tally in *; simpl in *; lia].
  right. split; [unfold tally in *; simpl in *; lia|].
  eexists. split; [reflexivity|].
  destruct (_sanitize_filename sci); discriminate.
Qed.

Lemma try_candidate_tally (env : environment) (sci policy : string)
  (r : result) (w : world) :
  one_success_at_most w (try_candidate env sci policy r w).
Proof.
  unfold try_candidate, try_except, bind at 1.
  pose proof (get_image_info_untouched env (title r) w) as Hkeep.
  pose proof (get_image_info_catches env (title r) w) as Hcatch.
  destruct (get_image_info env (title r) w) as [[info|[|]] w1];
    simpl in Hkeep, Hcatch; [| |contradiction];
    try (now apply no_success).
  destruct info as [info|]; [|now apply no_success].
  destruct (info_url info) as [image_url|]; [|now apply no_success].
  destruct (String.eqb image_url ""); [now apply no_success|].
  destruct (_ || _); [now apply no_success|].
  destruct (_ <? _); [now apply no_success|].
  apply (one_success_at_most_from w w1 _ Hkeep).
  pose proof (download_and_process_image_tally env sci image_url policy w1)
    as Ht.
  pose proof (download_and_process_image_catches env sci image_url policy w1)
    as Hcatch'.
  unfold bind.
  destruct (download_and_process_image env sci image_url policy w1)
    as [[f|[|]] w2]; simpl in Hcatch'; [| |contradiction].
  - destruct Ht as [Ht|[Ht (f' & Hf' & Hne)]]; simpl in *.
    + destruct (truthy f); now apply no_success.
    + injection Hf' as ->. simpl.
      pose proof Hne as Hne'. apply String.eqb_neq in Hne'. rewrite Hne'.
      simpl. right. split; [exact Ht | eauto].
  - exact Ht.
Qed.

Lemma try_candidates_tally (env : environment) (sci policy : string)
  (rs : list result) (w : world) :
  one_success_at_most w (try_candidates env sci policy rs w).
Proof.
  revert w. induction rs as [|r rest IH]; intros w; simpl.
  - apply no_success, tally_refl.
  - unfold bind. pose proof (try_candidate_tally env sci policy r w) as Ht.
    destruct (try_candidate env sci policy r w) as [[[f|]|e] w1].
    + exact Ht.
    + destruct Ht as [Ht|[_ (f & Hf & _)]]; [|discriminate].
      exact (one_success_at_most_from w w1 _ Ht (IH w1)).
    + exact Ht.
Qed.

(** A fetch counts one download and at most one success. *)
Lemma fetch_bird_image_tally (env : environment) (sci common policy : string)
  (w w' : world) (o : outcome (option string)) :
  fetch_bird_image env sci common policy w = (o, w') ->
  tally w w' 1 0 \/ tally w w' 1 1.
Proof.
  unfold fetch_bird_image, bind at 1, modify.
  set (w1 := emit _ _).
  assert (H1 : tally w w1 1 0) by (unfold tally; simpl; lia).
  unfold bind.
  pose proof (search_bird_images_untouched env sci common w1) as Hs.
  destruct (search_bird_images env sci common w1) as [[rs|e] w2];
    simpl in Hs; pose proof (tally_trans _ _ _ 1 0 0 0 H1 Hs) as H2;
    [|intros [= <- <-]; now left].
  destruct rs as [|r rs]; [intros [= <- <-]; now left|].
  intros E.
  pose proof (try_candidates_tally env sci policy (firstn 3 (r :: rs)) w2)
    as Ht.
  rewrite E in Ht. destruct Ht as [H|[H _]]; simpl in H;
    [left; exact (tally_trans _ _ _ 1 0 0 0 H2 H)
    |right; exact (tally_trans _ _ _ 1 0 0 1 H2 H)].
Qed.

Lemma process_bird_tally (env : environment) (a : args) (i : Z) (b : bird)
  (w w' : world) (o : outcome unit) :
  process_bird env a i b w = (o, w') ->
  exists d s, tally w w' d s /\ 0 <= s <= d /\ d <= 1.
Proof.
  unfold process_bird, bind at 1, get.
  destruct (skip_species a w (scientific_name b)).
  - intros [= <- <-]. exists 0, 0. split; [apply tally_refl | lia].
  - unfold bind.
    destruct (fetch_bird_image _ _ _ _ w) as [[f|e] w1] eqn:Hf;
      apply fetch_bird_image_tally in Hf.
    + intros E.
      assert (Hsame : self w' = self w1).
      { revert E. unfold modify, save_progress, ret.
        destruct (_ =? _); now intros [= <- <-]. }
      unfold tally in *. rewrite Hsame.
      destruct Hf as [H|H]; [exists 1, 0 | exists 1, 1]; lia.
    + intros [= <- <-].
      destruct Hf as [H|H]; [exists 1, 0 | exists 1, 1];
        (split; [exact H | lia]).
Qed.

Lemma main_loop_tally (env : environment) (a : args) (i : Z)
  (birds : list bird) (w : world) :
  exists d s, tally w (snd (main_loop env a i birds w)) d s
              /\ 0 <= s <= d /\ d <= Z.of_nat (length birds).
Proof.
  revert i w. induction birds as [|b rest IH]; intros i w; simpl.
  - exists 0, 0. split; [apply tally_refl | lia].
  - unfold bind.
    destruct (process_bird env a i b w) as [[[]|e] w1] eqn:Hp;
      apply process_bird_tally in Hp as (d1 & s1 & H1 & B1); simpl.
    + destruct (IH (i + 1) w1) as (d2 & s2 & H2 & B2).
      exists (d1 + d2), (s1 + s2).
      split; [exact (tally_trans _ _ _ _ _ _ _ H1 H2) | lia].
    + exists d1, s1. split; [exact H1 | lia].
Qed.

(** X18. The counters of the session summary.  In a run that gets to the
    loop, the fetcher ends with a download count that is at most the
    number of species the run goes on with, a success count between 0 and
    the download count, and an error count that is not negative: the
    success rate of the summary lies between 0 and 100 percent.  A
    candidate that is rejected or fails after another one failed counts as
    a further error, so the error count may exceed the download count. *)
Theorem X18_session_counters_are_consistent (env : environment) (a : args)
  (birds : list bird) (w : world) :
  dry_run a = false -> matching a birds <> [] ->
  let f := self (snd (main env a birds w)) in
  0 <= success_count f <= download_count f
  /\ download_count f <= Z.of_nat (length (limited a (matching a birds)))
  /\ 0 <= error_count f.
Proof.
  intros Hdry Hm. cbv zeta. rewrite main_cases.
  destruct birds as [|b0 bs0]; [now rewrite matching_nil in Hm|].
  cbv zeta. destruct (matching a (b0 :: bs0)) as [|b1 bs1]; [contradiction|].
  rewrite Hdry. cbn [snd].
  destruct (main_loop_tally env a 0 (limited a (b1 :: bs1)) (loop_start a w))
    as (d & s & (Hd & Hs & He) & B).
  unfold finalized. simpl in *. lia.
Qed.

(** X18, witness: the robin, fetched from Commons on a first run. *)
Lemma X18_witness :
  let f := self (snd (main commons (run_with "better") [robin_bird]
                        first_run)) in
  0 <= success_count f <= download_count f
  /\ download_count f
     <= Z.of_nat (length (limited (run_with "better")
                            (matching (run_with "better") [robin_bird])))
  /\ 0 <= error_count f.
Proof.
  exact (X18_session_counters_are_consistent commons (run_with "better")
           [robin_bird] first_run eq_refl ltac:(discriminate)).
Defined.

End TallyFacts.

(** ** Interrupted runs *)

Module InterruptFacts.
Import Py PyFacts Imaging World Fetcher Main Observe FetcherFacts MainFacts.
Import FailureFacts LoopFacts RunFacts Scenario.

(** A loop that raises was interrupted in the fetch of one species; the
    species before it were dealt with, and the ledger is as they left
    it. *)
Lemma main_loop_interrupted (env : environment) (a : args) (i : Z)
  (birds : list bird) (w : world) (e : exn) :
  fst (main_loop env a i birds w) = Raise e ->
  e = KeyboardInterrupt
  /\ exists done b rest, birds = done ++ b :: rest
       /\ fst (main_loop env a i done w) = Ok tt
       /\ skip_species a (snd (main_loop env a i done w)) (scientific_name b)
          = false
       /\ progress (snd (main_loop env a i birds w))
          = progress (snd (main_loop env a i done w)).
Proof.
  revert i w. induction birds as [|b rest IH]; intros i w; simpl;
    [discriminate|].
  unfold bind.
  pose proof (process_bird_catches env a i b w) as Hcatch.
  destruct (process_bird_step env a i b w) as (_ & _ & _ & _ & _ & Hsame).
  destruct (process_bird env a i b w) as [[[]|e'] w1] eqn:Hp; simpl in *.
  - intros Hr. destruct (IH (i + 1) w1 Hr)
      as (He & done & b' & rest' & -> & Hok & Hskip & Hprog).
    split; [exact He|]. exists (b :: done), b', rest'.
    simpl. unfold bind. rewrite Hp. auto.
  - intros [= ->]. split; [now destruct e|].
    exists [], b, rest. simpl. split; [reflexivity|]. split; [reflexivity|].
    split; [|apply Hsame; discriminate].
    destruct (skip_species a w (scientific_name b)) eqn:Hs; [|reflexivity].
    rewrite (process_bird_skipped env a i b w Hs) in Hp. discriminate.
Qed.



End InterruptFacts.
